(** * Inventory mini project: a shallow embedding of [inventory.py]

    The program keeps a product catalog in a Python [dict], persists it as
    JSON in [inventory.json] and appends staff actions to [staff_log.txt].
    This development embeds the Python code as Rocq functions over an
    explicit world (standard input, files, clock, effect trace) and proves
    the properties of the specification about it.

    Conventions of the embedding:
    - a Python [str] is the list of its code points ([pystr]);
    - a Python [int] is a [Z], a Python [float] is a binary64 [float];
    - a Python [dict] is an association list in insertion order whose keys
      are pairwise distinct;
    - an uncaught exception is the [Raise] result of the monad [M]. *)

From Stdlib Require Import ZArith NArith List String Ascii Floats Lia Bool.
From stdpp Require Import base option list gmap strings.

Set Warnings "-register-all".

Local Open Scope N_scope.

(** ** Python strings *)

(** A [str] is a sequence of Unicode code points. *)
Abbreviation pystr := (list N).

(** Source literals that are plain ASCII are written [lit "..."]. *)
Definition lit (s : string) : pystr :=
  map N_of_ascii (list_ascii_of_string s).

(** [str.isspace] on one code point: the characters [str.strip()] removes. *)
Definition isspace (c : N) : bool :=
  ((9 <=? c) && (c <=? 13)) || ((28 <=? c) && (c <=? 32))
  || (c =? 0x85) || (c =? 0xA0) || (c =? 0x1680)
  || ((0x2000 <=? c) && (c <=? 0x200A))
  || (c =? 0x2028) || (c =? 0x2029) || (c =? 0x202F) || (c =? 0x205F)
  || (c =? 0x3000).

Fixpoint lstrip (s : pystr) : pystr :=
  match s with
  | c :: s' => if isspace c then lstrip s' else s
  | [] => []
  end.

Definition rstrip (s : pystr) : pystr := rev (lstrip (rev s)).

(** [s.strip()] *)
Definition strip (s : pystr) : pystr := rstrip (lstrip s).


(** ** Python integers as text *)

Definition is_digit (c : N) : bool := (48 <=? c) && (c <=? 57).

Definition digit_char (d : N) : N := 48 + d.

Fixpoint digits_fuel (fuel : nat) (n : N) (acc : list N) : list N :=
  match fuel with
  | O => acc
  | S fuel' =>
      let acc' := (n mod 10) :: acc in
      if n <? 10 then acc' else digits_fuel fuel' (n / 10) acc'
  end.

(** The decimal digits of [n], most significant first ([0] gives [[0]]). *)
Definition decimal_digits (n : N) : list N :=
  digits_fuel (S (N.to_nat (N.log2 n))) n [].

(** The number a list of decimal digits denotes (Horner's rule). *)
Definition digits_value (ds : list N) : N :=
  fold_left (fun acc d => 10 * acc + d) ds 0.

(** [str(n)] / [repr(n)] / [format(n, "")] for an [int]. *)
Definition str_of_int (z : Z) : pystr :=
  let ds := map digit_char (decimal_digits (Z.abs_N z)) in
  if (z <? 0)%Z then 45 :: ds else ds.

(** The characters that [PyLong_FromString] and [float()] skip around a
    number ([Py_ISSPACE]): tab, newline, vertical tab, form feed, carriage
    return and space. *)
Definition is_c_space (c : N) : bool :=
  ((9 <=? c) && (c <=? 13)) || (c =? 32).

Fixpoint skip_c_space (s : pystr) : pystr :=
  match s with
  | c :: s' => if is_c_space c then skip_c_space s' else s
  | [] => []
  end.

Definition strip_c_space (s : pystr) : pystr :=
  rev (skip_c_space (rev (skip_c_space s))).

(** Digits with single underscores between them: the digit values, most
    significant first, or [None] when an underscore is not between two
    digits or a character is not a digit.  [prev_digit] tells whether the
    previous character was a digit. *)
Fixpoint grouped_digits (prev_digit : bool) (s : pystr) : option (list N) :=
  match s with
  | [] => if prev_digit then Some [] else None
  | c :: s' =>
      if is_digit c then
        ds ← grouped_digits true s'; Some ((c - 48) :: ds)
      else if (c =? 95) && prev_digit then
        match s' with
        | c' :: _ => if is_digit c' then grouped_digits false s' else None
        | [] => None
        end
      else None
  end.

(** [int(s)] on ASCII text, base 10: optional blanks, an optional sign,
    digits with optional single underscores between them, optional blanks.
    [None] stands for [ValueError]. *)
Definition int_of_ascii (s : pystr) : option Z :=
  let '(neg, ds) :=
    match strip_c_space s with
    | c :: r => if c =? 45 then (true, r)
                else if c =? 43 then (false, r)
                else (false, c :: r)
    | [] => (false, [])
    end in
  n ← grouped_digits false ds;
  Some (if neg then - Z.of_N (digits_value n) else Z.of_N (digits_value n))%Z.

(** ** Python floats as text *)

(** The least exponent of a binary64 value: [3 - emax - prec]. *)
Definition emin : Z := -1074.

(** [d * 2 ^ k <= n], for any integer [k]. *)
Definition scaled_le (d : positive) (k : Z) (n : positive) : bool :=
  (Zpos d * 2 ^ Z.max k 0 <=? Zpos n * 2 ^ Z.max (- k) 0)%Z.

(** The [k] with [2 ^ k <= n / d < 2 ^ (k + 1)]. *)
Definition binade (n d : positive) : Z :=
  let k0 := (Z.log2 (Zpos n) - Z.log2 (Zpos d))%Z in
  if scaled_le d k0 n then k0 else (k0 - 1)%Z.

(** The integer nearest to [a / b] for [b > 0], the even one at a tie. *)
Definition round_half_even (a b : Z) : Z :=
  let q := (a / b)%Z in
  let r := (a mod b)%Z in
  if (2 * r <? b)%Z then q
  else if (b <? 2 * r)%Z then (q + 1)%Z
  else if Z.even q then q else (q + 1)%Z.

(** The binary64 value nearest to [n / d], ties to even, with the sign
    [neg]: a mantissa of 53 bits at the exponent of the binade of [n / d],
    or a shorter one at the least exponent; infinity beyond the largest
    finite value. *)
Definition sf_of_ratio (neg : bool) (n d : positive) : spec_float :=
  let e := Z.max (binade n d - 52) emin in
  let q := round_half_even (Zpos n * 2 ^ Z.max (- e) 0)
             (Zpos d * 2 ^ Z.max e 0) in
  let '(q, e) := if (q =? 2 ^ 53)%Z then (2 ^ 52, e + 1)%Z else (q, e) in
  match q with
  | Zpos m => if (971 <? e)%Z then S754_infinity neg else S754_finite neg m e
  | _ => S754_zero neg
  end.

(** The binary64 value nearest to [m * 10 ^ e10] for a natural [m]:
    what [strtod] returns for the digits [m] and the decimal exponent
    [e10].  Too large a value gives infinity, too small a value zero. *)
Definition sf_of_decimal (neg : bool) (m : N) (e10 : Z) : spec_float :=
  match m with
  | N0 => S754_zero neg
  | Npos p =>
      match e10 with
      | Zneg e => sf_of_ratio neg p (10 ^ e)%positive
      | Z0 => sf_of_ratio neg p 1
      | Zpos e => sf_of_ratio neg (p * 10 ^ e)%positive 1
      end
  end.

(** [float(n)] for an [int]: the nearest binary64 value, or [None]
    ([OverflowError]) when that would be infinite. *)
Definition float_of_int (z : Z) : option float :=
  match sf_of_decimal (z <? 0)%Z (Z.abs_N z) 0 with
  | S754_infinity _ => None
  | sf => Some (SF2Prim sf)
  end.

(** The leading digits of [s] (their values) and what follows them. *)
Fixpoint span_digits (s : pystr) : list N * pystr :=
  match s with
  | c :: s' =>
      if is_digit c then
        let '(ds, r) := span_digits s' in ((c - 48) :: ds, r)
      else ([], s)
  | [] => ([], [])
  end.

Definition to_lower (c : N) : N :=
  if (65 <=? c) && (c <=? 90) then c + 32 else c.

(** An optional sign: whether it is [-], and the rest. *)
Definition take_sign (s : pystr) : bool * pystr :=
  match s with
  | c :: r => if c =? 45 then (true, r)
              else if c =? 43 then (false, r)
              else (false, s)
  | [] => (false, s)
  end.

(** An exponent part [e], [E] followed by an optional sign and at least one
    digit.  Without a digit there is no exponent and nothing is consumed. *)
Definition take_exponent (s : pystr) : Z * pystr :=
  match s with
  | c :: r =>
      if (c =? 101) || (c =? 69) then
        let '(neg, r1) := take_sign r in
        match span_digits r1 with
        | ([], _) => (0%Z, s)
        | (ds, r2) =>
            let e := Z.of_N (digits_value ds) in
            ((if neg then - e else e)%Z, r2)
        end
      else (0%Z, s)
  | [] => (0%Z, s)
  end.

(** A decimal literal without sign: digits, an optional point and digits,
    an optional exponent; at least one digit before the exponent. *)
Definition sf_of_decimal_text (neg : bool) (s : pystr) : option spec_float :=
  let '(ip, r1) := span_digits s in
  let '(fp, r2) :=
    match r1 with
    | c :: r => if c =? 46 then span_digits r else ([], r1)
    | [] => ([], r1)
    end in
  match ip ++ fp with
  | [] => None
  | ds =>
      match take_exponent r2 with
      | (e, []) =>
          Some (sf_of_decimal neg (digits_value ds)
                  (e - Z.of_nat (length fp)))
      | _ => None
      end
  end.

(** [_Py_string_to_number_with_underscores]: every underscore must stand
    between two digits; the text without them. *)
Fixpoint drop_underscores (prev : N) (s : pystr) : option pystr :=
  match s with
  | [] => if prev =? 95 then None else Some []
  | c :: s' =>
      if c =? 95 then
        if is_digit prev then drop_underscores c s' else None
      else if (prev =? 95) && negb (is_digit c) then None
      else r ← drop_underscores c s'; Some (c :: r)
  end.

(** [float(s)] on ASCII text.  [None] stands for [ValueError]. *)
Definition float_of_ascii (s : pystr) : option float :=
  s1 ← drop_underscores 0 (strip_c_space s);
  let '(neg, body) := take_sign s1 in
  let low := map to_lower body in
  if bool_decide (low = lit "inf") || bool_decide (low = lit "infinity")
  then Some (if neg then neg_infinity else infinity)
  else if bool_decide (low = lit "nan") then Some nan
  else SF2Prim <$> sf_of_decimal_text neg body.

(** Two finite values with the same sign, mantissa and exponent. *)
Definition sf_same (a b : spec_float) : bool :=
  match a, b with
  | S754_finite s1 m1 e1, S754_finite s2 m2 e2 =>
      Bool.eqb s1 s2 && (m1 =? m2)%positive && (e1 =? e2)%Z
  | _, _ => false
  end.

(** The [n]-digit decimal nearest to [m * 2 ^ e] among those that read back
    as that very float: its digits as a number [c] and the exponent [j] of
    its last digit ([c * 10 ^ j]).  [k10] is the decimal exponent of the
    leading digit of [m * 2 ^ e]. *)
Definition candidate (m : positive) (e : Z) (k10 : Z) (n : Z)
  : option (N * Z) :=
  let j := (k10 + 1 - n)%Z in
  let num := (Zpos m * 2 ^ Z.max e 0 * 10 ^ Z.max (- j) 0)%Z in
  let den := (2 ^ Z.max (- e) 0 * 10 ^ Z.max j 0)%Z in
  let lo := Z.to_N (num / den) in
  let r := (num mod den)%Z in
  let back c := sf_same (sf_of_decimal false c j) (S754_finite false m e) in
  let ok_lo := back lo in
  let ok_hi := negb (r =? 0)%Z && back (lo + 1) in
  if ok_lo && ok_hi then
    if (2 * r <? den)%Z then Some (lo, j)
    else if (den <? 2 * r)%Z then Some (lo + 1, j)
    else if N.even lo then Some (lo, j) else Some (lo + 1, j)
  else if ok_lo then Some (lo, j)
  else if ok_hi then Some (lo + 1, j)
  else None.

(** The first of [n], [n + 1], ... (at most [fuel] of them) with a
    candidate. *)
Fixpoint shortest_from (fuel : nat) (m : positive) (e k10 n : Z)
  : option (N * Z) :=
  match fuel with
  | O => None
  | S fuel' =>
      match candidate m e k10 n with
      | Some c => Some c
      | None => shortest_from fuel' m e k10 (n + 1)
      end
  end.

Fixpoint drop_trailing_zeros (ds : list N) : list N :=
  match ds with
  | [] => []
  | d :: ds' =>
      match drop_trailing_zeros ds' with
      | [] => if d =? 0 then [] else [d]
      | r => d :: r
      end
  end.

(** The shortest digit string that reads back as the positive float
    [m * 2 ^ e], and the position [decpt] of the decimal point in it (the
    value is [0.d1d2... * 10 ^ decpt]): [dtoa] in mode 0.  Seventeen digits
    always suffice for a binary64 value. *)
Definition shortest_digits (m : positive) (e : Z) : list N * Z :=
  let scaled :=
    (Zpos m * 2 ^ Z.max e 0 * 10 ^ 400 / 2 ^ Z.max (- e) 0)%Z in
  let k10 :=
    (Z.of_nat (length (decimal_digits (Z.to_N scaled))) - 401)%Z in
  match shortest_from 17 m e k10 1 with
  | Some (c, j) =>
      let ds := decimal_digits c in
      (drop_trailing_zeros ds, (j + Z.of_nat (length ds))%Z)
  | None => ([], 0%Z)
  end.

(** The exponent of the scientific form: a sign and at least two digits. *)
Definition format_exponent (x : Z) : pystr :=
  let ds := map digit_char (decimal_digits (Z.abs_N x)) in
  [101; if (x <? 0)%Z then 45 else 43]
  ++ (if (length ds <? 2)%nat then 48 :: ds else ds).

(** [repr] of a positive finite float from its shortest digits: scientific
    form when [decpt <= -4] or [decpt > 16], else positional form with at
    least one digit after the point. *)
Definition format_short (ds : list N) (decpt : Z) : pystr :=
  let cs := map digit_char ds in
  if (decpt <=? -4)%Z || (16 <? decpt)%Z then
    match cs with
    | [] => []
    | [c] => c :: format_exponent (decpt - 1)
    | c :: frac => c :: 46 :: frac ++ format_exponent (decpt - 1)
    end
  else if (decpt <=? 0)%Z then
    [48; 46] ++ repeat 48 (Z.to_nat (- decpt)) ++ cs
  else if (Z.of_nat (length cs) <=? decpt)%Z then
    cs ++ repeat 48 (Z.to_nat decpt - length cs)%nat ++ [46; 48]
  else
    take (Z.to_nat decpt) cs ++ 46 :: drop (Z.to_nat decpt) cs.

(** [repr(f)] / [str(f)] / [format(f, "")] for a [float]. *)
Definition float_repr (f : float) : pystr :=
  match Prim2SF f with
  | S754_nan => lit "nan"
  | S754_infinity s => if s then lit "-inf" else lit "inf"
  | S754_zero s => if s then lit "-0.0" else lit "0.0"
  | S754_finite s m e =>
      let '(ds, decpt) := shortest_digits m e in
      (if s then [45] else []) ++ format_short ds decpt
  end.

(** ** Python dictionaries *)

(** A [dict] with [str] keys keeps its items in insertion order. *)
Abbreviation dict V := (list (pystr * V)).

(** [d.get(k)]: the value at [k], [None] when [k] is not a key. *)
Fixpoint dict_get {V} (k : pystr) (d : dict V) : option V :=
  match d with
  | [] => None
  | (k', v) :: d' => if decide (k = k') then Some v else dict_get k d'
  end.

(** [k in d] *)
Definition dict_mem {V} (k : pystr) (d : dict V) : bool :=
  match dict_get k d with Some _ => true | None => false end.

(** [d[k] = v]: replaces the value in place when [k] is a key, and adds
    the item at the end otherwise. *)
Fixpoint dict_set {V} (k : pystr) (v : V) (d : dict V) : dict V :=
  match d with
  | [] => [(k, v)]
  | (k', v') :: d' =>
      if decide (k = k') then (k', v) :: d' else (k', v') :: dict_set k v d'
  end.

(** [del d[k]]; [None] stands for [KeyError]. *)
Fixpoint dict_del {V} (k : pystr) (d : dict V) : option (dict V) :=
  match d with
  | [] => None
  | (k', v') :: d' =>
      if decide (k = k') then Some d'
      else d'' ← dict_del k d'; Some ((k', v') :: d'')
  end.

(** [dict(pairs)]: the pairs set one after the other. *)
Definition dict_of_pairs {V} (pairs : list (pystr * V)) : dict V :=
  fold_left (fun d kv => dict_set kv.1 kv.2 d) pairs [].

Definition keys {V} (d : dict V) : list pystr := map fst d.

(** ** JSON text: [json.dump] and [json.load] *)

(** The Python values [json.load] returns. *)
Inductive json : Type :=
| JNull
| JBool (b : bool)
| JInt (z : Z)
| JFloat (f : float)
| JStr (s : pystr)
| JList (l : list json)
| JDict (d : list (pystr * json)).

Definition hex_char (d : N) : N := if d <? 10 then 48 + d else 87 + d.

(** [\uXXXX] with four lower-case hexadecimal digits. *)
Definition escape_u (c : N) : pystr :=
  [92; 117; hex_char (c / 4096 mod 16); hex_char (c / 256 mod 16);
   hex_char (c / 16 mod 16); hex_char (c mod 16)].

(** One character inside a JSON string, [ensure_ascii] being on: printable
    ASCII stands for itself except the quote and the backslash; the usual
    short escapes; every other character as [\uXXXX], characters beyond
    the basic plane as a surrogate pair. *)
Definition encode_char (c : N) : pystr :=
  if c =? 34 then [92; 34]
  else if c =? 92 then [92; 92]
  else if c =? 10 then [92; 110]
  else if c =? 13 then [92; 114]
  else if c =? 9 then [92; 116]
  else if c =? 8 then [92; 98]
  else if c =? 12 then [92; 102]
  else if (32 <=? c) && (c <=? 126) then [c]
  else if c <? 0x10000 then escape_u c
  else
    let v := c - 0x10000 in
    escape_u (N.lor 0xD800 (N.land (N.shiftr v 10) 0x3FF))
    ++ escape_u (N.lor 0xDC00 (N.land v 0x3FF)).

(** [encode_basestring_ascii] *)
Definition encode_string (s : pystr) : pystr :=
  [34] ++ concat (map encode_char s) ++ [34].

(** [floatstr]: [float.__repr__], and the names JSON lacks for the
    values that are not finite. *)
Definition encode_float (f : float) : pystr :=
  match Prim2SF f with
  | S754_nan => lit "NaN"
  | S754_infinity false => lit "Infinity"
  | S754_infinity true => lit "-Infinity"
  | _ => float_repr f
  end.

(** A line break and the indentation of nesting depth [level]. *)
Definition newline_indent (indent level : nat) : pystr :=
  10 :: repeat 32 (indent * level).

(** [json.dumps(j, indent=indent)] at nesting depth [level]. *)
Fixpoint encode (indent level : nat) (j : json) {struct j} : pystr :=
  match j with
  | JNull => lit "null"
  | JBool true => lit "true"
  | JBool false => lit "false"
  | JInt z => str_of_int z
  | JFloat f => encode_float f
  | JStr s => encode_string s
  | JList [] => lit "[]"
  | JList (x :: xs) =>
      [91] ++ newline_indent indent (S level) ++ encode indent (S level) x
      ++ (fix items (l : list json) : pystr :=
            match l with
            | [] => []
            | y :: l' =>
                [44] ++ newline_indent indent (S level)
                ++ encode indent (S level) y ++ items l'
            end) xs
      ++ newline_indent indent level ++ [93]
  | JDict [] => lit "{}"
  | JDict ((k, x) :: xs) =>
      [123] ++ newline_indent indent (S level)
      ++ encode_string k ++ [58; 32] ++ encode indent (S level) x
      ++ (fix items (l : list (pystr * json)) : pystr :=
            match l with
            | [] => []
            | (k', y) :: l' =>
                [44] ++ newline_indent indent (S level)
                ++ encode_string k' ++ [58; 32]
                ++ encode indent (S level) y ++ items l'
            end) xs
      ++ newline_indent indent level ++ [125]
  end.

Definition json_dumps (indent : nat) (j : json) : pystr := encode indent 0 j.

(** The blanks JSON allows between tokens. *)
Definition is_json_ws (c : N) : bool :=
  (c =? 32) || (c =? 9) || (c =? 10) || (c =? 13).

Fixpoint skip_ws (s : pystr) : pystr :=
  match s with
  | c :: s' => if is_json_ws c then skip_ws s' else s
  | [] => []
  end.

Definition hex_value (c : N) : option N :=
  if is_digit c then Some (c - 48)
  else if (97 <=? c) && (c <=? 102) then Some (c - 87)
  else if (65 <=? c) && (c <=? 70) then Some (c - 55)
  else None.

Definition hex4 (a b c d : N) : option N :=
  a' ← hex_value a; b' ← hex_value b; c' ← hex_value c; d' ← hex_value d;
  Some (((a' * 16 + b') * 16 + c') * 16 + d').

Definition simple_escape (c : N) : option N :=
  if c =? 34 then Some 34
  else if c =? 92 then Some 92
  else if c =? 47 then Some 47
  else if c =? 98 then Some 8
  else if c =? 102 then Some 12
  else if c =? 110 then Some 10
  else if c =? 114 then Some 13
  else if c =? 116 then Some 9
  else None.

Definition is_high_surrogate (c : N) : bool := (0xD800 <=? c) && (c <=? 0xDBFF).
Definition is_low_surrogate (c : N) : bool := (0xDC00 <=? c) && (c <=? 0xDFFF).

Definition join_surrogates (hi lo : N) : N :=
  0x10000 + N.lor (N.shiftl (hi - 0xD800) 10) (lo - 0xDC00).

(** [scanstring] in strict mode, after the opening quote: the string and
    what follows its closing quote.  A high surrogate escape directly
    followed by a low surrogate escape is read as one character. *)
Fixpoint scan_string (s : pystr) : option (pystr * pystr) :=
  match s with
  | [] => None
  | c :: s1 =>
      if c =? 34 then Some ([], s1)
      else if c <=? 31 then None
      else if c =? 92 then
        match s1 with
        | [] => None
        | esc :: s2 =>
            if esc =? 117 then
              match s2 with
              | h1 :: h2 :: h3 :: h4 :: s3 =>
                  u ← hex4 h1 h2 h3 h4;
                  match s3 with
                  | b :: u' :: g1 :: g2 :: g3 :: g4 :: (_ :: _) as s4 =>
                      if is_high_surrogate u && (b =? 92) && (u' =? 117)
                      then
                        u2 ← hex4 g1 g2 g3 g4;
                        if is_low_surrogate u2 then
                          '(r, rest) ← scan_string s4;
                          Some (join_surrogates u u2 :: r, rest)
                        else
                          '(r, rest) ← scan_string s3; Some (u :: r, rest)
                      else
                        '(r, rest) ← scan_string s3; Some (u :: r, rest)
                  | _ => '(r, rest) ← scan_string s3; Some (u :: r, rest)
                  end
              | _ => None
              end
            else
              ch ← simple_escape esc;
              '(r, rest) ← scan_string s2; Some (ch :: r, rest)
        end
      else '(r, rest) ← scan_string s1; Some (c :: r, rest)
  end.

(** The leading characters of [s] that satisfy [p], and the rest. *)
Fixpoint span (p : N -> bool) (s : pystr) : pystr * pystr :=
  match s with
  | c :: s' =>
      if p c then let '(a, r) := span p s' in (c :: a, r) else ([], s)
  | [] => ([], [])
  end.

(** The longest number at the head of [s]: an optional minus sign, [0] or
    a digit string that does not start with [0], an optional fraction (a
    point and at least one digit), an optional exponent ([e] or [E], an
    optional sign, at least one digit).  The result says whether the number
    has a fraction or an exponent and gives its text and what follows. *)
Definition match_number (s : pystr) : option (bool * pystr * pystr) :=
  let '(sign, s1) :=
    match s with
    | c :: r => if c =? 45 then ([45], r) else ([], s)
    | [] => ([], s)
    end in
  match s1 with
  | [] => None
  | c :: r1 =>
      if is_digit c then
        let '(int_part, r2) :=
          if c =? 48 then ([c], r1)
          else let '(ds, r) := span is_digit r1 in (c :: ds, r) in
        let '(frac, r3) :=
          match r2 with
          | p :: d :: r =>
              if (p =? 46) && is_digit d then
                let '(ds, r') := span is_digit r in (p :: d :: ds, r')
              else ([], r2)
          | _ => ([], r2)
          end in
        let '(exp, r4) :=
          match r3 with
          | e :: r =>
              if (e =? 101) || (e =? 69) then
                let '(sg, r') :=
                  match r with
                  | g :: r'' =>
                      if (g =? 45) || (g =? 43) then ([g], r'') else ([], r)
                  | [] => ([], r)
                  end in
                match span is_digit r' with
                | ([], _) => ([], r3)
                | (ds, r'') => (e :: sg ++ ds, r'')
                end
              else ([], r3)
          | [] => ([], r3)
          end in
        Some (negb (bool_decide (frac = []) && bool_decide (exp = [])),
              sign ++ int_part ++ frac ++ exp, r4)
      else None
  end.

(** [s.startswith(p)] with the rest of [s] after [p]. *)
Fixpoint strip_prefix (p s : pystr) : option pystr :=
  match p, s with
  | [], _ => Some s
  | a :: p', b :: s' => if a =? b then strip_prefix p' s' else None
  | _ :: _, [] => None
  end.

(** The scanner: one JSON value at the head of [s] and what follows it.
    [fuel] bounds the nesting of calls; [None] stands for
    [json.JSONDecodeError]. *)
Fixpoint scan_once (fuel : nat) (s : pystr) {struct fuel}
  : option (json * pystr) :=
  match fuel with
  | O => None
  | S fuel' =>
      let scan_items :=
        fix items (n : nat) (s : pystr) {struct n}
          : option (list json * pystr) :=
          match n with
          | O => None
          | S n' =>
              '(x, r) ← scan_once fuel' s;
              match skip_ws r with
              | c :: r' =>
                  if c =? 93 then Some ([x], r')
                  else if c =? 44 then
                    '(xs, r'') ← items n' (skip_ws r'); Some (x :: xs, r'')
                  else None
              | [] => None
              end
          end in
      let scan_pairs :=
        fix pairs (n : nat) (s : pystr) {struct n}
          : option (list (pystr * json) * pystr) :=
          match n with
          | O => None
          | S n' =>
              '(k, r) ← scan_string s;
              match skip_ws r with
              | c :: r1 =>
                  if c =? 58 then
                    '(x, r2) ← scan_once fuel' (skip_ws r1);
                    match skip_ws r2 with
                    | c' :: r3 =>
                        if c' =? 125 then Some ([(k, x)], r3)
                        else if c' =? 44 then
                          match skip_ws r3 with
                          | q :: r4 =>
                              if q =? 34 then
                                '(kxs, r5) ← pairs n' r4;
                                Some ((k, x) :: kxs, r5)
                              else None
                          | [] => None
                          end
                        else None
                    | [] => None
                    end
                  else None
              | [] => None
              end
          end in
      match s with
      | [] => None
      | c :: r =>
          if c =? 34 then '(str, r') ← scan_string r; Some (JStr str, r')
          else if c =? 123 then
            match skip_ws r with
            | c' :: r' =>
                if c' =? 125 then Some (JDict [], r')
                else if c' =? 34 then
                  '(kxs, r'') ← scan_pairs (length s) r';
                  Some (JDict (dict_of_pairs kxs), r'')
                else None
            | [] => None
            end
          else if c =? 91 then
            match skip_ws r with
            | c' :: r' =>
                if c' =? 93 then Some (JList [], r')
                else
                  '(xs, r'') ← scan_items (length s) (skip_ws r);
                  Some (JList xs, r'')
            | [] => None
            end
          else
            match strip_prefix (lit "null") s with
            | Some r' => Some (JNull, r')
            | None =>
            match strip_prefix (lit "true") s with
            | Some r' => Some (JBool true, r')
            | None =>
            match strip_prefix (lit "false") s with
            | Some r' => Some (JBool false, r')
            | None =>
            match strip_prefix (lit "-Infinity") s with
            | Some r' => Some (JFloat neg_infinity, r')
            | None =>
            match match_number s with
            | Some (true, text, r') =>
                f ← float_of_ascii text; Some (JFloat f, r')
            | Some (false, text, r') =>
                z ← int_of_ascii text; Some (JInt z, r')
            | None =>
            match strip_prefix (lit "NaN") s with
            | Some r' => Some (JFloat nan, r')
            | None =>
            match strip_prefix (lit "Infinity") s with
            | Some r' => Some (JFloat infinity, r')
            | None => None
            end end end end end end end
      end
  end.

(** [json.loads(s)]: a byte order mark is refused, blanks are allowed
    around the one value, nothing else may follow it. *)
Definition json_loads (s : pystr) : option json :=
  if match s with c :: _ => c =? 0xFEFF | [] => false end then None
  else
    '(j, r) ← scan_once (S (length s)) (skip_ws s);
    match skip_ws r with
    | [] => Some j
    | _ => None
    end.

(** ** The world the program runs in *)

(** The effects of a run, in the order they happen. *)
Inductive event : Type :=
| EvPrint (text : pystr)                    (* [print(text)] *)
| EvInput (prompt : pystr)                  (* [input(prompt)] *)
| EvWrite (path : string) (content : pystr) (* a file opened with ["w"] *)
| EvAppend (path : string) (text : pystr).  (* a file opened with ["a"] *)

Record world : Type := mkWorld {
  stdin : list pystr;          (* the lines still to be read *)
  files : gmap string pystr;   (* the text files of the working directory *)
  clock : nat -> pystr;        (* [str(datetime.now())] at each reading *)
  ticks : nat;                 (* how often the clock has been read *)
  trace : list event           (* the effects so far *)
}.

Definition emit (e : event) (w : world) : world :=
  mkWorld (stdin w) (files w) (clock w) (ticks w) (trace w ++ [e]).

Definition set_stdin (ls : list pystr) (w : world) : world :=
  mkWorld ls (files w) (clock w) (ticks w) (trace w).

Definition set_file (path : string) (text : pystr) (w : world) : world :=
  mkWorld (stdin w) (<[path := text]> (files w)) (clock w) (ticks w)
    (trace w).

Definition tick (w : world) : world :=
  mkWorld (stdin w) (files w) (clock w) (S (ticks w)) (trace w).

(** The exceptions the program can meet.  [json.JSONDecodeError] is a
    [ValueError].  [NotACatalog] marks a file whose JSON value is not a
    catalog as this typed model has them (Python would load such a value
    and fail later, on its first use). *)
Inductive exn : Type :=
| EOFError | ValueError | OverflowError | KeyError | NotACatalog.

Inductive result (A : Type) : Type :=
| Ok (a : A)
| Raise (e : exn).
Arguments Ok {A} a.
Arguments Raise {A} e.

(** Computations over a state [Σ] that return or raise. *)
Definition M (Σ A : Type) : Type := Σ -> result A * Σ.

Definition ret {Σ A} (a : A) : M Σ A := fun s => (Ok a, s).

Definition bind {Σ A B} (c : M Σ A) (k : A -> M Σ B) : M Σ B :=
  fun s =>
    match c s with
    | (Ok a, s') => k a s'
    | (Raise e, s') => (Raise e, s')
    end.

Definition raise {Σ A} (e : exn) : M Σ A := fun s => (Raise e, s).

(** [try: body except caught: handler] *)
Definition try_except {Σ A} (body : M Σ A) (caught : exn -> bool)
    (handler : M Σ A) : M Σ A :=
  fun s =>
    match body s with
    | (Raise e, s') => if caught e then handler s' else (Raise e, s')
    | r => r
    end.

Definition get {Σ} : M Σ Σ := fun s => (Ok s, s).
Definition modify {Σ} (f : Σ -> Σ) : M Σ unit := fun s => (Ok tt, f s).

(** A value that may be missing, with the exception raised when it is. *)
Definition or_raise {Σ A} (e : exn) (o : option A) : M Σ A :=
  match o with Some a => ret a | None => raise e end.

#[global] Instance M_ret {Σ} : MRet (M Σ) := @ret Σ.
#[global] Instance M_bind {Σ} : MBind (M Σ) := fun A B k c => bind c k.

Definition is_ValueError (e : exn) : bool :=
  match e with ValueError => true | _ => false end.

(** [print(text)] *)
Definition print (text : pystr) : M world unit := modify (emit (EvPrint text)).

(** [input(prompt)]: the next line of the standard input, [EOFError] when
    there is none. *)
Definition input (prompt : pystr) : M world pystr :=
  fun w =>
    let w' := emit (EvInput prompt) w in
    match stdin w with
    | [] => (Raise EOFError, w')
    | l :: ls => (Ok l, set_stdin ls w')
    end.

(** ** The catalog *)

(** The value stored for a product:
    [{"name": name, "quantity": quantity, "price": price}]. *)
Record product : Type := mkProduct {
  name : pystr;
  quantity : Z;
  price : float
}.

Definition set_quantity (q : Z) (p : product) : product :=
  mkProduct (name p) q (price p).

Definition json_of_product (p : product) : json :=
  JDict [(lit "name", JStr (name p)); (lit "quantity", JInt (quantity p));
         (lit "price", JFloat (price p))].

Definition json_of_inventory (inv : dict product) : json :=
  JDict (map (fun kp => (kp.1, json_of_product kp.2)) inv).

Definition product_of_json (j : json) : option product :=
  match j with
  | JDict [(k1, JStr n); (k2, JInt q); (k3, JFloat p)] =>
      if bool_decide (k1 = lit "name") && bool_decide (k2 = lit "quantity")
         && bool_decide (k3 = lit "price")
      then Some (mkProduct n q p) else None
  | _ => None
  end.

Definition inventory_of_json (j : json) : option (dict product) :=
  match j with
  | JDict d => mapM (fun kj => p ← product_of_json kj.2; Some (kj.1, p)) d
  | _ => None
  end.

(** ** File handling functions *)

(** [load_inventory()] *)
Definition load_inventory : M world (dict product) :=
  w ← get;
  match files w !! "inventory.json" with
  | Some text =>
      j ← or_raise ValueError (json_loads text);
      or_raise NotACatalog (inventory_of_json j)
  | None => ret []
  end.

(** [save_inventory(inventory)] *)
Definition save_inventory (inventory : dict product) : M world unit :=
  let text := json_dumps 4 (json_of_inventory inventory) in
  modify (fun w => emit (EvWrite "inventory.json" text)
                     (set_file "inventory.json" text w)).

(** [log_staff_action(action)] *)
Definition log_staff_action (action : pystr) : M world unit :=
  modify (fun w =>
    let line := clock w (ticks w) ++ lit " - " ++ action ++ [10] in
    let old := default [] (files w !! "staff_log.txt") in
    emit (EvAppend "staff_log.txt" line)
      (set_file "staff_log.txt" (old ++ line) (tick w))).

(** ** Users *)

(** The fields of an [Admin] or [Staff] object. *)
Record user : Type := mkUser {
  _username : pystr;
  _password : pystr;
  role : pystr;
  inventory : dict product
}.

Definition set_inventory (inv : dict product) (u : user) : user :=
  mkUser (_username u) (_password u) (role u) inv.

(** A method runs on its object and the world. *)
Abbreviation method := (M (user * world)).

(** A module-level function called from a method. *)
Definition call {A} (c : M world A) : method A :=
  fun s =>
    match c s.2 with
    | (r, w') => (r, (s.1, w'))
    end.

(** [self.inventory] *)
Definition self_inventory : method (dict product) :=
  fun s => (Ok (inventory s.1), s).

(** [self.inventory = inv] and the in-place changes of that dictionary *)
Definition store_inventory (inv : dict product) : method unit :=
  modify (fun s => (set_inventory inv s.1, s.2)).

(** [User.authenticate] *)
Definition authenticate (self : user) (username password : pystr) : bool :=
  bool_decide (_username self = username)
  && bool_decide (_password self = password).

(** The signs that open the messages. *)
Definition warning_sign : pystr := [0x26A0].
Definition check_mark : pystr := [0x2705].
Definition cross_mark : pystr := [0x274C].
Definition wastebasket : pystr := [0x1F5D1].
Definition money_bag : pystr := [0x1F4B0].

Section Builtins.

(** [Py_UNICODE_TODECIMAL] on the characters beyond ASCII: the digit a
    decimal-digit character of another script stands for.  The table is
    part of the Python runtime. *)
Variable unicode_decimal : N -> option N.

(** [_PyUnicode_TransformDecimalAndSpaceToASCII]: ASCII is kept, other
    blanks become spaces, other decimal digits become ASCII digits, and the
    text ends with [?] at any other character. *)
Fixpoint to_ascii_number (s : pystr) : pystr :=
  match s with
  | [] => []
  | c :: s' =>
      if c <? 127 then c :: to_ascii_number s'
      else if isspace c then 32 :: to_ascii_number s'
      else
        match unicode_decimal c with
        | Some d =>
            if d <? 10 then digit_char d :: to_ascii_number s' else [63]
        | None => [63]
        end
  end.

(** [int(s)] for a [str]; [None] stands for [ValueError]. *)
Definition py_int (s : pystr) : option Z := int_of_ascii (to_ascii_number s).

(** [float(s)] for a [str]; [None] stands for [ValueError]. *)
Definition py_float (s : pystr) : option float :=
  float_of_ascii (to_ascii_number s).

End Builtins.

(** ** class Admin *)

Module Admin.
Section Methods.

Variable unicode_decimal : N -> option N.

(** [Admin(username, password)] *)
Definition init (username password : pystr) : M world user :=
  inv ← load_inventory;
  mret (mkUser username password (lit "admin") inv).

(** [Admin.add_product] *)
Definition add_product : method unit :=
  try_except
    (raw ← call (input (lit "Enter Product ID: "));
     let pid := strip raw in
     if bool_decide (pid = []) then
       call (print (warning_sign ++ lit " Product ID cannot be empty!"))
     else
       inv ← self_inventory;
       if dict_mem pid inv then
         call (print (warning_sign ++ lit " Product ID already exists!"))
       else
         raw_name ← call (input (lit "Enter Product Name: "));
         let name := strip raw_name in
         raw_quantity ← call (input (lit "Enter Quantity: "));
         quantity ← or_raise ValueError (py_int unicode_decimal raw_quantity);
         raw_price ← call (input (lit "Enter Price: "));
         price ← or_raise ValueError (py_float unicode_decimal raw_price);
         if (quantity <? 0)%Z || (price <? 0)%float then
           call (print (warning_sign
                        ++ lit " Quantity and Price cannot be negative!"))
         else
           store_inventory (dict_set pid (mkProduct name quantity price) inv);;
           inv' ← self_inventory;
           call (save_inventory inv');;
           call (print (check_mark ++ lit " Product Added Successfully!")))
    is_ValueError
    (call (print (warning_sign
                  ++ lit " Quantity must be integer and price must be number!"))).

(** [Admin.delete_product] *)
Definition delete_product : method unit :=
  raw ← call (input (lit "Enter Product ID to delete: "));
  let pid := strip raw in
  inv ← self_inventory;
  if negb (dict_mem pid inv) then
    call (print (cross_mark ++ lit " Product ID not found!"))
  else
    inv' ← or_raise KeyError (dict_del pid inv);
    store_inventory inv';;
    inv'' ← self_inventory;
    call (save_inventory inv'');;
    call (print (wastebasket ++ lit " Product Deleted Successfully!")).

(** The text printed for one product. *)
Definition product_text (pid : pystr) (details : product) (value : float)
  : pystr :=
  [10] ++ lit "Product ID: " ++ pid ++ [10]
  ++ lit "Name: " ++ name details ++ [10]
  ++ lit "Quantity: " ++ str_of_int (quantity details) ++ [10]
  ++ lit "Price: " ++ float_repr (price details) ++ [10]
  ++ lit "Total Value: " ++ float_repr value ++ [10]
  ++ lit "-------------------------".

(** [quantity * price]: the [int] is converted to a [float] first. *)
Definition int_times_float (q : Z) (p : float) : option float :=
  f ← float_of_int q; Some (f * p)%float.

(** The running total: the [int] 0 before the loop, a [float] after the
    first product. *)
Inductive total : Type :=
| IntTotal (z : Z)
| FloatTotal (f : float).

(** [total_value + value] *)
Definition total_plus (t : total) (value : float) : option float :=
  match t with
  | IntTotal z => f ← float_of_int z; Some (f + value)%float
  | FloatTotal f => Some (f + value)%float
  end.

Definition str_of_total (t : total) : pystr :=
  match t with
  | IntTotal z => str_of_int z
  | FloatTotal f => float_repr f
  end.

(** The body of [for pid, details in self.inventory.items()], run over the
    items in order with the running [total_value]. *)
Fixpoint view_items (items : list (pystr * product)) (total_value : total)
  : M world total :=
  match items with
  | [] => mret total_value
  | (pid, details) :: rest =>
      value ← or_raise OverflowError
                (int_times_float (quantity details) (price details));
      total_value' ← or_raise OverflowError (total_plus total_value value);
      print (product_text pid details value);;
      (if (quantity details <? 5)%Z
       then print (warning_sign ++ lit " Low Stock Alert!")
       else mret tt);;
      view_items rest (FloatTotal total_value')
  end.

(** [Admin.view_products] *)
Definition view_products : method unit :=
  inv ← self_inventory;
  match inv with
  | [] => call (print (lit "Inventory is empty!"))
  | _ =>
      call (print ([10] ++ lit "--- Product List ---"));;
      total_value ← call (view_items inv (IntTotal 0));
      call (print ([10] ++ money_bag ++ lit " Total Inventory Value: "
                   ++ str_of_total total_value))
  end.

(** [Admin.update_stock] *)
Definition update_stock : method unit :=
  try_except
    (raw ← call (input (lit "Enter Product ID to update: "));
     let pid := strip raw in
     inv ← self_inventory;
     if negb (dict_mem pid inv) then
       call (print (cross_mark ++ lit " Product ID not found!"))
     else
       raw_quantity ← call (input (lit "Enter new quantity: "));
       quantity ← or_raise ValueError (py_int unicode_decimal raw_quantity);
       if (quantity <? 0)%Z then
         call (print (warning_sign ++ lit " Quantity cannot be negative!"))
       else
         details ← or_raise KeyError (dict_get pid inv);
         store_inventory (dict_set pid (set_quantity quantity details) inv);;
         inv' ← self_inventory;
         call (save_inventory inv');;
         call (print (check_mark ++ lit " Stock Updated!")))
    is_ValueError
    (call (print (warning_sign ++ lit " Quantity must be a valid number!"))).

(** [Admin.view_staff_logs] *)
Definition view_staff_logs : method unit :=
  s ← get;
  match files s.2 !! "staff_log.txt" with
  | Some text =>
      call (print ([10] ++ lit "--- Staff Activity Log ---"));;
      call (print text)
  | None => call (print (lit "No staff activity found."))
  end.

End Methods.
End Admin.

(** ** class Staff *)

Module Staff.
Section Methods.

Variable unicode_decimal : N -> option N.

(** [Staff(username, password)] *)
Definition init (username password : pystr) : M world user :=
  inv ← load_inventory;
  mret (mkUser username password (lit "staff") inv).

(** The line printed for one product. *)
Definition product_line (pid : pystr) (details : product) : pystr :=
  pid ++ lit " | " ++ name details ++ lit " | Qty: "
  ++ str_of_int (quantity details) ++ lit " | Price: "
  ++ float_repr (price details).

Fixpoint view_items (items : list (pystr * product)) : M world unit :=
  match items with
  | [] => mret tt
  | (pid, details) :: rest =>
      print (product_line pid details);; view_items rest
  end.

(** [Staff.view_products] *)
Definition view_products : method unit :=
  inv ← self_inventory;
  match inv with
  | [] => call (print (lit "Inventory is empty!"))
  | _ =>
      call (print ([10] ++ lit "--- Product List ---"));;
      call (view_items inv)
  end.

(** The text logged for a stock update. *)
Definition update_action (pid : pystr) (quantity : Z) : pystr :=
  lit "Staff updated stock of Product ID " ++ pid ++ lit " to "
  ++ str_of_int quantity.

(** [Staff.update_stock] *)
Definition update_stock : method unit :=
  try_except
    (raw ← call (input (lit "Enter Product ID to update: "));
     let pid := strip raw in
     inv ← self_inventory;
     if negb (dict_mem pid inv) then
       call (print (cross_mark ++ lit " Product ID not found!"))
     else
       raw_quantity ← call (input (lit "Enter new quantity: "));
       quantity ← or_raise ValueError (py_int unicode_decimal raw_quantity);
       if (quantity <? 0)%Z then
         call (print (warning_sign ++ lit " Quantity cannot be negative!"))
       else
         details ← or_raise KeyError (dict_get pid inv);
         store_inventory (dict_set pid (set_quantity quantity details) inv);;
         inv' ← self_inventory;
         call (save_inventory inv');;
         let action := update_action pid quantity in
         call (log_staff_action action);;
         call (print (check_mark ++ lit " Stock Updated!")))
    is_ValueError
    (call (print (warning_sign ++ lit " Quantity must be a valid number!"))).

End Methods.
End Staff.

(** ** The main function *)

Section Main.

Variable unicode_decimal : N -> option N.

Definition admin_menu : pystr :=
  [10] ++ lit "1. Add Product" ++ [10] ++ lit "2. View Products" ++ [10]
  ++ lit "3. Update Stock" ++ [10] ++ lit "4. Delete Product" ++ [10]
  ++ lit "5. View Staff Logs" ++ [10] ++ lit "6. Exit" ++ [10].

Definition staff_menu : pystr :=
  [10] ++ lit "1. View Products" ++ [10] ++ lit "2. Update Stock" ++ [10]
  ++ lit "3. Exit" ++ [10].

(** The administrator's [while True] loop.  Every round reads a line, so
    the loop ends, by [break] or by [EOFError], within as many rounds as
    there are lines plus one; the result tells whether it ended within
    [rounds] rounds. *)
Fixpoint admin_loop (rounds : nat) : method bool :=
  match rounds with
  | O => mret false
  | S rounds' =>
      call (print admin_menu);;
      choice ← call (input (lit "Enter choice: "));
      if bool_decide (choice = lit "1") then
        Admin.add_product unicode_decimal;; admin_loop rounds'
      else if bool_decide (choice = lit "2") then
        Admin.view_products;; admin_loop rounds'
      else if bool_decide (choice = lit "3") then
        Admin.update_stock unicode_decimal;; admin_loop rounds'
      else if bool_decide (choice = lit "4") then
        Admin.delete_product;; admin_loop rounds'
      else if bool_decide (choice = lit "5") then
        Admin.view_staff_logs;; admin_loop rounds'
      else if bool_decide (choice = lit "6") then mret true
      else call (print (lit "Invalid choice!"));; admin_loop rounds'
  end.

(** The staff member's [while True] loop. *)
Fixpoint staff_loop (rounds : nat) : method bool :=
  match rounds with
  | O => mret false
  | S rounds' =>
      call (print staff_menu);;
      choice ← call (input (lit "Enter choice: "));
      if bool_decide (choice = lit "1") then
        Staff.view_products;; staff_loop rounds'
      else if bool_decide (choice = lit "2") then
        Staff.update_stock unicode_decimal;; staff_loop rounds'
      else if bool_decide (choice = lit "3") then mret true
      else call (print (lit "Invalid choice!"));; staff_loop rounds'
  end.

(** A method run on the object [self]; the object is dropped afterwards. *)
Definition on {A} (self : user) (m : method A) : M world A :=
  fun w =>
    match m (self, w) with
    | (r, s') => (r, s'.2)
    end.

(** [main()] *)
Definition main (rounds : nat) : M world bool :=
  admin ← Admin.init (lit "admin") (lit "1234");
  staff ← Staff.init (lit "staff") (lit "1111");
  print (lit "Who are you?");;
  print (lit "1. Admin");;
  print (lit "2. Staff");;
  role_choice ← input (lit "Enter choice: ");
  username ← input (lit "Enter username: ");
  password ← input (lit "Enter password: ");
  if bool_decide (role_choice = lit "1")
     && authenticate admin username password
  then on admin (admin_loop rounds)
  else if bool_decide (role_choice = lit "2")
          && authenticate staff username password
  then on staff (staff_loop rounds)
  else print (lit "Authentication Failed!");; mret true.

End Main.

(** ** Reading a run *)

(** The effects between the world [w] and a later world [w']. *)
Definition since (w w' : world) : list event :=
  drop (length (trace w)) (trace w').

(** An effect that writes to the file [path]. *)
Definition writes_to (path : string) (e : event) : bool :=
  match e with
  | EvWrite p _ | EvAppend p _ => bool_decide (p = path)
  | _ => false
  end.

(** An effect that writes to a file. *)
Definition is_file_write (e : event) : bool :=
  match e with
  | EvWrite _ _ | EvAppend _ _ => true
  | _ => false
  end.

(** The texts printed by a list of effects. *)
Definition printed (evs : list event) : list pystr :=
  omap (fun e => match e with EvPrint t => Some t | _ => None end) evs.

(** The world [w] after the effects [evs]. *)
Definition emits (evs : list event) (w : world) : world :=
  mkWorld (stdin w) (files w) (clock w) (ticks w) (trace w ++ evs).

(** The line [log_staff_action] appends in the world [w]. *)
Definition log_line (w : world) (action : pystr) : pystr :=
  clock w (ticks w) ++ lit " - " ++ action ++ [10].

(** The audit log of the world [w]; a missing file counts as empty. *)
Definition staff_log (w : world) : pystr :=
  default [] (files w !! "staff_log.txt").

Definition is_append (e : event) : bool :=
  match e with EvAppend _ _ => true | _ => false end.

(** The appends to a file among the effects [evs]. *)
Definition appended (evs : list event) : list event :=
  List.filter is_append evs.

(** The ways [add_product] can fail, by the lines it is given: the
    product ID, the name, the quantity and the price. *)
Inductive add_product_fails (unicode_decimal : N -> option N)
    (inv : dict product) : list pystr -> Prop :=
| fails_empty_id raw rest :
    strip raw = [] ->
    add_product_fails unicode_decimal inv (raw :: rest)
| fails_duplicate_id raw rest :
    is_Some (dict_get (strip raw) inv) ->
    add_product_fails unicode_decimal inv (raw :: rest)
| fails_quantity_unparsable raw raw_name raw_quantity rest :
    py_int unicode_decimal raw_quantity = None ->
    add_product_fails unicode_decimal inv
      (raw :: raw_name :: raw_quantity :: rest)
| fails_price_unparsable raw raw_name raw_quantity raw_price rest :
    py_float unicode_decimal raw_price = None ->
    add_product_fails unicode_decimal inv
      (raw :: raw_name :: raw_quantity :: raw_price :: rest)
| fails_negative raw raw_name raw_quantity raw_price rest q p :
    py_int unicode_decimal raw_quantity = Some q ->
    py_float unicode_decimal raw_price = Some p ->
    (q < 0)%Z \/ (p <? 0)%float = true ->
    add_product_fails unicode_decimal inv
      (raw :: raw_name :: raw_quantity :: raw_price :: rest).


(** The text [save_inventory] writes for a catalog. *)
Definition saved_text (inv : dict product) : pystr :=
  json_dumps 4 (json_of_inventory inv).


(** ** The runs of the methods, path by path

    Each relation lists the paths through a method: the condition on the
    input under which the path is taken, the result, the object and the
    world at its end. *)

Section Runs.

Variable unicode_decimal : N -> option N.

Inductive add_product_run (self : user) (w : world)
  : result unit -> user -> world -> Prop :=
| add_no_id :
    stdin w = [] ->
    add_product_run self w (Raise EOFError) self
      (emits [EvInput (lit "Enter Product ID: ")] w)
| add_empty_id raw rest :
    stdin w = raw :: rest ->
    strip raw = [] ->
    add_product_run self w (Ok tt) self
      (emits [EvInput (lit "Enter Product ID: ");
              EvPrint (warning_sign ++ lit " Product ID cannot be empty!")]
         (set_stdin rest w))
| add_duplicate_id raw rest :
    stdin w = raw :: rest ->
    strip raw <> [] ->
    is_Some (dict_get (strip raw) (inventory self)) ->
    add_product_run self w (Ok tt) self
      (emits [EvInput (lit "Enter Product ID: ");
              EvPrint (warning_sign ++ lit " Product ID already exists!")]
         (set_stdin rest w))
| add_no_name raw :
    stdin w = [raw] ->
    strip raw <> [] ->
    dict_get (strip raw) (inventory self) = None ->
    add_product_run self w (Raise EOFError) self
      (emits [EvInput (lit "Enter Product ID: ");
              EvInput (lit "Enter Product Name: ")]
         (set_stdin [] w))
| add_no_quantity raw raw_name :
    stdin w = [raw; raw_name] ->
    strip raw <> [] ->
    dict_get (strip raw) (inventory self) = None ->
    add_product_run self w (Raise EOFError) self
      (emits [EvInput (lit "Enter Product ID: ");
              EvInput (lit "Enter Product Name: ");
              EvInput (lit "Enter Quantity: ")]
         (set_stdin [] w))
| add_bad_quantity raw raw_name raw_quantity rest :
    stdin w = raw :: raw_name :: raw_quantity :: rest ->
    strip raw <> [] ->
    dict_get (strip raw) (inventory self) = None ->
    py_int unicode_decimal raw_quantity = None ->
    add_product_run self w (Ok tt) self
      (emits [EvInput (lit "Enter Product ID: ");
              EvInput (lit "Enter Product Name: ");
              EvInput (lit "Enter Quantity: ");
              EvPrint (warning_sign ++ lit
                " Quantity must be integer and price must be number!")]
         (set_stdin rest w))
| add_no_price raw raw_name raw_quantity q :
    stdin w = [raw; raw_name; raw_quantity] ->
    strip raw <> [] ->
    dict_get (strip raw) (inventory self) = None ->
    py_int unicode_decimal raw_quantity = Some q ->
    add_product_run self w (Raise EOFError) self
      (emits [EvInput (lit "Enter Product ID: ");
              EvInput (lit "Enter Product Name: ");
              EvInput (lit "Enter Quantity: ");
              EvInput (lit "Enter Price: ")]
         (set_stdin [] w))
| add_bad_price raw raw_name raw_quantity raw_price rest q :
    stdin w = raw :: raw_name :: raw_quantity :: raw_price :: rest ->
    strip raw <> [] ->
    dict_get (strip raw) (inventory self) = None ->
    py_int unicode_decimal raw_quantity = Some q ->
    py_float unicode_decimal raw_price = None ->
    add_product_run self w (Ok tt) self
      (emits [EvInput (lit "Enter Product ID: ");
              EvInput (lit "Enter Product Name: ");
              EvInput (lit "Enter Quantity: ");
              EvInput (lit "Enter Price: ");
              EvPrint (warning_sign ++ lit
                " Quantity must be integer and price must be number!")]
         (set_stdin rest w))
| add_negative raw raw_name raw_quantity raw_price rest q p :
    stdin w = raw :: raw_name :: raw_quantity :: raw_price :: rest ->
    strip raw <> [] ->
    dict_get (strip raw) (inventory self) = None ->
    py_int unicode_decimal raw_quantity = Some q ->
    py_float unicode_decimal raw_price = Some p ->
    (q < 0)%Z \/ (p <? 0)%float = true ->
    add_product_run self w (Ok tt) self
      (emits [EvInput (lit "Enter Product ID: ");
              EvInput (lit "Enter Product Name: ");
              EvInput (lit "Enter Quantity: ");
              EvInput (lit "Enter Price: ");
              EvPrint (warning_sign
                       ++ lit " Quantity and Price cannot be negative!")]
         (set_stdin rest w))
| add_done raw raw_name raw_quantity raw_price rest q p :
    stdin w = raw :: raw_name :: raw_quantity :: raw_price :: rest ->
    strip raw <> [] ->
    dict_get (strip raw) (inventory self) = None ->
    py_int unicode_decimal raw_quantity = Some q ->
    py_float unicode_decimal raw_price = Some p ->
    (0 <= q)%Z ->
    (p <? 0)%float = false ->
    let inv' :=
      dict_set (strip raw) (mkProduct (strip raw_name) q p)
        (inventory self) in
    add_product_run self w (Ok tt) (set_inventory inv' self)
      (emits [EvInput (lit "Enter Product ID: ");
              EvInput (lit "Enter Product Name: ");
              EvInput (lit "Enter Quantity: ");
              EvInput (lit "Enter Price: ");
              EvWrite "inventory.json" (saved_text inv');
              EvPrint (check_mark ++ lit " Product Added Successfully!")]
         (set_file "inventory.json" (saved_text inv') (set_stdin rest w))).

Inductive delete_product_run (self : user) (w : world)
  : result unit -> user -> world -> Prop :=
| delete_no_id :
    stdin w = [] ->
    delete_product_run self w (Raise EOFError) self
      (emits [EvInput (lit "Enter Product ID to delete: ")] w)
| delete_absent raw rest :
    stdin w = raw :: rest ->
    dict_get (strip raw) (inventory self) = None ->
    delete_product_run self w (Ok tt) self
      (emits [EvInput (lit "Enter Product ID to delete: ");
              EvPrint (cross_mark ++ lit " Product ID not found!")]
         (set_stdin rest w))
| delete_done raw rest inv' :
    stdin w = raw :: rest ->
    is_Some (dict_get (strip raw) (inventory self)) ->
    dict_del (strip raw) (inventory self) = Some inv' ->
    delete_product_run self w (Ok tt) (set_inventory inv' self)
      (emits [EvInput (lit "Enter Product ID to delete: ");
              EvWrite "inventory.json" (saved_text inv');
              EvPrint (wastebasket ++ lit " Product Deleted Successfully!")]
         (set_file "inventory.json" (saved_text inv') (set_stdin rest w))).

(** The two [update_stock] methods differ in the audit line only:
    [logged] tells whether it is written. *)
Inductive update_stock_run (logged : bool) (self : user) (w : world)
  : result unit -> user -> world -> Prop :=
| update_no_id :
    stdin w = [] ->
    update_stock_run logged self w (Raise EOFError) self
      (emits [EvInput (lit "Enter Product ID to update: ")] w)
| update_absent raw rest :
    stdin w = raw :: rest ->
    dict_get (strip raw) (inventory self) = None ->
    update_stock_run logged self w (Ok tt) self
      (emits [EvInput (lit "Enter Product ID to update: ");
              EvPrint (cross_mark ++ lit " Product ID not found!")]
         (set_stdin rest w))
| update_no_quantity raw :
    stdin w = [raw] ->
    is_Some (dict_get (strip raw) (inventory self)) ->
    update_stock_run logged self w (Raise EOFError) self
      (emits [EvInput (lit "Enter Product ID to update: ");
              EvInput (lit "Enter new quantity: ")]
         (set_stdin [] w))
| update_bad_quantity raw raw_quantity rest :
    stdin w = raw :: raw_quantity :: rest ->
    is_Some (dict_get (strip raw) (inventory self)) ->
    py_int unicode_decimal raw_quantity = None ->
    update_stock_run logged self w (Ok tt) self
      (emits [EvInput (lit "Enter Product ID to update: ");
              EvInput (lit "Enter new quantity: ");
              EvPrint (warning_sign
                       ++ lit " Quantity must be a valid number!")]
         (set_stdin rest w))
| update_negative raw raw_quantity rest q :
    stdin w = raw :: raw_quantity :: rest ->
    is_Some (dict_get (strip raw) (inventory self)) ->
    py_int unicode_decimal raw_quantity = Some q ->
    (q < 0)%Z ->
    update_stock_run logged self w (Ok tt) self
      (emits [EvInput (lit "Enter Product ID to update: ");
              EvInput (lit "Enter new quantity: ");
              EvPrint (warning_sign ++ lit " Quantity cannot be negative!")]
         (set_stdin rest w))
| update_done raw raw_quantity rest q details :
    stdin w = raw :: raw_quantity :: rest ->
    dict_get (strip raw) (inventory self) = Some details ->
    py_int unicode_decimal raw_quantity = Some q ->
    (0 <= q)%Z ->
    let inv' :=
      dict_set (strip raw) (set_quantity q details) (inventory self) in
    let line := log_line w (Staff.update_action (strip raw) q) in
    update_stock_run logged self w (Ok tt) (set_inventory inv' self)
      (if logged then
         emits [EvInput (lit "Enter Product ID to update: ");
                EvInput (lit "Enter new quantity: ");
                EvWrite "inventory.json" (saved_text inv');
                EvAppend "staff_log.txt" line;
                EvPrint (check_mark ++ lit " Stock Updated!")]
           (set_file "staff_log.txt" (staff_log w ++ line)
              (tick (set_file "inventory.json" (saved_text inv')
                       (set_stdin rest w))))
       else
         emits [EvInput (lit "Enter Product ID to update: ");
                EvInput (lit "Enter new quantity: ");
                EvWrite "inventory.json" (saved_text inv');
                EvPrint (check_mark ++ lit " Stock Updated!")]
           (set_file "inventory.json" (saved_text inv')
              (set_stdin rest w))).

End Runs.

(** ** The invariant of the catalog *)


(** The part of it the code maintains: the price is not below zero (which
    a NaN is not), and nothing is said about the name. *)
Definition kept_invariant (inv : dict product) : Prop :=
  NoDup (keys inv)
  /\ Forall (fun kp : pystr * product =>
               kp.1 <> []
               /\ (0 <= quantity kp.2)%Z /\ (price kp.2 <? 0)%float = false)
       inv.

(** The operations that change the catalog. *)
Inductive mutation : Type :=
| AdminAddProduct
| AdminUpdateStock
| AdminDeleteProduct
| StaffUpdateStock.

Definition run_mutation (unicode_decimal : N -> option N) (m : mutation)
  : method unit :=
  match m with
  | AdminAddProduct => Admin.add_product unicode_decimal
  | AdminUpdateStock => Admin.update_stock unicode_decimal
  | AdminDeleteProduct => Admin.delete_product
  | StaffUpdateStock => Staff.update_stock unicode_decimal
  end.

(** ** Sample objects and worlds *)

(** A runtime whose only decimal digits are the ASCII ones. *)
Definition ascii_only : N -> option N := fun _ => None.

(** A world with the given input lines and files, whose clock shows the
    same time at every reading. *)
Definition sample_world (lines : list pystr) (fs : gmap string pystr)
  : world :=
  mkWorld lines fs (fun _ => lit "2024-05-01 09:30:00.000000") 0 [].

(** An administrator with the given catalog. *)
Definition sample_admin (inv : dict product) : user :=
  mkUser (lit "admin") (lit "1234") (lit "admin") inv.

(** A staff member with the given catalog. *)
Definition sample_staff (inv : dict product) : user :=
  mkUser (lit "staff") (lit "1111") (lit "staff") inv.

(** The product of the scenario: ten pens at 2.5. *)
Definition pen : product := mkProduct (lit "Pen") 10 2.5%float.

(** ** What the administrator's view shows *)





(** ** The audit log and the input during a run *)

(** From [w] to [w']: the audit log has the same content, no effect in
    between appends to a file, and no input line was added. *)
Definition log_untouched (w w' : world) : Prop :=
  files w' !! "staff_log.txt" = files w !! "staff_log.txt"
  /\ (exists evs, trace w' = trace w ++ evs /\ appended evs = [])
  /\ (length (stdin w') <= length (stdin w))%nat.

(** A computation that leaves the audit log untouched from any state. *)
Definition quiet {A} (m : method A) : Prop :=
  forall s, log_untouched s.2 (m s).2.2.

(** The operations of the administrator. *)
Inductive admin_operation : Type :=
| AddProduct
| ViewProducts
| UpdateStock
| DeleteProduct
| ViewStaffLogs.

Definition run_admin (unicode_decimal : N -> option N) (op : admin_operation)
  : method unit :=
  match op with
  | AddProduct => Admin.add_product unicode_decimal
  | ViewProducts => Admin.view_products
  | UpdateStock => Admin.update_stock unicode_decimal
  | DeleteProduct => Admin.delete_product
  | ViewStaffLogs => Admin.view_staff_logs
  end.

(** A sequence of operations of the administrator, one after the other,
    as long as none raises. *)
Fixpoint run_admin_sequence (unicode_decimal : N -> option N)
    (ops : list admin_operation) : method unit :=
  match ops with
  | [] => mret tt
  | op :: ops' =>
      run_admin unicode_decimal op;;
      run_admin_sequence unicode_decimal ops'
  end.

(** ** Vocabulary of the proofs *)

(** A text that does not start with a blank. *)
Definition head_not_space (s : pystr) : Prop :=
  match s with
  | c :: _ => isspace c = false
  | [] => True
  end.

(** A text that does not start with a digit. *)
Definition not_digit_head (s : pystr) : Prop :=
  match s with
  | c :: _ => is_digit c = false
  | [] => True
  end.

(** A character of a number: a digit, a sign, a point or an [e]. *)
Definition is_number_char (c : N) : bool :=
  is_digit c || (c =? 45) || (c =? 43) || (c =? 46) || (c =? 101).

(** [2 ^ k] for [k >= 0], and [1] otherwise. *)
Definition pow2 (k : Z) : Z := (2 ^ Z.max k 0)%Z.

(** [10 ^ k] for [k >= 0], and [1] otherwise. *)
Definition pow10 (k : Z) : Z := (10 ^ Z.max k 0)%Z.

(** ** Sessions *)

(** A relation between the state before and the state after that a
    computation keeps from every state. *)
Definition respects {A} (R : relation (user * world)) (m : method A) : Prop :=
  forall s, R s (m s).2.

Definition is_print (e : event) : bool :=
  match e with EvPrint _ => true | _ => false end.

(** A computation that only prints: the object, the files, the input and
    the clock stay as they are. *)
Definition only_prints {A} (m : method A) : Prop :=
  forall s, exists evs,
    (m s).2 = (s.1, emits evs s.2) /\ Forall (fun e => is_print e = true) evs.

(** Two catalogs with the same IDs in the same order, and the same name
    and price at every ID: they differ in quantities at most. *)
Definition same_products (inv inv' : dict product) : Prop :=
  Forall2 (fun kp kp' : pystr * product =>
             kp'.1 = kp.1 /\ name kp'.2 = name kp.2
             /\ price kp'.2 = price kp.2)
    inv inv'.

(** The lines appended to the audit log by a list of effects. *)
Definition log_lines (evs : list event) : list pystr :=
  omap (fun e =>
          match e with
          | EvAppend path text =>
              if bool_decide (path = "staff_log.txt") then Some text else None
          | _ => None
          end) evs.

(** The catalogs written to [inventory.json] by a list of effects. *)
Definition catalog_writes (evs : list event) : list pystr :=
  omap (fun e =>
          match e with
          | EvWrite path text =>
              if bool_decide (path = "inventory.json") then Some text
              else None
          | _ => None
          end) evs.


(** The catalog of the object is the one [inventory.json] holds. *)
Definition synced (s : user * world) : Prop :=
  files s.2 !! "inventory.json" = Some (saved_text (inventory s.1)).

(** From [s] to [s']: the catalog and its file are as they were, or the
    file holds the catalog of the object. *)
Definition in_step (s s' : user * world) : Prop :=
  (inventory s'.1 = inventory s.1
   /\ files s'.2 !! "inventory.json" = files s.2 !! "inventory.json")
  \/ synced s'.

(** No more input lines are left than there were. *)
Definition consumes (s s' : user * world) : Prop :=
  (length (stdin s'.2) <= length (stdin s.2))%nat.

(** What a relation between states needs to be kept by a menu loop, apart
    from the operations that change the catalog: it is a preorder, and it
    holds across printing and across reading a line. *)
Record session_relation (R : relation (user * world)) : Prop := {
  session_refl : forall s, R s s;
  session_trans : forall s1 s2 s3, R s1 s2 -> R s2 s3 -> R s1 s3;
  session_prints : forall s evs,
    Forall (fun e => is_print e = true) evs -> R s (s.1, emits evs s.2);
  session_input : forall prompt, respects R (call (input prompt))
}.

(** From [s] to [s']: the catalog of the object differs in quantities at
    most. *)
Definition products_kept (s s' : user * world) : Prop :=
  same_products (inventory s.1) (inventory s'.1).

(** From [s] to [s']: a catalog that satisfies the invariant the code
    maintains still does. *)
Definition invariant_kept (s s' : user * world) : Prop :=
  kept_invariant (inventory s.1) -> kept_invariant (inventory s'.1).

(** ** Decimal literals *)

(** A decimal literal: the digits before the point, the digits after it
    (none when there is no point) and the exponent, if there is one. *)
Record literal : Type := mkLiteral {
  int_digits : list N;
  frac_digits : list N;
  exponent : option Z
}.

(** The point and the digits after it, when there are any. *)
Definition render_fraction (fp : list N) : pystr :=
  match fp with
  | [] => []
  | _ => 46 :: map digit_char fp
  end.

(** The exponent part, when there is one. *)
Definition render_exponent (x : option Z) : pystr :=
  match x with
  | Some x => format_exponent x
  | None => []
  end.

(** The text of a literal. *)
Definition render (l : literal) : pystr :=
  map digit_char (int_digits l)
  ++ render_fraction (frac_digits l)
  ++ render_exponent (exponent l).

(** The literal [format_short] writes for the digits [ds] with the point
    at [decpt]. *)
Definition literal_of (ds : list N) (decpt : Z) : literal :=
  if (decpt <=? -4)%Z || (16 <? decpt)%Z then
    mkLiteral (take 1 ds) (drop 1 ds) (Some (decpt - 1)%Z)
  else if (decpt <=? 0)%Z then
    mkLiteral [0] (repeat 0 (Z.to_nat (- decpt)) ++ ds) None
  else if (Z.of_nat (length ds) <=? decpt)%Z then
    mkLiteral (ds ++ repeat 0 (Z.to_nat decpt - length ds)%nat) [0] None
  else
    mkLiteral (take (Z.to_nat decpt) ds) (drop (Z.to_nat decpt) ds) None.

(** The number a literal denotes: its digits and its decimal exponent. *)
Definition literal_digits (l : literal) : N :=
  digits_value (int_digits l ++ frac_digits l).

Definition literal_exponent (l : literal) : Z :=
  (default 0 (exponent l) - Z.of_nat (length (frac_digits l)))%Z.

(** A literal as JSON allows them, and as [float] reads them: digits
    below ten, and before the point a single zero or digits that do not
    start with zero. *)
Definition well_formed (l : literal) : Prop :=
  Forall (fun d => d < 10) (int_digits l)
  /\ Forall (fun d => d < 10) (frac_digits l)
  /\ (int_digits l = [0]
      \/ exists d ds, int_digits l = d :: ds /\ 0 < d).

(** A text at which a number ends: it does not go on with a digit, a
    point or an exponent. *)
Definition ends_number (s : pystr) : Prop :=
  match s with
  | c :: _ => is_number_char c = false /\ c <> 69
  | [] => True
  end.

(** ** Text *)

(** A Python string that [json] writes and reads back as it is: code
    points up to [0x10FFFF], and no high surrogate directly followed by a
    low surrogate (the decoder reads such a pair of escapes as the one
    character they encode in UTF-16).  Text that comes from decoded input
    holds no high surrogate at all. *)
Fixpoint is_text (s : pystr) : bool :=
  match s with
  | [] => true
  | c :: s' =>
      (c <=? 0x10FFFF)
      && negb (is_high_surrogate c
               && match s' with
                  | c' :: _ => is_low_surrogate c'
                  | [] => false
                  end)
      && is_text s'
  end.

(** The characters of a string between its quotes, as [json.dump]
    writes them. *)
Definition encode_chars (s : pystr) : pystr := concat (map encode_char s).

(** What [scan_string] does after an escape [\uXXXX] of value [u], with
    [s3] left to read: a high surrogate directly followed by the escape
    of a low surrogate is joined with it. *)
Definition after_escape (u : N) (s3 : pystr) : option (pystr * pystr) :=
  match s3 with
  | b :: u' :: g1 :: g2 :: g3 :: g4 :: (_ :: _) as s4 =>
      if is_high_surrogate u && (b =? 92) && (u' =? 117)
      then
        u2 ← hex4 g1 g2 g3 g4;
        if is_low_surrogate u2 then
          '(r, rest) ← scan_string s4;
          Some (join_surrogates u u2 :: r, rest)
        else
          '(r, rest) ← scan_string s3; Some (u :: r, rest)
      else
        '(r, rest) ← scan_string s3; Some (u :: r, rest)
  | _ => '(r, rest) ← scan_string s3; Some (u :: r, rest)
  end.

(** ** The number scanner, part by part *)

(** The digits before the point: a single [0], or all the digits. *)
Definition match_int_part (c : N) (r1 : pystr) : pystr * pystr :=
  if c =? 48 then ([c], r1)
  else let '(ds, r) := span is_digit r1 in (c :: ds, r).

(** A point and at least one digit, if they follow. *)
Definition match_fraction (r2 : pystr) : pystr * pystr :=
  match r2 with
  | p :: d :: r =>
      if (p =? 46) && is_digit d then
        let '(ds, r') := span is_digit r in (p :: d :: ds, r')
      else ([], r2)
  | _ => ([], r2)
  end.

(** An exponent, if one follows. *)
Definition match_exponent (r3 : pystr) : pystr * pystr :=
  match r3 with
  | e :: r =>
      if (e =? 101) || (e =? 69) then
        let '(sg, r') :=
          match r with
          | g :: r'' =>
              if (g =? 45) || (g =? 43) then ([g], r'') else ([], r)
          | [] => ([], r)
          end in
        match span is_digit r' with
        | ([], _) => ([], r3)
        | (ds, r'') => (e :: sg ++ ds, r'')
        end
      else ([], r3)
  | [] => ([], r3)
  end.

(** A literal with a point or an exponent: JSON reads it as a [float]. *)
Definition is_float_literal (l : literal) : Prop :=
  frac_digits l <> [] \/ exponent l <> None.

(** The sign of a number as text. *)
Definition sign_text (neg : bool) : pystr := if neg then [45] else [].

(** ** The scanner of objects *)

(** The pairs of an object, after the quote that opens the first key: the
    loop of [scan_once] for them, with the fuel left for the values. *)
Definition scan_pairs (fuel' : nat)
  : nat -> pystr -> option (list (pystr * json) * pystr) :=
  fix pairs (n : nat) (s : pystr) {struct n}
    : option (list (pystr * json) * pystr) :=
    match n with
    | O => None
    | S n' =>
        '(k, r) ← scan_string s;
        match skip_ws r with
        | c :: r1 =>
            if c =? 58 then
              '(x, r2) ← scan_once fuel' (skip_ws r1);
              match skip_ws r2 with
              | c' :: r3 =>
                  if c' =? 125 then Some ([(k, x)], r3)
                  else if c' =? 44 then
                    match skip_ws r3 with
                    | q :: r4 =>
                        if q =? 34 then
                          '(kxs, r5) ← pairs n' r4;
                          Some ((k, x) :: kxs, r5)
                        else None
                    | [] => None
                    end
                  else None
              | [] => None
              end
            else None
        | [] => None
        end
    end.

(** A key, the colon and the value of a member of an object. *)
Definition member_text (indent level : nat) (kx : pystr * json) : pystr :=
  encode_string kx.1 ++ [58; 32] ++ encode indent level kx.2.

(** The members of an object after the first, each after a comma and a
    line break. *)
Fixpoint more_members (indent level : nat) (kxs : list (pystr * json))
  : pystr :=
  match kxs with
  | [] => []
  | kx :: kxs' =>
      [44] ++ newline_indent indent level ++ member_text indent level kx
      ++ more_members indent level kxs'
  end.

(** A text at which a value ends inside an indented object: a comma or a
    line break. *)
Definition ends_value (s : pystr) : Prop :=
  exists c s', s = c :: s' /\ (c = 44 \/ c = 10).

(** A value that the scanner reads back from its text at the nesting
    depth [level], whatever follows the value in an object. *)
Definition reads_back (fuel indent level : nat) (x : json) : Prop :=
  forall rest,
    ends_value rest ->
    scan_once fuel (encode indent level x ++ rest) = Some (x, rest)
    /\ skip_ws (encode indent level x ++ rest) = encode indent level x ++ rest.

(** ** Catalogs that can be stored *)

(** A catalog as [json] stores it faithfully: the IDs are pairwise
    distinct (as the keys of a [dict] are), the IDs and the names are
    text, no price is a NaN (which is equal to nothing, itself included),
    and every quantity is written with at most 4300 digits (the limit of
    Python 3.11 and later for the conversion between [int] and [str]). *)
Definition storable (inv : dict product) : Prop :=
  NoDup (keys inv)
  /\ Forall (fun kp : pystr * product =>
               is_text kp.1 = true
               /\ is_text (name kp.2) = true
               /\ (Z.abs (quantity kp.2) < 10 ^ 4300)%Z
               /\ (price kp.2 =? price kp.2)%float = true)
       inv.

(** From [s] to [s']: the trace has grown, and either no catalog was
    written and the catalog and its file are as they were, or the file
    holds the catalog of the object. *)
Definition written_in_step (s s' : user * world) : Prop :=
  exists evs,
    trace s'.2 = trace s.2 ++ evs
    /\ ((catalog_writes evs = []
         /\ inventory s'.1 = inventory s.1
         /\ files s'.2 !! "inventory.json" = files s.2 !! "inventory.json")
        \/ synced s').
(** * Properties *)

(** The text-level functions stay folded while runs are unfolded. *)
#[global] Arguments lit : simpl never.
#[global] Arguments strip : simpl never.
#[global] Arguments str_of_int : simpl never.
#[global] Arguments float_repr : simpl never.
#[global] Arguments json_dumps : simpl never.
#[global] Arguments json_loads : simpl never.
#[global] Arguments py_int : simpl never.
#[global] Arguments py_float : simpl never.
#[global] Arguments Staff.update_action : simpl never.
#[global] Arguments Admin.product_text : simpl never.
#[global] Arguments Staff.product_line : simpl never.

(** ** Runs of the monad *)

Lemma since_app w w' evs : trace w' = trace w ++ evs -> since w w' = evs.
Proof. intros H. unfold since. rewrite H. apply drop_app_length. Qed.

Lemma since_refl w : since w w = [].
Proof. apply since_app. by rewrite app_nil_r. Qed.

Lemma world_eq w w' :
  stdin w = stdin w' -> files w = files w' -> clock w = clock w' ->
  ticks w = ticks w' -> trace w = trace w' -> w = w'.
Proof. destruct w, w'. simpl. by intros -> -> -> -> ->. Qed.

(** Two descriptions of the same world. *)
Ltac same_world :=
  apply world_eq; unfold staff_log, log_line, saved_text; simpl;
  rewrite <- ?app_assoc; try reflexivity.

(** Unfolds the monad and the primitives of the world. *)
Ltac unfold_run :=
  unfold try_except, call, input, print, save_inventory, log_staff_action,
    self_inventory, store_inventory, or_raise, modify, get, raise, ret,
    mbind, mret, M_bind, M_ret, bind in *.

Ltac run := repeat (unfold_run; simpl in * ).

(** Closes the description of the final world of a run: its files, its
    trace as an extension of the initial one, and what follows. *)
Ltac trace_done :=
  repeat match goal with
  | |- since _ _ = _ => apply since_app; simpl; rewrite <- ?app_assoc; reflexivity
  | |- _ /\ _ => split
  | |- _ => reflexivity
  end.

(** ** Dictionaries *)

Lemma dict_mem_get {V} k (d : dict V) :
  dict_mem k d = true <-> is_Some (dict_get k d).
Proof.
  unfold dict_mem. destruct (dict_get k d); split; intros H; eauto.
  - discriminate.
  - by destruct H.
Qed.

Lemma dict_mem_false {V} k (d : dict V) :
  dict_mem k d = false <-> dict_get k d = None.
Proof. unfold dict_mem. destruct (dict_get k d); split; congruence. Qed.

Lemma dict_get_keys {V} k (d : dict V) :
  dict_get k d = None <-> k ∉ keys d.
Proof.
  induction d as [|[k' v] d IH]; simpl.
  - split; [intros _; apply not_elem_of_nil | done].
  - rewrite not_elem_of_cons. destruct (decide (k = k')); split.
    + discriminate.
    + intros [? _]. done.
    + intros H. split; [done | by apply IH].
    + intros [_ H]. by apply IH.
Qed.

Lemma dict_set_keys_present {V} k (v : V) d :
  is_Some (dict_get k d) -> keys (dict_set k v d) = keys d.
Proof.
  induction d as [|[k' v'] d IH]; simpl.
  - intros [? ?]. discriminate.
  - destruct (decide (k = k')); simpl; [done |].
    intros H. f_equal. by apply IH.
Qed.

Lemma dict_set_keys_absent {V} k (v : V) d :
  dict_get k d = None -> dict_set k v d = d ++ [(k, v)].
Proof.
  induction d as [|[k' v'] d IH]; simpl; [done |].
  destruct (decide (k = k')); [discriminate |].
  intros H. f_equal. by apply IH.
Qed.

Lemma dict_get_set {V} k k' (v : V) d :
  dict_get k' (dict_set k v d)
  = if decide (k' = k) then Some v else dict_get k' d.
Proof.
  induction d as [|[k0 v0] d IH]; simpl.
  - destruct (decide (k' = k)); [done |]. done.
  - destruct (decide (k = k0)) as [->|Hne]; simpl.
    + destruct (decide (k' = k0)); done.
    + destruct (decide (k' = k0)) as [->|Hne'].
      * destruct (decide (k0 = k)); [congruence | done].
      * apply IH.
Qed.

Lemma dict_del_present {V} k (d : dict V) :
  is_Some (dict_get k d) -> is_Some (dict_del k d).
Proof.
  induction d as [|[k' v'] d IH]; simpl.
  - intros [? ?]. discriminate.
  - destruct (decide (k = k')); [eauto |].
    intros H. destruct (IH H) as [d' ->]. simpl. eauto.
Qed.

Lemma dict_del_split {V} k (d d' : dict V) :
  dict_del k d = Some d' ->
  exists d1 v d2, d = d1 ++ (k, v) :: d2 /\ d' = d1 ++ d2 /\ k ∉ keys d1.
Proof.
  revert d'. induction d as [|[k' v'] d IH]; simpl; intros d' Hdel.
  - discriminate.
  - destruct (decide (k = k')) as [->|Hne].
    + injection Hdel as <-. exists [], v', d. repeat split.
      apply not_elem_of_nil.
    + destruct (dict_del k d) as [d''|] eqn:E; [|discriminate].
      simpl in Hdel. injection Hdel as <-.
      destruct (IH _ eq_refl) as (d1 & v & d2 & -> & -> & Hnotin).
      exists ((k', v') :: d1), v, d2. repeat split.
      simpl. rewrite not_elem_of_cons. done.
Qed.

Lemma dict_get_split {V} k (v : V) (d before after : dict V) :
  d = before ++ (k, v) :: after -> k ∉ keys before -> dict_get k d = Some v.
Proof.
  intros -> Hnotin.
  induction before as [|[k0 v0] before IH]; simpl in *.
  - by destruct (decide (k = k)).
  - apply not_elem_of_cons in Hnotin as [Hne Hnotin].
    destruct (decide (k = k0)); [done|]. by apply IH.
Qed.

Lemma dict_get_del {V} k k' (d d' : dict V) :
  NoDup (keys d) -> dict_del k d = Some d' ->
  dict_get k' d' = if decide (k' = k) then None else dict_get k' d.
Proof.
  revert d'. induction d as [|[k0 v0] d IH]; simpl; intros d' Hnd Hdel.
  - discriminate.
  - apply NoDup_cons in Hnd as [Hnotin Hnd].
    destruct (decide (k = k0)) as [->|Hne].
    + injection Hdel as <-.
      destruct (decide (k' = k0)) as [->|]; [|done].
      by apply dict_get_keys.
    + destruct (dict_del k d) as [d''|] eqn:E; [|discriminate].
      simpl in Hdel. injection Hdel as <-. simpl.
      destruct (decide (k' = k0)) as [->|].
      * destruct (decide (k0 = k)); [congruence | done].
      * by apply IH.
Qed.

(** ** The methods take the paths of their run relations *)

Lemma transport {A B C D E} (R : A -> B -> C -> D -> E -> Prop) a b c d e e' :
  R a b c d e -> e = e' -> R a b c d e'.
Proof. by intros H <-. Qed.

Lemma staff_log_set_inventory text w :
  default [] (files (set_file "inventory.json" text w) !! "staff_log.txt")
  = staff_log w.
Proof. unfold staff_log. simpl. by rewrite lookup_insert_ne. Qed.

(** Turns the boolean tests of the code into the conditions of the run
    relations. *)
Ltac conditions :=
  repeat match goal with
  | H : bool_decide _ = true |- _ => apply bool_decide_eq_true_1 in H
  | H : bool_decide _ = false |- _ => apply bool_decide_eq_false_1 in H
  | H : dict_mem _ _ = true |- _ => apply dict_mem_get in H
  | H : dict_mem _ _ = false |- _ => apply dict_mem_false in H
  | H : negb _ = true |- _ => apply negb_true_iff in H
  | H : negb _ = false |- _ => apply negb_false_iff in H
  | H : _ || _ = true |- _ => apply orb_true_iff in H as [H|H]
  | H : _ || _ = false |- _ => apply orb_false_iff in H as [? ?]
  | H : (_ <? _)%Z = true |- _ => apply Z.ltb_lt in H
  | H : (_ <? _)%Z = false |- _ => apply Z.ltb_ge in H
  end; subst.

(** Splits on the innermost test the goal is stuck on. *)
Ltac split_match :=
  match goal with
  | |- context [match ?x with _ => _ end] =>
      lazymatch x with
      | context [match _ with _ => _ end] => fail
      | _ => destruct x eqn:?
      end
  end.

Ltac all_paths := repeat (simpl; split_match); simpl; conditions.

Section Paths.

Variable unicode_decimal : N -> option N.

Lemma add_product_runs self w :
  let '(r, (self', w')) := Admin.add_product unicode_decimal (self, w) in
  add_product_run unicode_decimal self w r self' w'.
Proof.
  unfold Admin.add_product. unfold_run. all_paths;
    (eapply transport;
     [first [ eapply add_no_id; by eauto
            | eapply add_empty_id; by eauto
            | eapply add_duplicate_id; by eauto
            | eapply add_no_name; by eauto
            | eapply add_no_quantity; by eauto
            | eapply add_bad_quantity; by eauto
            | eapply add_no_price; by eauto
            | eapply add_bad_price; by eauto
            | eapply add_negative; by eauto
            | eapply add_done; by eauto ]
     | same_world ]).
Qed.

Lemma delete_product_runs self w :
  let '(r, (self', w')) := Admin.delete_product (self, w) in
  delete_product_run self w r self' w'.
Proof.
  unfold Admin.delete_product. unfold_run. all_paths;
    try match goal with
        | H : is_Some (dict_get _ _), H' : dict_del _ _ = None |- _ =>
            apply dict_del_present in H as [? ?]; congruence
        end;
    (eapply transport;
     [first [ eapply delete_no_id; by eauto
            | eapply delete_absent; by eauto
            | eapply delete_done; by eauto ]
     | same_world ]).
Qed.

Ltac update_paths :=
  unfold_run; all_paths;
  try match goal with
      | H : is_Some (dict_get ?k ?d), H' : dict_get ?k ?d = None |- _ =>
          rewrite H' in H; by destruct H
      end;
  (eapply transport;
   [first [ eapply update_no_id; by eauto
          | eapply update_absent; by eauto
          | eapply update_no_quantity; by eauto
          | eapply update_bad_quantity; by eauto
          | eapply update_negative; by eauto
          | eapply update_done; by eauto ]
   | same_world; rewrite ?lookup_insert_ne by done; reflexivity ]).

Lemma admin_update_stock_runs self w :
  let '(r, (self', w')) := Admin.update_stock unicode_decimal (self, w) in
  update_stock_run unicode_decimal false self w r self' w'.
Proof. unfold Admin.update_stock. update_paths. Qed.

Lemma staff_update_stock_runs self w :
  let '(r, (self', w')) := Staff.update_stock unicode_decimal (self, w) in
  update_stock_run unicode_decimal true self w r self' w'.
Proof. unfold Staff.update_stock. update_paths. Qed.

End Paths.

Lemma since_emits w w0 evs :
  trace w0 = trace w -> since w (emits evs w0) = evs.
Proof. intros H. apply since_app. simpl. by rewrite H. Qed.

Ltac since_now := rewrite since_emits by reflexivity.

(** A text is not among the few texts printed. *)
Ltac not_printed :=
  simpl; intros Hin_printed;
  repeat (apply elem_of_cons in Hin_printed as [Hin_printed|Hin_printed];
          [discriminate Hin_printed|]);
  by apply elem_of_nil in Hin_printed.

(** Two readings of the same input line by line. *)
Ltac same_input :=
  repeat match goal with
  | H : stdin ?w = _, H' : stdin ?w = _ |- _ =>
      rewrite H in H'; first [discriminate H' | injection H' as ?]; subst
  | H : ?a :: ?l = stdin ?w |- _ => symmetry in H
  | H : [] = stdin ?w |- _ => symmetry in H
  end.

Ltac contradictory :=
  repeat match goal with
  | H : ?x = Some ?a, H' : ?x = Some ?b |- _ =>
      rewrite H in H'; injection H' as ?; subst
  end;
  try discriminate; try congruence; try lia;
  try match goal with
      | H : is_Some ?x, H' : ?x = None |- _ => rewrite H' in H; by destruct H
      | H : _ \/ _ |- _ => by destruct H; first [lia | congruence]
      end.

(** ** The claims about the operations *)

Section Operations.

Variable unicode_decimal : N -> option N.

(** C2: whenever [add_product] fails, because the entered ID is empty or
    already in the catalog, the quantity or the price is negative, or one
    of them cannot be parsed, the method returns with the catalog of the
    object unchanged, the files unchanged and no write to any file; the
    success message is not printed. *)
Theorem add_product_failure_changes_nothing (self : user) (w : world) :
  add_product_fails unicode_decimal (inventory self) (stdin w) ->
  exists w',
    Admin.add_product unicode_decimal (self, w) = (Ok tt, (self, w'))
    /\ files w' = files w
    /\ Forall (fun e => is_file_write e = false) (since w w')
    /\ check_mark ++ lit " Product Added Successfully!"
       ∉ printed (since w w').
Proof.
  intros Hfail.
  pose proof (add_product_runs unicode_decimal self w) as Hrun.
  destruct (Admin.add_product unicode_decimal (self, w)) as [r [self' w']].
  inversion Hfail; subst; inversion Hrun; subst; same_input; contradictory;
    (eexists; split; [reflexivity|]; since_now;
     split; [reflexivity|]; split; [by repeat constructor | not_printed]).
Qed.

(** C3: for a product ID in the catalog and a new quantity that is at
    least zero, [update_stock] of the administrator ([logged = false]) and
    of the staff ([logged = true]) returns with the keys of the catalog in
    the same order, the quantity of that product set, its name, its price
    and every other entry as before, and the catalog written to
    [inventory.json]; for an ID that is not in the catalog it prints that
    the ID was not found and changes neither the catalog nor a file. *)
Theorem update_stock_sets_the_quantity (logged : bool) (self : user)
    (w : world) (raw : pystr) (rest : list pystr) :
  let update_stock :=
    if logged then Staff.update_stock unicode_decimal
    else Admin.update_stock unicode_decimal in
  stdin w = raw :: rest ->
  (forall details raw_quantity rest' q,
     rest = raw_quantity :: rest' ->
     dict_get (strip raw) (inventory self) = Some details ->
     py_int unicode_decimal raw_quantity = Some q ->
     (0 <= q)%Z ->
     exists self' w',
       update_stock (self, w) = (Ok tt, (self', w'))
       /\ keys (inventory self') = keys (inventory self)
       /\ (forall k,
             dict_get k (inventory self')
             = if decide (k = strip raw)
               then Some (mkProduct (name details) q (price details))
               else dict_get k (inventory self))
       /\ files w' !! "inventory.json" = Some (saved_text (inventory self'))
       /\ EvWrite "inventory.json" (saved_text (inventory self'))
          ∈ since w w')
  /\ (dict_get (strip raw) (inventory self) = None ->
      exists w',
        update_stock (self, w) = (Ok tt, (self, w'))
        /\ printed (since w w') = [cross_mark ++ lit " Product ID not found!"]
        /\ files w' = files w
        /\ Forall (fun e => is_file_write e = false) (since w w')).
Proof.
  intros update_stock Hin.
  assert (let '(r, (self', w')) := update_stock (self, w) in
          update_stock_run unicode_decimal logged self w r self' w') as Hrun.
  { subst update_stock. destruct logged.
    - apply staff_update_stock_runs.
    - apply admin_update_stock_runs. }
  destruct (update_stock (self, w)) as [r [self' w']].
  split.
  - intros details raw_quantity rest' q -> Hget Hq Hpos.
    inversion Hrun; subst; same_input; contradictory.
    eexists _, _. split; [reflexivity|].
    split; [apply dict_set_keys_present; by rewrite Hget|].
    split; [intros k; apply dict_get_set|].
    destruct logged; since_now; simpl.
    + rewrite lookup_insert_ne by done. rewrite lookup_insert_eq.
      split; [done|]. apply list_elem_of_lookup. by exists 2%nat.
    + rewrite lookup_insert_eq.
      split; [done|]. apply list_elem_of_lookup. by exists 2%nat.
  - intros Hget. inversion Hrun; subst; same_input; contradictory.
    eexists. split; [reflexivity|]. since_now.
    split; [reflexivity|]. split; [reflexivity|]. by repeat constructor.
Qed.



(** C5: for a product ID in the catalog, [delete_product] removes that
    entry and no other, keeps the order of the others, and writes the
    resulting catalog to [inventory.json]; for an ID that is not in the
    catalog it prints that the ID was not found, leaves the catalog as it
    was and writes to no file. *)
Theorem delete_product_removes_the_entry (self : user) (w : world)
    (raw : pystr) (rest : list pystr) :
  NoDup (keys (inventory self)) ->
  stdin w = raw :: rest ->
  (forall details,
     dict_get (strip raw) (inventory self) = Some details ->
     exists self' w' before after,
       Admin.delete_product (self, w) = (Ok tt, (self', w'))
       /\ inventory self = before ++ (strip raw, details) :: after
       /\ inventory self' = before ++ after
       /\ (forall k,
             dict_get k (inventory self')
             = if decide (k = strip raw) then None
               else dict_get k (inventory self))
       /\ files w' !! "inventory.json" = Some (saved_text (inventory self'))
       /\ EvWrite "inventory.json" (saved_text (inventory self'))
          ∈ since w w')
  /\ (dict_get (strip raw) (inventory self) = None ->
      exists w',
        Admin.delete_product (self, w) = (Ok tt, (self, w'))
        /\ printed (since w w') = [cross_mark ++ lit " Product ID not found!"]
        /\ files w' = files w
        /\ Forall (fun e => is_file_write e = false) (since w w')).
Proof.
  intros Hnd Hin.
  pose proof (delete_product_runs self w) as Hrun.
  destruct (Admin.delete_product (self, w)) as [r [self' w']].
  split.
  - intros details Hget.
    inversion Hrun as [| |raw' rest' inv' Hin' Hsome Hdel]; subst;
      same_input; contradictory.
    destruct (dict_del_split _ _ _ Hdel)
      as (before & v & after & Heq & -> & Hnotin).
    pose proof (dict_get_split _ _ _ _ _ Heq Hnotin) as Hv.
    rewrite Hget in Hv. injection Hv as <-.
    eexists _, _, before, after. split; [reflexivity|].
    split; [done|]. split; [done|].
    split; [intros k; by apply dict_get_del|].
    since_now. simpl. rewrite lookup_insert_eq.
    split; [done|]. apply list_elem_of_lookup. by exists 1%nat.
  - intros Hget. inversion Hrun; subst; same_input; contradictory.
    eexists. split; [reflexivity|]. since_now.
    split; [reflexivity|]. split; [reflexivity|]. by repeat constructor.
Qed.

Lemma Forall_dict_set {V} (P : pystr * V -> Prop) k v (d : dict V) :
  Forall P d -> P (k, v) -> Forall P (dict_set k v d).
Proof.
  intros Hall Hnew. induction Hall as [|[k' v'] d Hx Hall IH]; simpl.
  - by constructor.
  - destruct (decide (k = k')) as [->|]; by constructor.
Qed.

Lemma NoDup_keys_dict_set {V} k (v : V) (d : dict V) :
  NoDup (keys d) -> NoDup (keys (dict_set k v d)).
Proof.
  intros Hnd. destruct (dict_get k d) as [v'|] eqn:Hget.
  - rewrite dict_set_keys_present; [done | by rewrite Hget].
  - rewrite dict_set_keys_absent by done. unfold keys.
    rewrite map_app. simpl. apply NoDup_app. split; [done|].
    split; [|apply NoDup_singleton].
    intros k' Hin ->%list_elem_of_singleton.
    by apply dict_get_keys in Hget.
Qed.

Lemma NoDup_keys_remove {V} (before after : dict V) kv :
  NoDup (keys (before ++ kv :: after)) -> NoDup (keys (before ++ after)).
Proof.
  unfold keys. rewrite !map_app. simpl. rewrite !NoDup_app.
  intros (Hb & Hdisj & Ha). apply NoDup_cons in Ha as [_ Ha].
  split; [done|]. split; [|done].
  intros x Hx Hin. apply (Hdisj x Hx). by apply elem_of_cons; right.
Qed.

Lemma Forall_remove {A} (P : A -> Prop) (before after : list A) x :
  Forall P (before ++ x :: after) -> Forall P (before ++ after).
Proof.
  rewrite !Forall_app. intros [Hb Ha]. apply Forall_cons in Ha as [_ Ha].
  by split.
Qed.


Lemma emits_nil w : emits [] w = w.
Proof. apply world_eq; simpl; try reflexivity. apply app_nil_r. Qed.

Lemma emits_emits evs evs' w : emits evs' (emits evs w) = emits (evs ++ evs') w.
Proof. apply world_eq; simpl; try reflexivity. by rewrite app_assoc. Qed.

Lemma emit_emits e w : emit e w = emits [e] w.
Proof. reflexivity. Qed.

Lemma float_of_int_0 : float_of_int 0 = Some 0%float.
Proof. reflexivity. Qed.



(** ** The audit log under the operations of the administrator *)

Lemma log_untouched_refl w : log_untouched w w.
Proof.
  split; [done|]. split; [|done]. exists []. by rewrite app_nil_r.
Qed.

Lemma appended_app evs evs' : appended (evs ++ evs') = appended evs ++ appended evs'.
Proof. unfold appended. apply List.filter_app. Qed.

Lemma log_untouched_trans w1 w2 w3 :
  log_untouched w1 w2 -> log_untouched w2 w3 -> log_untouched w1 w3.
Proof.
  intros (Hf & (evs & Ht & Ha) & Hl) (Hf' & (evs' & Ht' & Ha') & Hl').
  split; [congruence|]. split; [|lia].
  exists (evs ++ evs'). split.
  - by rewrite Ht', Ht, app_assoc.
  - by rewrite appended_app, Ha, Ha'.
Qed.

Lemma log_untouched_since w w' :
  log_untouched w w' -> appended (since w w') = [].
Proof. intros (_ & (evs & Ht & Ha) & _). by rewrite (since_app _ _ _ Ht). Qed.

Lemma quiet_ret {A} (a : A) : quiet (mret a).
Proof. intros s. apply log_untouched_refl. Qed.

Lemma quiet_raise {A} e : quiet (@raise _ A e).
Proof. intros s. apply log_untouched_refl. Qed.

Lemma quiet_bind {A B} (c : method A) (k : A -> method B) :
  quiet c -> (forall a, quiet (k a)) -> quiet (c ≫= k).
Proof.
  intros Hc Hk s. unfold mbind, M_bind, bind.
  specialize (Hc s). destruct (c s) as [[a|e] s']; simpl in *.
  - eapply log_untouched_trans; [exact Hc | apply Hk].
  - exact Hc.
Qed.

Lemma quiet_try_except {A} (body handler : method A) caught :
  quiet body -> quiet handler -> quiet (try_except body caught handler).
Proof.
  intros Hb Hh s. unfold try_except.
  specialize (Hb s). destruct (body s) as [[a|e] s']; simpl in *.
  - exact Hb.
  - destruct (caught e); simpl; [|exact Hb].
    eapply log_untouched_trans; [exact Hb | apply Hh].
Qed.

Lemma quiet_call {A} (c : M world A) :
  (forall w, log_untouched w (c w).2) -> quiet (call c).
Proof.
  intros Hc s. unfold call. specialize (Hc s.2).
  by destruct (c s.2) as [r w'].
Qed.

Lemma log_untouched_emit e w :
  is_append e = false -> log_untouched w (emit e w).
Proof.
  intros He. split; [done|]. split; [|done].
  exists [e]. split; [done|]. unfold appended. simpl. by rewrite He.
Qed.

Lemma quiet_print text : quiet (call (print text)).
Proof. apply quiet_call. intros w. by apply log_untouched_emit. Qed.

Lemma quiet_input prompt : quiet (call (input prompt)).
Proof.
  apply quiet_call. intros w. unfold input.
  destruct (stdin w) as [|l ls] eqn:Hin; simpl.
  - by apply log_untouched_emit.
  - split; [done|]. split; [|simpl; rewrite Hin; simpl; lia].
    by exists [EvInput prompt].
Qed.

Lemma quiet_save_inventory inv : quiet (call (save_inventory inv)).
Proof.
  apply quiet_call. intros w. unfold save_inventory, modify. simpl.
  split; [simpl; by rewrite lookup_insert_ne|]. split; [|done].
  by eexists [_].
Qed.

Lemma quiet_self_inventory : quiet self_inventory.
Proof. intros s. apply log_untouched_refl. Qed.

Lemma quiet_store_inventory inv : quiet (store_inventory inv).
Proof. intros s. apply log_untouched_refl. Qed.

Lemma quiet_get : quiet get.
Proof. intros s. apply log_untouched_refl. Qed.

Lemma quiet_or_raise {A} e (o : option A) : quiet (or_raise e o).
Proof. destruct o; [apply quiet_ret | apply quiet_raise]. Qed.

Lemma quiet_admin_view_items items t : quiet (call (Admin.view_items items t)).
Proof.
  apply quiet_call. revert t.
  induction items as [|[pid details] items IH]; intros t w; simpl.
  - apply log_untouched_refl.
  - unfold_run.
    destruct (Admin.int_times_float _ _) as [v|]; simpl;
      [|apply log_untouched_refl].
    destruct (Admin.total_plus t v) as [t'|]; simpl;
      [|apply log_untouched_refl].
    destruct (quantity details <? 5)%Z; unfold ret; simpl.
    + eapply log_untouched_trans; [|apply IH].
      eapply log_untouched_trans; by apply log_untouched_emit.
    + eapply log_untouched_trans; [|apply IH].
      by apply log_untouched_emit.
Qed.

Lemma quiet_staff_view_items items : quiet (call (Staff.view_items items)).
Proof.
  apply quiet_call.
  induction items as [|[pid details] items IH]; intros w; simpl.
  - apply log_untouched_refl.
  - unfold_run. eapply log_untouched_trans; [|apply IH].
    by apply log_untouched_emit.
Qed.

(** Breaks a computation into the steps that leave the log untouched. *)
Ltac quiet_step :=
  lazymatch goal with
  | |- quiet (call (print _)) => apply quiet_print
  | |- quiet (call (input _)) => apply quiet_input
  | |- quiet (call (save_inventory _)) => apply quiet_save_inventory
  | |- quiet (call (Admin.view_items _ _)) => apply quiet_admin_view_items
  | |- quiet (call (Staff.view_items _)) => apply quiet_staff_view_items
  | |- quiet self_inventory => apply quiet_self_inventory
  | |- quiet (store_inventory _) => apply quiet_store_inventory
  | |- quiet get => apply quiet_get
  | |- quiet (or_raise _ _) => apply quiet_or_raise
  | |- quiet (mret _) => apply quiet_ret
  | |- quiet (try_except _ _ _) => apply quiet_try_except
  | |- quiet (_ ≫= _) => apply quiet_bind; [|intros ?]
  | |- quiet (if ?b then _ else _) => destruct b
  | |- quiet (match ?x with _ => _ end) => destruct x
  | |- quiet (let _ := _ in _) => cbv zeta
  end.

Ltac quiet_steps := repeat quiet_step.

Lemma quiet_run_admin op : quiet (run_admin unicode_decimal op).
Proof.
  destruct op; simpl.
  - unfold Admin.add_product. quiet_steps.
  - unfold Admin.view_products. quiet_steps.
  - unfold Admin.update_stock. quiet_steps.
  - unfold Admin.delete_product. quiet_steps.
  - unfold Admin.view_staff_logs. quiet_steps.
Qed.

Lemma quiet_staff_view_products : quiet Staff.view_products.
Proof. unfold Staff.view_products. quiet_steps. Qed.

Lemma quiet_run_admin_sequence ops :
  quiet (run_admin_sequence unicode_decimal ops).
Proof.
  induction ops as [|op ops IH]; simpl.
  - apply quiet_ret.
  - apply quiet_bind; [apply quiet_run_admin | intros _; exact IH].
Qed.

Lemma quiet_admin_loop rounds : quiet (admin_loop unicode_decimal rounds).
Proof.
  induction rounds as [|rounds IH]; simpl.
  - apply quiet_ret.
  - pose proof (quiet_run_admin AddProduct) as Hadd.
    pose proof (quiet_run_admin ViewProducts) as Hview.
    pose proof (quiet_run_admin UpdateStock) as Hupdate.
    pose proof (quiet_run_admin DeleteProduct) as Hdelete.
    pose proof (quiet_run_admin ViewStaffLogs) as Hlogs.
    simpl in Hadd, Hview, Hupdate, Hdelete, Hlogs.
    repeat first [ assumption | quiet_step ].
Qed.

Lemma then_loop_ends (m : method unit) (loop : method bool) (n : nat) s :
  quiet m ->
  (forall s', (length (stdin s'.2) < n)%nat -> (loop s').1 <> Ok false) ->
  (length (stdin s.2) < n)%nat ->
  ((m;; loop) s).1 <> Ok false.
Proof.
  intros Hm Hloop Hlt. unfold mbind, M_bind, bind.
  specialize (Hm s). destruct (m s) as [[[]|e] s']; simpl in *; [|done].
  apply Hloop. destruct Hm as (_ & _ & Hlen). lia.
Qed.

(** The loop of the administrator ends within as many rounds as there are
    input lines, plus one. *)
Lemma admin_loop_ends rounds : forall s,
  (length (stdin s.2) < rounds)%nat ->
  (admin_loop unicode_decimal rounds s).1 <> Ok false.
Proof.
  induction rounds as [|rounds IH]; intros [self w] Hlt; [simpl in Hlt; lia|].
  pose proof (quiet_run_admin AddProduct) as Hadd.
  pose proof (quiet_run_admin ViewProducts) as Hview.
  pose proof (quiet_run_admin UpdateStock) as Hupdate.
  pose proof (quiet_run_admin DeleteProduct) as Hdelete.
  pose proof (quiet_run_admin ViewStaffLogs) as Hlogs.
  simpl in Hadd, Hview, Hupdate, Hdelete, Hlogs.
  cbn [admin_loop]. simpl in Hlt.
  unfold mbind at 1 2. unfold M_bind at 1 2. unfold bind at 1 2.
  unfold call at 1 2. unfold print at 1. unfold modify at 1.
  unfold input at 1. cbn [fst snd stdin emit].
  destruct (stdin w) as [|choice rest] eqn:Hin; [done|].
  simpl in Hlt.
  assert (forall s', (length (stdin s'.2) < rounds)%nat ->
            (admin_loop unicode_decimal rounds s').1 <> Ok false) as Hloop
    by exact IH.
  repeat match goal with
  | |- context [bool_decide ?P] => destruct (bool_decide P)
  end;
  try (apply (then_loop_ends _ _ rounds);
       [first [assumption | apply quiet_print] | exact Hloop | simpl; lia]).
  done.
Qed.

(** C8: the operations of the administrator never write to the audit log.
    Through any number of rounds of the administrator's menu, and through
    any sequence of the administrator's operations, [staff_log.txt] keeps
    its content and no effect appends to a file; the menu loop ends within
    as many rounds as there are input lines, plus one.  On the side of the
    staff, [view_products] appends nothing, and [update_stock] appends
    only when it prints that the stock was updated. *)
Theorem admin_never_writes_the_audit_log (self : user) (w : world) :
  (forall rounds,
     let '(r, (self', w')) := admin_loop unicode_decimal rounds (self, w) in
     files w' !! "staff_log.txt" = files w !! "staff_log.txt"
     /\ appended (since w w') = []
     /\ ((length (stdin w) < rounds)%nat -> r <> Ok false))
  /\ (forall ops,
        let '(r, (self', w')) :=
          run_admin_sequence unicode_decimal ops (self, w) in
        files w' !! "staff_log.txt" = files w !! "staff_log.txt"
        /\ appended (since w w') = [])
  /\ (let '(r, (self', w')) := Staff.view_products (self, w) in
      appended (since w w') = [])
  /\ (let '(r, (self', w')) :=
        Staff.update_stock unicode_decimal (self, w) in
      appended (since w w') = []
      \/ check_mark ++ lit " Stock Updated!" ∈ printed (since w w')).
Proof.
  split; [|split; [|split]].
  - intros rounds.
    pose proof (quiet_admin_loop rounds (self, w)) as Hq.
    pose proof (admin_loop_ends rounds (self, w)) as Hend.
    destruct (admin_loop unicode_decimal rounds (self, w)) as [r [self' w']].
    simpl in *. split; [apply Hq|]. split; [|exact Hend].
    by apply log_untouched_since.
  - intros ops.
    pose proof (quiet_run_admin_sequence ops (self, w)) as Hq.
    destruct (run_admin_sequence unicode_decimal ops (self, w))
      as [r [self' w']].
    simpl in *. split; [apply Hq|]. by apply log_untouched_since.
  - pose proof (quiet_staff_view_products (self, w)) as Hq.
    destruct (Staff.view_products (self, w)) as [r [self' w']].
    simpl in *. by apply log_untouched_since.
  - pose proof (staff_update_stock_runs unicode_decimal self w) as Hrun.
    destruct (Staff.update_stock unicode_decimal (self, w))
      as [r [self' w']].
    inversion Hrun; subst; since_now; try (by left).
    right. simpl. apply elem_of_cons. by left.
Qed.

(** C9: when [inventory.json] does not exist, [load_inventory] returns the
    empty catalog, raises nothing and leaves the world as it is. *)
Theorem load_inventory_without_file (w : world) :
  files w !! "inventory.json" = None ->
  load_inventory w = (Ok [], w).
Proof.
  intros Hnone. unfold load_inventory. unfold_run. by rewrite Hnone.
Qed.

(** ** Stripping *)

Lemma lstrip_head s : head_not_space (lstrip s).
Proof.
  induction s as [|c s IH]; simpl; [done|].
  destruct (isspace c) eqn:Hc; [exact IH | exact Hc].
Qed.

Lemma lstrip_fixed s : head_not_space s -> lstrip s = s.
Proof. destruct s as [|c s]; simpl; [done|]. by intros ->. Qed.

Lemma lstrip_idemp s : lstrip (lstrip s) = lstrip s.
Proof. apply lstrip_fixed, lstrip_head. Qed.

Lemma lstrip_suffix s : exists sp, s = sp ++ lstrip s.
Proof.
  induction s as [|c s [sp IH]]; simpl.
  - by exists [].
  - destruct (isspace c).
    + exists (c :: sp). simpl. by f_equal.
    + by exists [].
Qed.

Lemma rstrip_prefix s : exists sp, s = rstrip s ++ sp.
Proof.
  unfold rstrip. destruct (lstrip_suffix (rev s)) as [sp Hsp].
  exists (rev sp). rewrite <- rev_app_distr, <- Hsp. by rewrite rev_involutive.
Qed.

Lemma head_not_space_prefix s t : head_not_space (s ++ t) -> head_not_space s.
Proof. by destruct s. Qed.

Lemma strip_idemp s : strip (strip s) = strip s.
Proof.
  unfold strip.
  assert (lstrip (rstrip (lstrip s)) = rstrip (lstrip s)) as ->.
  { apply lstrip_fixed. destruct (rstrip_prefix (lstrip s)) as [sp Hsp].
    apply (head_not_space_prefix _ sp). rewrite <- Hsp. apply lstrip_head. }
  unfold rstrip. rewrite rev_involutive. by rewrite lstrip_idemp.
Qed.

Lemma lstrip_all_space s : Forall (fun c => isspace c = true) s -> lstrip s = [].
Proof. induction 1 as [|c s Hc _ IH]; simpl; [done|]. by rewrite Hc. Qed.

Lemma strip_all_space s : Forall (fun c => isspace c = true) s -> strip s = [].
Proof. intros H. unfold strip. by rewrite (lstrip_all_space _ H). Qed.

Lemma add_product_done self w raw raw_name raw_quantity raw_price rest q p :
  stdin w = raw :: raw_name :: raw_quantity :: raw_price :: rest ->
  strip raw <> [] ->
  dict_get (strip raw) (inventory self) = None ->
  py_int unicode_decimal raw_quantity = Some q ->
  py_float unicode_decimal raw_price = Some p ->
  (0 <= q)%Z ->
  (p <? 0)%float = false ->
  let inv' :=
    dict_set (strip raw) (mkProduct (strip raw_name) q p) (inventory self) in
  Admin.add_product unicode_decimal (self, w)
  = (Ok tt,
     (set_inventory inv' self,
      emits [EvInput (lit "Enter Product ID: ");
             EvInput (lit "Enter Product Name: ");
             EvInput (lit "Enter Quantity: ");
             EvInput (lit "Enter Price: ");
             EvWrite "inventory.json" (saved_text inv');
             EvPrint (check_mark ++ lit " Product Added Successfully!")]
        (set_file "inventory.json" (saved_text inv') (set_stdin rest w)))).
Proof.
  intros Hin Hne Hget Hq Hp Hpos Hnonneg inv'.
  pose proof (add_product_runs unicode_decimal self w) as Hrun.
  destruct (Admin.add_product unicode_decimal (self, w)) as [r [self' w']].
  inversion Hrun; subst; same_input; contradictory; reflexivity.
Qed.

Lemma add_product_duplicate self w raw rest :
  stdin w = raw :: rest ->
  strip raw <> [] ->
  is_Some (dict_get (strip raw) (inventory self)) ->
  Admin.add_product unicode_decimal (self, w)
  = (Ok tt,
     (self,
      emits [EvInput (lit "Enter Product ID: ");
             EvPrint (warning_sign ++ lit " Product ID already exists!")]
        (set_stdin rest w))).
Proof.
  intros Hin Hne Hget.
  pose proof (add_product_runs unicode_decimal self w) as Hrun.
  destruct (Admin.add_product unicode_decimal (self, w)) as [r [self' w']].
  inversion Hrun; subst; same_input; contradictory; reflexivity.
Qed.

Lemma add_product_empty_id self w raw rest :
  stdin w = raw :: rest ->
  strip raw = [] ->
  Admin.add_product unicode_decimal (self, w)
  = (Ok tt,
     (self,
      emits [EvInput (lit "Enter Product ID: ");
             EvPrint (warning_sign ++ lit " Product ID cannot be empty!")]
        (set_stdin rest w))).
Proof.
  intros Hin Hs.
  pose proof (add_product_runs unicode_decimal self w) as Hrun.
  destruct (Admin.add_product unicode_decimal (self, w)) as [r [self' w']].
  inversion Hrun; subst; same_input; contradictory; reflexivity.
Qed.

(** C10: the product ID entered for [add_product], [delete_product] and
    the two [update_stock] is stripped of the blanks around it before
    anything else is done with it: each method runs on a line as it runs
    on the stripped line; [add_product] rejects an ID made of blanks as
    empty; and an ID that differs from one added before only in the blanks
    around it is rejected as a duplicate. *)
Theorem product_id_is_stripped (self : user) (w : world) (raw : pystr)
    (rest : list pystr) :
  (Admin.add_product unicode_decimal (self, set_stdin (raw :: rest) w)
   = Admin.add_product unicode_decimal (self, set_stdin (strip raw :: rest) w)
   /\ Admin.delete_product (self, set_stdin (raw :: rest) w)
      = Admin.delete_product (self, set_stdin (strip raw :: rest) w)
   /\ Admin.update_stock unicode_decimal (self, set_stdin (raw :: rest) w)
      = Admin.update_stock unicode_decimal
          (self, set_stdin (strip raw :: rest) w)
   /\ Staff.update_stock unicode_decimal (self, set_stdin (raw :: rest) w)
      = Staff.update_stock unicode_decimal
          (self, set_stdin (strip raw :: rest) w))
  /\ (Forall (fun c => isspace c = true) raw ->
      exists w',
        Admin.add_product unicode_decimal (self, set_stdin (raw :: rest) w)
        = (Ok tt, (self, w'))
        /\ printed (since w w')
           = [warning_sign ++ lit " Product ID cannot be empty!"])
  /\ (forall raw_name raw_quantity raw_price raw' rest' q p,
        rest = raw_name :: raw_quantity :: raw_price :: raw' :: rest' ->
        strip raw <> [] ->
        dict_get (strip raw) (inventory self) = None ->
        py_int unicode_decimal raw_quantity = Some q ->
        py_float unicode_decimal raw_price = Some p ->
        (0 <= q)%Z ->
        (p <? 0)%float = false ->
        strip raw' = strip raw ->
        exists self' w',
          (Admin.add_product unicode_decimal;;
           Admin.add_product unicode_decimal)
            (self, set_stdin (raw :: rest) w)
          = (Ok tt, (self', w'))
          /\ inventory self'
             = dict_set (strip raw) (mkProduct (strip raw_name) q p)
                 (inventory self)
          /\ printed (since w w')
             = [check_mark ++ lit " Product Added Successfully!";
                warning_sign ++ lit " Product ID already exists!"]).
Proof.
  split; [|split].
  - repeat split.
    + unfold Admin.add_product. unfold_run. cbn.
      by rewrite strip_idemp.
    + unfold Admin.delete_product. unfold_run. cbn.
      by rewrite strip_idemp.
    + unfold Admin.update_stock. unfold_run. cbn.
      by rewrite strip_idemp.
    + unfold Staff.update_stock. unfold_run. cbn.
      by rewrite strip_idemp.
  - intros Hsp%strip_all_space.
    rewrite (add_product_empty_id self (set_stdin (raw :: rest) w) raw rest
               eq_refl Hsp).
    eexists. split; [reflexivity|]. by since_now.
  - intros raw_name raw_quantity raw_price raw' rest' q p -> Hne Hget Hq Hp
      Hpos Hnonneg Hsame.
    unfold mbind, M_bind, bind.
    rewrite (add_product_done self
               (set_stdin (raw :: raw_name :: raw_quantity :: raw_price
                           :: raw' :: rest') w)
               raw raw_name raw_quantity raw_price
               (raw' :: rest') q p eq_refl Hne Hget Hq Hp Hpos Hnonneg).
    cbv zeta.
    erewrite (add_product_duplicate _ _ raw' rest'); [|reflexivity| |].
    + eexists _, _. split; [reflexivity|]. split; [reflexivity|].
      erewrite since_app by (simpl; rewrite <- ?app_assoc; reflexivity).
      reflexivity.
    + by rewrite Hsame.
    + simpl. rewrite dict_get_set, Hsame.
      destruct (decide (strip raw = strip raw)); [eauto | done].
Qed.

End Operations.


(** * Sessions: what the menu loops keep *)

Section Sessions.

Variable unicode_decimal : N -> option N.

(** ** Computations that keep a relation *)

Section Respects.

Variable R : relation (user * world).
Hypothesis HR : session_relation R.

Lemma respects_ret {A} (a : A) : respects R (mret a).
Proof. intros s. apply (session_refl R HR). Qed.

Lemma respects_bind {A B} (c : method A) (k : A -> method B) :
  respects R c -> (forall a, respects R (k a)) -> respects R (c ≫= k).
Proof.
  intros Hc Hk s. unfold mbind, M_bind, bind.
  specialize (Hc s). destruct (c s) as [[a|e] s']; simpl in *.
  - eapply (session_trans R HR); [exact Hc | apply Hk].
  - exact Hc.
Qed.

Lemma respects_only_prints {A} (m : method A) :
  only_prints m -> respects R m.
Proof.
  intros Hm s. destruct (Hm s) as (evs & -> & Hevs).
  by apply (session_prints R HR).
Qed.

End Respects.

(** ** Computations that only print *)

Lemma only_prints_print text : only_prints (call (print text)).
Proof.
  intros [self w]. exists [EvPrint text]. split; [done|]. by repeat constructor.
Qed.

Lemma admin_view_items_prints items : forall t w,
  exists evs,
    (Admin.view_items items t w).2 = emits evs w
    /\ Forall (fun e => is_print e = true) evs.
Proof.
  induction items as [|[pid details] items IH]; intros t w; simpl.
  - exists []. by rewrite emits_nil.
  - unfold_run.
    destruct (Admin.int_times_float _ _) as [v|]; simpl;
      [|exists []; by rewrite emits_nil].
    destruct (Admin.total_plus t v) as [t'|]; simpl;
      [|exists []; by rewrite emits_nil].
    destruct (quantity details <? 5)%Z; unfold ret; simpl.
    + edestruct IH as (evs & -> & Hevs).
      eexists (_ :: _ :: evs). rewrite !emit_emits, !emits_emits.
      split; [reflexivity|]. by repeat constructor.
    + edestruct IH as (evs & -> & Hevs).
      eexists (_ :: evs). rewrite !emit_emits, !emits_emits.
      split; [reflexivity|]. by repeat constructor.
Qed.

Lemma staff_view_items_runs items : forall w,
  Staff.view_items items w
  = (Ok tt,
     emits (map (fun kp => EvPrint (Staff.product_line kp.1 kp.2)) items) w).
Proof.
  induction items as [|[pid details] items IH]; intros w; simpl.
  - by rewrite emits_nil.
  - unfold_run. rewrite IH. by rewrite emit_emits, emits_emits.
Qed.

Lemma only_prints_admin_view_products : only_prints Admin.view_products.
Proof.
  intros [self w]. unfold Admin.view_products. unfold_run. cbn.
  destruct (inventory self) as [|kp items] eqn:Hinv.
  - eexists [_]. split; [reflexivity|]. by repeat constructor.
  - destruct (admin_view_items_prints (kp :: items) (Admin.IntTotal 0)
                (emit (EvPrint ([10] ++ lit "--- Product List ---")) w))
      as (evs & Hw & Hevs).
    destruct (Admin.view_items (kp :: items) _ _) as [[t|e] w'];
      simpl in Hw; subst w'; cbn.
    + eexists (_ :: evs ++ [_]).
      rewrite !emit_emits, !emits_emits.
      split; [reflexivity|].
      constructor; [done|]. apply Forall_app. by repeat constructor.
    + eexists (_ :: evs). rewrite !emit_emits, !emits_emits.
      split; [reflexivity|]. by constructor.
Qed.

Lemma only_prints_staff_view_products : only_prints Staff.view_products.
Proof.
  intros [self w]. unfold Staff.view_products. unfold_run. cbn.
  destruct (inventory self) as [|kp items] eqn:Hinv.
  - eexists [_]. split; [reflexivity|]. by repeat constructor.
  - rewrite staff_view_items_runs. cbn.
    eexists (_ :: _). rewrite !emit_emits, !emits_emits.
    split; [reflexivity|]. constructor; [done|].
    constructor; [done|]. apply List.Forall_map. by apply Forall_true.
Qed.

Lemma only_prints_view_staff_logs : only_prints Admin.view_staff_logs.
Proof.
  intros [self w]. unfold Admin.view_staff_logs. unfold_run. cbn.
  destruct (files w !! "staff_log.txt") as [text|]; cbn.
  - eexists [_; _]. rewrite !emit_emits, !emits_emits.
    split; [reflexivity|]. by repeat constructor.
  - eexists [_]. split; [reflexivity|]. by repeat constructor.
Qed.

(** ** The menu loops *)

Section Loops.

Variable R : relation (user * world).
Hypothesis HR : session_relation R.

Lemma respects_print text : respects R (call (print text)).
Proof. apply (respects_only_prints R HR), only_prints_print. Qed.

Lemma respects_staff_loop :
  respects R (Staff.update_stock unicode_decimal) ->
  forall rounds, respects R (staff_loop unicode_decimal rounds).
Proof.
  intros Hupdate. induction rounds as [|rounds IH]; simpl.
  - by apply respects_ret.
  - apply (respects_bind R HR); [apply respects_print|intros _].
    apply (respects_bind R HR); [apply (session_input R HR)|intros choice].
    repeat match goal with
    | |- context [bool_decide ?P] => destruct (bool_decide P)
    end.
    + apply (respects_bind R HR); [|by intros _].
      apply (respects_only_prints R HR), only_prints_staff_view_products.
    + by apply (respects_bind R HR).
    + by apply respects_ret.
    + apply (respects_bind R HR); [apply respects_print|by intros _].
Qed.

Lemma respects_admin_loop :
  respects R (Admin.add_product unicode_decimal) ->
  respects R (Admin.update_stock unicode_decimal) ->
  respects R Admin.delete_product ->
  forall rounds, respects R (admin_loop unicode_decimal rounds).
Proof.
  intros Hadd Hupdate Hdelete. induction rounds as [|rounds IH]; simpl.
  - by apply respects_ret.
  - apply (respects_bind R HR); [apply respects_print|intros _].
    apply (respects_bind R HR); [apply (session_input R HR)|intros choice].
    repeat match goal with
    | |- context [bool_decide ?P] => destruct (bool_decide P)
    end.
    + by apply (respects_bind R HR).
    + apply (respects_bind R HR); [|by intros _].
      apply (respects_only_prints R HR), only_prints_admin_view_products.
    + by apply (respects_bind R HR).
    + by apply (respects_bind R HR).
    + apply (respects_bind R HR); [|by intros _].
      apply (respects_only_prints R HR), only_prints_view_staff_logs.
    + by apply respects_ret.
    + apply (respects_bind R HR); [apply respects_print|by intros _].
Qed.

(** The operations that change the catalog keep a relation that holds
    along every path of their runs. *)
Lemma respects_add_product :
  (forall self w r self' w',
     add_product_run unicode_decimal self w r self' w' ->
     R (self, w) (self', w')) ->
  respects R (Admin.add_product unicode_decimal).
Proof.
  intros Hrun [self w]. pose proof (add_product_runs unicode_decimal self w) as H.
  destruct (Admin.add_product unicode_decimal (self, w)) as [r [self' w']].
  by apply (Hrun _ _ r).
Qed.

Lemma respects_delete_product :
  (forall self w r self' w',
     delete_product_run self w r self' w' -> R (self, w) (self', w')) ->
  respects R Admin.delete_product.
Proof.
  intros Hrun [self w]. pose proof (delete_product_runs self w) as H.
  destruct (Admin.delete_product (self, w)) as [r [self' w']].
  by apply (Hrun _ _ r).
Qed.

Lemma respects_admin_update_stock :
  (forall self w r self' w',
     update_stock_run unicode_decimal false self w r self' w' ->
     R (self, w) (self', w')) ->
  respects R (Admin.update_stock unicode_decimal).
Proof.
  intros Hrun [self w].
  pose proof (admin_update_stock_runs unicode_decimal self w) as H.
  destruct (Admin.update_stock unicode_decimal (self, w)) as [r [self' w']].
  by apply (Hrun _ _ r).
Qed.

Lemma respects_staff_update_stock :
  (forall self w r self' w',
     update_stock_run unicode_decimal true self w r self' w' ->
     R (self, w) (self', w')) ->
  respects R (Staff.update_stock unicode_decimal).
Proof.
  intros Hrun [self w].
  pose proof (staff_update_stock_runs unicode_decimal self w) as H.
  destruct (Staff.update_stock unicode_decimal (self, w)) as [r [self' w']].
  by apply (Hrun _ _ r).
Qed.

End Loops.

(** ** The staff change quantities only *)

Lemma same_products_refl inv : same_products inv inv.
Proof. induction inv; by constructor. Qed.

Lemma same_products_trans inv1 inv2 inv3 :
  same_products inv1 inv2 -> same_products inv2 inv3 ->
  same_products inv1 inv3.
Proof.
  intros H12. revert inv3.
  induction H12 as [|x y l1 l2 (H1 & H2 & H3) _ IH]; intros inv3 H23;
    inversion H23 as [|y' z l2' l3 (H4 & H5 & H6) Hrest]; subst;
    constructor; [|by apply IH].
  repeat split; congruence.
Qed.

Lemma same_products_dict_set k q details inv :
  dict_get k inv = Some details ->
  same_products inv (dict_set k (set_quantity q details) inv).
Proof.
  induction inv as [|[k' v'] inv IH]; simpl; [done|].
  destruct (decide (k = k')) as [->|Hne].
  - intros [= ->]. constructor; [done|]. apply same_products_refl.
  - intros Hget. constructor; [done|]. by apply IH.
Qed.

Lemma call_input_object prompt self w :
  (call (input prompt) (self, w)).2.1 = self.
Proof. unfold call, input. simpl. by destruct (stdin w). Qed.

Lemma products_kept_session : session_relation products_kept.
Proof.
  split; unfold products_kept.
  - intros s. apply same_products_refl.
  - intros s1 s2 s3. apply same_products_trans.
  - intros s evs _. apply same_products_refl.
  - intros prompt [self w]. rewrite call_input_object.
    apply same_products_refl.
Qed.

Lemma staff_update_stock_keeps_products :
  respects products_kept (Staff.update_stock unicode_decimal).
Proof.
  apply respects_staff_update_stock. unfold products_kept.
  intros self w r self' w' Hrun.
  inversion Hrun; subst; simpl; try apply same_products_refl.
  by apply same_products_dict_set.
Qed.

(** X1: Whatever is typed in the menu of the staff, the catalog of the object
    keeps its IDs in their order, and the name and the price of every
    product: a staff member can neither add nor delete a product, nor
    rename or reprice one. *)
Theorem staff_session_changes_quantities_only (rounds : nat) (self : user)
    (w : world) :
  same_products (inventory self)
    (inventory (staff_loop unicode_decimal rounds (self, w)).2.1).
Proof.
  apply (respects_staff_loop products_kept products_kept_session
           staff_update_stock_keeps_products rounds (self, w)).
Qed.

(** ** The audit trail of the staff *)


Lemma catalog_writes_app evs evs' :
  catalog_writes (evs ++ evs') = catalog_writes evs ++ catalog_writes evs'.
Proof. apply omap_app. Qed.

Lemma prints_log_lines evs :
  Forall (fun e => is_print e = true) evs ->
  log_lines evs = [] /\ catalog_writes evs = [].
Proof.
  induction 1 as [|e evs He _ [IH1 IH2]]; [done|].
  destruct e; try done; simpl; by rewrite IH1, IH2.
Qed.






(** ** The file and the catalog of the object *)

Lemma in_step_session : session_relation in_step.
Proof.
  split; unfold in_step, synced.
  - intros s. by left.
  - intros s1 s2 s3 [[Hi Hf]|Hs] [[Hi' Hf']|Hs']; try (by right).
    + left. split; congruence.
    + right. congruence.
  - intros s evs _. by left.
  - intros prompt [self w]. left. unfold call, input. simpl.
    by destruct (stdin w).
Qed.

Lemma add_product_in_step :
  respects in_step (Admin.add_product unicode_decimal).
Proof.
  apply respects_add_product. intros self w r self' w' Hrun.
  inversion Hrun; subst; try (by left).
  right. unfold synced. simpl. by rewrite lookup_insert.
Qed.

Lemma delete_product_in_step : respects in_step Admin.delete_product.
Proof.
  apply respects_delete_product. intros self w r self' w' Hrun.
  inversion Hrun; subst; try (by left).
  right. unfold synced. simpl. by rewrite lookup_insert.
Qed.

Lemma update_stock_in_step logged self w r self' w' :
  update_stock_run unicode_decimal logged self w r self' w' ->
  in_step (self, w) (self', w').
Proof.
  intros Hrun. inversion Hrun; subst; try (by left).
  right. unfold synced. destruct logged; simpl.
  - rewrite lookup_insert_ne by done. by rewrite lookup_insert.
  - by rewrite lookup_insert.
Qed.

(** X3: Through a session of the administrator or of the staff, either
    nothing has changed the catalog and its file, or [inventory.json]
    holds the very catalog of the object: the two never drift apart. *)
Theorem sessions_keep_the_file_in_step (rounds : nat) (self : user)
    (w : world) :
  in_step (self, w) (admin_loop unicode_decimal rounds (self, w)).2
  /\ in_step (self, w) (staff_loop unicode_decimal rounds (self, w)).2.
Proof.
  split.
  - apply (respects_admin_loop in_step in_step_session).
    + apply add_product_in_step.
    + apply respects_admin_update_stock, update_stock_in_step.
    + apply delete_product_in_step.
  - apply (respects_staff_loop in_step in_step_session).
    apply respects_staff_update_stock, update_stock_in_step.
Qed.

(** ** The sessions end *)

Lemma consumes_session : session_relation consumes.
Proof.
  split; unfold consumes.
  - done.
  - intros s1 s2 s3. lia.
  - done.
  - intros prompt [self w]. unfold call, input. simpl.
    destruct (stdin w) eqn:Hin; simpl; rewrite ?Hin; simpl; lia.
Qed.

Lemma update_stock_consumes logged self w r self' w' :
  update_stock_run unicode_decimal logged self w r self' w' ->
  consumes (self, w) (self', w').
Proof.
  unfold consumes. intros Hrun.
  inversion Hrun as [Hin|? ? Hin|? Hin|? ? ? Hin|? ? ? ? Hin|? ? ? ? ? Hin];
    subst; simpl; rewrite ?Hin; simpl; try lia.
  destruct logged; simpl; lia.
Qed.

Lemma staff_update_stock_consumes :
  respects consumes (Staff.update_stock unicode_decimal).
Proof. apply respects_staff_update_stock, update_stock_consumes. Qed.

Lemma then_loop_stops (m : method unit) (loop : method bool) (n : nat) s :
  respects consumes m ->
  (forall s', (length (stdin s'.2) < n)%nat -> (loop s').1 <> Ok false) ->
  (length (stdin s.2) < n)%nat ->
  ((m;; loop) s).1 <> Ok false.
Proof.
  intros Hm Hloop Hlt. unfold mbind, M_bind, bind.
  specialize (Hm s). unfold consumes in Hm.
  destruct (m s) as [[[]|e] s']; simpl in *; [|done].
  apply Hloop. lia.
Qed.

(** The loop of the staff ends within as many rounds as there are input
    lines, plus one. *)
Lemma staff_loop_ends rounds : forall s,
  (length (stdin s.2) < rounds)%nat ->
  (staff_loop unicode_decimal rounds s).1 <> Ok false.
Proof.
  induction rounds as [|rounds IH]; intros [self w] Hlt; [simpl in Hlt; lia|].
  cbn [staff_loop]. simpl in Hlt.
  unfold mbind at 1 2. unfold M_bind at 1 2. unfold bind at 1 2.
  unfold call at 1 2. unfold print at 1. unfold modify at 1.
  unfold input at 1. cbn [fst snd stdin emit].
  destruct (stdin w) as [|choice rest] eqn:Hin; [done|].
  simpl in Hlt.
  repeat match goal with
  | |- context [bool_decide ?P] => destruct (bool_decide P)
  end;
  try (apply (then_loop_stops _ _ rounds);
       [first [ apply staff_update_stock_consumes
              | apply (respects_only_prints consumes consumes_session),
                  only_prints_staff_view_products
              | apply (respects_print consumes consumes_session) ]
       | exact IH | simpl; lia]).
  done.
Qed.

Lemma load_inventory_world w : (load_inventory w).2 = w.
Proof.
  unfold load_inventory. unfold_run.
  destruct (files w !! "inventory.json") as [text|]; [|done].
  destruct (json_loads text) as [j|]; [|done]. simpl.
  by destruct (inventory_of_json j).
Qed.

Lemma load_inventory_fresh lines :
  load_inventory (sample_world lines ∅) = (Ok [], sample_world lines ∅).
Proof. unfold load_inventory. unfold_run. simpl. by rewrite lookup_empty. Qed.

Lemma on_result {A} self (m : method A) w : (on self m w).1 = (m (self, w)).1.
Proof. unfold on. by destruct (m (self, w)) as [r [self' w']]. Qed.

(** ** The main function *)

(** What [main] does up to the login, when the catalog can be loaded. *)
Lemma main_login rounds w inv role username password rest :
  load_inventory w = (Ok inv, w) ->
  stdin w = role :: username :: password :: rest ->
  let w' :=
    emits [EvPrint (lit "Who are you?"); EvPrint (lit "1. Admin");
           EvPrint (lit "2. Staff"); EvInput (lit "Enter choice: ");
           EvInput (lit "Enter username: ");
           EvInput (lit "Enter password: ")] (set_stdin rest w) in
  let admin := mkUser (lit "admin") (lit "1234") (lit "admin") inv in
  let staff := mkUser (lit "staff") (lit "1111") (lit "staff") inv in
  main unicode_decimal rounds w
  = if bool_decide (role = lit "1") && authenticate admin username password
    then on admin (admin_loop unicode_decimal rounds) w'
    else if bool_decide (role = lit "2")
            && authenticate staff username password
    then on staff (staff_loop unicode_decimal rounds) w'
    else (Ok true, emit (EvPrint (lit "Authentication Failed!")) w').
Proof.
  intros Hload Hin w' admin staff.
  unfold main, Admin.init, Staff.init.
  unfold mbind at 1. unfold M_bind at 1. unfold bind at 1.
  unfold mbind at 1. unfold M_bind at 1. unfold bind at 1.
  rewrite Hload. unfold mret at 1. unfold M_ret at 1. unfold ret at 1.
  unfold mbind at 1. unfold M_bind at 1. unfold bind at 1.
  unfold mbind at 1. unfold M_bind at 1. unfold bind at 1.
  rewrite Hload. unfold mret at 1. unfold M_ret at 1. unfold ret at 1.
  fold admin staff.
  unfold_run. unfold input. simpl. rewrite Hin. simpl.
  match goal with
  | |- _ ?x = _ =>
      assert (x = w') as ->
        by (unfold w'; apply world_eq; simpl; rewrite <- ?app_assoc;
            reflexivity)
  end.
  destruct (bool_decide (role = lit "1") && authenticate admin _ _); [done|].
  by destruct (bool_decide (role = lit "2") && authenticate staff _ _).
Qed.

Lemma main_load_fails rounds w e :
  (load_inventory w).1 = Raise e ->
  main unicode_decimal rounds w = (Raise e, w).
Proof.
  intros Hload. pose proof (load_inventory_world w) as Hw.
  unfold main, Admin.init.
  unfold mbind at 1. unfold M_bind at 1. unfold bind at 1.
  unfold mbind at 1. unfold M_bind at 1. unfold bind at 1.
  destruct (load_inventory w) as [r w1]. simpl in *. by subst.
Qed.

(** X4: [main] ends for every input: each round of a menu reads a line, so
    with as many rounds as there are input lines the program has
    returned or has raised an exception. *)
Theorem main_ends (rounds : nat) (w : world) :
  (length (stdin w) <= rounds)%nat ->
  (main unicode_decimal rounds w).1 <> Ok false.
Proof.
  intros Hlen. pose proof (load_inventory_world w) as Hw.
  destruct (load_inventory w) as [[inv|e] w1] eqn:Hload; simpl in Hw; subst w1.
  - destruct (stdin w) as [|role [|username [|password rest]]] eqn:Hin.
    1-3: unfold main, Admin.init, Staff.init; unfold_run;
         rewrite Hload; simpl; rewrite Hload; unfold input; simpl;
         rewrite ?Hin; simpl; done.
    rewrite (main_login rounds w inv role username password rest Hload Hin).
    simpl in Hlen.
    repeat match goal with
    | |- context [if ?b then _ else _] => destruct b
    end; [| |done].
    + rewrite on_result. apply admin_loop_ends. simpl. lia.
    + rewrite on_result. apply staff_loop_ends. simpl. lia.
  - rewrite (main_load_fails rounds w e); [done|]. by rewrite Hload.
Qed.

(** X5: With a role, a user name and a password that are not those of the
    administrator with role [1] or of the staff with role [2], [main]
    prints that the authentication failed and returns: it shows no menu,
    reads no further line and writes no file. *)
Theorem wrong_credentials_open_no_menu (rounds : nat) (w : world)
    (inv : dict product) (role username password : pystr)
    (rest : list pystr) :
  load_inventory w = (Ok inv, w) ->
  stdin w = role :: username :: password :: rest ->
  ~ (role = lit "1" /\ username = lit "admin" /\ password = lit "1234") ->
  ~ (role = lit "2" /\ username = lit "staff" /\ password = lit "1111") ->
  exists w',
    main unicode_decimal rounds w = (Ok true, w')
    /\ printed (since w w')
       = [lit "Who are you?"; lit "1. Admin"; lit "2. Staff";
          lit "Authentication Failed!"]
    /\ Forall (fun e => is_file_write e = false) (since w w')
    /\ files w' = files w
    /\ stdin w' = rest.
Proof.
  intros Hload Hin Hadmin Hstaff.
  rewrite (main_login rounds w inv role username password rest Hload Hin).
  unfold authenticate. simpl.
  destruct (bool_decide (role = lit "1")
            && (bool_decide (lit "admin" = username)
                && bool_decide (lit "1234" = password))) eqn:H1.
  { exfalso. apply Hadmin.
    apply andb_true_iff in H1 as [H1 H2].
    apply andb_true_iff in H2 as [H2 H3].
    apply bool_decide_eq_true_1 in H1, H2, H3. by subst. }
  destruct (bool_decide (role = lit "2")
            && (bool_decide (lit "staff" = username)
                && bool_decide (lit "1111" = password))) eqn:H2.
  { exfalso. apply Hstaff.
    apply andb_true_iff in H2 as [H2 H3].
    apply andb_true_iff in H3 as [H3 H4].
    apply bool_decide_eq_true_1 in H2, H3, H4. by subst. }
  eexists. split; [reflexivity|].
  rewrite emit_emits, emits_emits. since_now.
  split; [reflexivity|]. split; [by repeat constructor|]. done.
Qed.

(** X6: When [inventory.json] exists and does not hold JSON (an empty file,
    for one), [main] raises [ValueError] before it prints or reads
    anything: the program does not start on a damaged catalog file. *)
Theorem damaged_catalog_stops_main (rounds : nat) (w : world)
    (text : pystr) :
  files w !! "inventory.json" = Some text ->
  json_loads text = None ->
  load_inventory w = (Raise ValueError, w)
  /\ main unicode_decimal rounds w = (Raise ValueError, w).
Proof.
  intros Hfile Hjson.
  assert (load_inventory w = (Raise ValueError, w)) as Hload.
  { unfold load_inventory. unfold_run. by rewrite Hfile, Hjson. }
  split; [done|]. apply main_load_fails. by rewrite Hload.
Qed.

(** ** Operations one after the other *)

Lemma dict_del_get {V} k (d d' : dict V) :
  dict_del k d = Some d' -> is_Some (dict_get k d).
Proof.
  revert d'. induction d as [|[k' v'] d IH]; simpl; intros d'; [done|].
  destruct (decide (k = k')); [eauto|].
  destruct (dict_del k d) as [d''|]; [|done]. intros _. by eapply IH.
Qed.

Lemma dict_del_set_absent {V} k (v : V) d :
  dict_get k d = None -> dict_del k (dict_set k v d) = Some d.
Proof.
  induction d as [|[k' v'] d IH]; simpl.
  - intros _. by destruct (decide (k = k)).
  - destruct (decide (k = k')) as [->|Hne]; [done|]. intros Hget. simpl.
    destruct (decide (k = k')); [done|]. by rewrite IH.
Qed.

Lemma dict_set_set {V} k (v1 v2 : V) d :
  dict_set k v2 (dict_set k v1 d) = dict_set k v2 d.
Proof.
  induction d as [|[k' v'] d IH]; simpl.
  - by destruct (decide (k = k)).
  - destruct (decide (k = k')) as [->|Hne]; simpl.
    + by destruct (decide (k' = k')).
    + destruct (decide (k = k')); [done|]. by rewrite IH.
Qed.

Lemma delete_product_done self w raw rest inv' :
  stdin w = raw :: rest ->
  dict_del (strip raw) (inventory self) = Some inv' ->
  Admin.delete_product (self, w)
  = (Ok tt,
     (set_inventory inv' self,
      emits [EvInput (lit "Enter Product ID to delete: ");
             EvWrite "inventory.json" (saved_text inv');
             EvPrint (wastebasket ++ lit " Product Deleted Successfully!")]
        (set_file "inventory.json" (saved_text inv') (set_stdin rest w)))).
Proof.
  intros Hin Hdel. pose proof (dict_del_get _ _ _ Hdel) as Hsome.
  pose proof (delete_product_runs self w) as Hrun.
  destruct (Admin.delete_product (self, w)) as [r [self' w']].
  inversion Hrun; subst; same_input; contradictory; reflexivity.
Qed.

Lemma update_stock_done_runs (logged : bool) self w raw raw_quantity rest q
    details :
  stdin w = raw :: raw_quantity :: rest ->
  dict_get (strip raw) (inventory self) = Some details ->
  py_int unicode_decimal raw_quantity = Some q ->
  (0 <= q)%Z ->
  exists w',
    (if logged then Staff.update_stock unicode_decimal
     else Admin.update_stock unicode_decimal) (self, w)
    = (Ok tt,
       (set_inventory
          (dict_set (strip raw) (set_quantity q details) (inventory self))
          self, w'))
    /\ stdin w' = rest
    /\ files w' !! "inventory.json"
       = Some (saved_text
                 (dict_set (strip raw) (set_quantity q details)
                    (inventory self)))
    /\ staff_log w'
       = if logged
         then staff_log w
              ++ log_line w (Staff.update_action (strip raw) q)
         else staff_log w.
Proof.
  intros Hin Hget Hq Hpos.
  assert (forall r self' w',
            update_stock_run unicode_decimal logged self w r self' w' ->
            r = Ok tt
            /\ self' = set_inventory
                 (dict_set (strip raw) (set_quantity q details)
                    (inventory self)) self
            /\ stdin w' = rest
            /\ files w' !! "inventory.json"
               = Some (saved_text
                         (dict_set (strip raw) (set_quantity q details)
                            (inventory self)))
            /\ staff_log w'
               = if logged
                 then staff_log w
                      ++ log_line w (Staff.update_action (strip raw) q)
                 else staff_log w) as Hpath.
  { intros r self' w' Hrun.
    inversion Hrun; subst; same_input; contradictory.
    destruct logged; simpl; unfold staff_log; simpl.
    - rewrite lookup_insert_eq. rewrite lookup_insert_ne by done.
      by rewrite lookup_insert_eq.
    - rewrite lookup_insert_eq. by rewrite lookup_insert_ne. }
  destruct logged.
  - pose proof (staff_update_stock_runs unicode_decimal self w) as Hrun.
    destruct (Staff.update_stock unicode_decimal (self, w))
      as [r [self' w']].
    destruct (Hpath _ _ _ Hrun) as (-> & -> & H1 & H2 & H3). by exists w'.
  - pose proof (admin_update_stock_runs unicode_decimal self w) as Hrun.
    destruct (Admin.update_stock unicode_decimal (self, w))
      as [r [self' w']].
    destruct (Hpath _ _ _ Hrun) as (-> & -> & H1 & H2 & H3). by exists w'.
Qed.

(** X7: A product that is added and then deleted leaves the catalog as it
    was before the two operations, in the object and in
    [inventory.json]. *)
Theorem add_then_delete_restores_the_catalog (self : user) (w : world)
    (raw raw_name raw_quantity raw_price raw' : pystr) (rest : list pystr)
    (q : Z) (p : float) :
  stdin w = raw :: raw_name :: raw_quantity :: raw_price :: raw' :: rest ->
  strip raw <> [] ->
  dict_get (strip raw) (inventory self) = None ->
  py_int unicode_decimal raw_quantity = Some q ->
  py_float unicode_decimal raw_price = Some p ->
  (0 <= q)%Z ->
  (p <? 0)%float = false ->
  strip raw' = strip raw ->
  exists self' w',
    (Admin.add_product unicode_decimal;; Admin.delete_product) (self, w)
    = (Ok tt, (self', w'))
    /\ inventory self' = inventory self
    /\ files w' !! "inventory.json" = Some (saved_text (inventory self))
    /\ stdin w' = rest.
Proof.
  intros Hin Hne Hget Hq Hp Hpos Hneg Hsame.
  unfold mbind, M_bind, bind.
  rewrite (add_product_done unicode_decimal self w _ _ _ _ _ q p
             Hin Hne Hget Hq Hp Hpos Hneg).
  cbv zeta.
  erewrite delete_product_done; [|reflexivity|].
  - do 2 eexists. split; [reflexivity|]. simpl.
    split; [reflexivity|]. split; [|done]. by rewrite lookup_insert_eq.
  - simpl. rewrite Hsame. by apply dict_del_set_absent.
Qed.

(** X8: Of two updates of the stock of the same product, the second one
    decides: the catalog in the object and the one in [inventory.json]
    are as if only the second update had been made. *)
Theorem update_stock_twice_keeps_the_last (logged : bool) (self : user)
    (w : world) (raw raw_quantity raw' raw_quantity' : pystr)
    (rest : list pystr) (details : product) (q q' : Z) :
  let update_stock :=
    if logged then Staff.update_stock unicode_decimal
    else Admin.update_stock unicode_decimal in
  stdin w = raw :: raw_quantity :: raw' :: raw_quantity' :: rest ->
  dict_get (strip raw) (inventory self) = Some details ->
  strip raw' = strip raw ->
  py_int unicode_decimal raw_quantity = Some q ->
  py_int unicode_decimal raw_quantity' = Some q' ->
  (0 <= q)%Z -> (0 <= q')%Z ->
  exists self' w',
    (update_stock;; update_stock) (self, w) = (Ok tt, (self', w'))
    /\ inventory self'
       = dict_set (strip raw) (set_quantity q' details) (inventory self)
    /\ files w' !! "inventory.json" = Some (saved_text (inventory self'))
    /\ stdin w' = rest.
Proof.
  intros update_stock Hin Hget Hsame Hq Hq' Hpos Hpos'.
  destruct (update_stock_done_runs logged self w raw raw_quantity
              (raw' :: raw_quantity' :: rest) q details Hin Hget Hq Hpos)
    as (w1 & Hrun1 & Hin1 & _).
  set (inv1 := dict_set (strip raw) (set_quantity q details) (inventory self))
    in *.
  destruct (update_stock_done_runs logged (set_inventory inv1 self) w1 raw'
              raw_quantity' rest q' (set_quantity q details) Hin1)
    as (w2 & Hrun2 & Hin2 & Hfile2 & _); [| done | done |].
  { simpl. rewrite Hsame. unfold inv1. rewrite dict_get_set.
    by destruct (decide (strip raw = strip raw)). }
  exists (set_inventory
            (dict_set (strip raw') (set_quantity q' (set_quantity q details))
               inv1) (set_inventory inv1 self)), w2.
  unfold mbind, M_bind, bind. unfold update_stock.
  rewrite Hrun1, Hrun2. split; [done|].
  simpl in *. rewrite Hsame in *. unfold inv1 in *.
  rewrite dict_set_set in *. done.
Qed.


(** ** Exceptions *)

(** X10: The operations that change the catalog raise nothing but [EOFError],
    and that only when the input ends before they have read what they
    ask for: the object and the files are then as before.  With four
    lines of input left, each of them returns. *)
Theorem mutations_raise_at_end_of_input_only (m : mutation) (self : user)
    (w : world) :
  let '(r, (self', w')) := run_mutation unicode_decimal m (self, w) in
  (r = Ok tt
   \/ (r = Raise EOFError /\ stdin w' = [] /\ self' = self
       /\ files w' = files w
       /\ Forall (fun e => is_file_write e = false) (since w w')))
  /\ ((4 <= length (stdin w))%nat -> r = Ok tt).
Proof.
  assert (forall logged r self' w',
            update_stock_run unicode_decimal logged self w r self' w' ->
            (r = Ok tt
             \/ (r = Raise EOFError /\ stdin w' = [] /\ self' = self
                 /\ files w' = files w
                 /\ Forall (fun e => is_file_write e = false) (since w w')))
            /\ ((4 <= length (stdin w))%nat -> r = Ok tt)) as Hupdate.
  { intros logged r self' w' Hrun.
    inversion Hrun as [Hin|? ? Hin|? Hin|? ? ? Hin|? ? ? ? Hin|? ? ? ? ? Hin];
      subst; (split; [|rewrite Hin; simpl; first [done|lia]]);
      first [by left | right]; since_now; simpl;
      repeat split; try done; by repeat constructor. }
  destruct m; simpl.
  - pose proof (add_product_runs unicode_decimal self w) as Hrun.
    destruct (Admin.add_product unicode_decimal (self, w)) as [r [self' w']].
    inversion Hrun as [Hin|? ? Hin|? ? Hin|? Hin|? ? Hin|? ? ? ? Hin|? ? ? ? Hin
                      |? ? ? ? ? ? Hin|? ? ? ? ? ? ? Hin|? ? ? ? ? ? ? Hin];
      subst; (split; [|rewrite Hin; simpl; first [done|lia]]);
      first [by left | right]; since_now; simpl;
      repeat split; try done; by repeat constructor.
  - pose proof (admin_update_stock_runs unicode_decimal self w) as Hrun.
    destruct (Admin.update_stock unicode_decimal (self, w))
      as [r [self' w']].
    by eapply Hupdate.
  - pose proof (delete_product_runs self w) as Hrun.
    destruct (Admin.delete_product (self, w)) as [r [self' w']].
    inversion Hrun as [Hin|? ? Hin|? ? ? Hin];
      subst; (split; [|rewrite Hin; simpl; first [done|lia]]);
      first [by left | right]; since_now; simpl;
      repeat split; try done; by repeat constructor.
  - pose proof (staff_update_stock_runs unicode_decimal self w) as Hrun.
    destruct (Staff.update_stock unicode_decimal (self, w))
      as [r [self' w']].
    by eapply Hupdate.
Qed.

(** ** The view of the staff *)


(** ** The invariant through a session *)

Lemma dict_get_elem_of {V} k (v : V) d :
  dict_get k d = Some v -> (k, v) ∈ d.
Proof.
  induction d as [|[k0 v0] d IH]; simpl; [done|].
  destruct (decide (k = k0)) as [<-|].
  - intros [= ->]. apply elem_of_cons. by left.
  - intros H. apply elem_of_cons. right. by apply IH.
Qed.

Lemma invariant_kept_session : session_relation invariant_kept.
Proof.
  split; unfold invariant_kept.
  - done.
  - intros s1 s2 s3 H12 H23 H1. by apply H23, H12.
  - done.
  - intros prompt [self w]. by rewrite call_input_object.
Qed.

Lemma update_stock_keeps_invariant logged self w r self' w' :
  update_stock_run unicode_decimal logged self w r self' w' ->
  invariant_kept (self, w) (self', w').
Proof.
  unfold invariant_kept.
  intros Hrun [Hnd Hall].
  inversion Hrun as [| | | | |raw rq rest q details Hin Hget Hq Hpos];
    subst; try by split.
  simpl. split; [by apply NoDup_keys_dict_set|].
  apply Forall_dict_set; [done|].
  apply dict_get_elem_of in Hget.
  rewrite Forall_forall in Hall. destruct (Hall _ Hget) as (? & ? & ?).
  simpl in *. done.
Qed.

Lemma add_product_keeps_invariant :
  respects invariant_kept (Admin.add_product unicode_decimal).
Proof.
  apply respects_add_product. unfold invariant_kept.
  intros self w r self' w' Hrun [Hnd Hall].
  inversion Hrun; subst; try by split.
  simpl. split; [by apply NoDup_keys_dict_set|].
  apply Forall_dict_set; [done|]. simpl. done.
Qed.

Lemma delete_product_keeps_invariant :
  respects invariant_kept Admin.delete_product.
Proof.
  apply respects_delete_product. unfold invariant_kept.
  intros self w r self' w' Hrun [Hnd Hall].
  inversion Hrun as [| |raw rest inv' Hin Hsome Hdel]; subst; try by split.
  destruct (dict_del_split _ _ _ Hdel)
    as (before & v & after & Heq & -> & Hnotin).
  simpl in *. rewrite Heq in *.
  split; [by eapply NoDup_keys_remove | by eapply Forall_remove].
Qed.

(** X12: Through a session of the administrator or of the staff, whatever is
    typed, the catalog of the object keeps the invariant the code
    maintains: IDs that are not empty and pairwise distinct, quantities
    at least zero, prices not below zero. *)
Theorem sessions_keep_the_invariant (rounds : nat) (self : user) (w : world) :
  kept_invariant (inventory self) ->
  kept_invariant
    (inventory (admin_loop unicode_decimal rounds (self, w)).2.1)
  /\ kept_invariant
       (inventory (staff_loop unicode_decimal rounds (self, w)).2.1).
Proof.
  intros Hinv. split.
  - apply (respects_admin_loop invariant_kept invariant_kept_session
             add_product_keeps_invariant
             (respects_admin_update_stock _ (update_stock_keeps_invariant false))
             delete_product_keeps_invariant rounds (self, w) Hinv).
  - apply (respects_staff_loop invariant_kept invariant_kept_session
             (respects_staff_update_stock _ (update_stock_keeps_invariant true))
             rounds (self, w) Hinv).
Qed.

End Sessions.

#[global] Arguments is_digit : simpl never.
#[global] Arguments digit_char : simpl never.
#[global] Arguments is_c_space : simpl never.
#[global] Arguments isspace : simpl never.

(** ** Decimal digits *)

Lemma digits_value_app ds d : digits_value (ds ++ [d]) = 10 * digits_value ds + d.
Proof. unfold digits_value. by rewrite fold_left_app. Qed.

Lemma digits_value_cons_aux ds : forall acc,
  fold_left (fun a d => 10 * a + d) ds acc
  = acc * 10 ^ N.of_nat (length ds) + fold_left (fun a d => 10 * a + d) ds 0.
Proof.
  induction ds as [|d ds IH]; intros acc.
  - simpl. lia.
  - cbn [fold_left length]. rewrite IH. rewrite (IH (10 * 0 + d)).
    rewrite Nat2N.inj_succ, N.pow_succ_r'. lia.
Qed.

Lemma digits_value_cons d ds :
  digits_value (d :: ds) = d * 10 ^ N.of_nat (length ds) + digits_value ds.
Proof.
  unfold digits_value. cbn [fold_left]. rewrite digits_value_cons_aux.
  f_equal.
Qed.

Lemma digits_value_app_gen ds ds' :
  digits_value (ds ++ ds')
  = digits_value ds * 10 ^ N.of_nat (length ds') + digits_value ds'.
Proof.
  unfold digits_value. rewrite fold_left_app.
  by rewrite digits_value_cons_aux.
Qed.

Lemma digits_fuel_S fuel n acc :
  digits_fuel (S fuel) n acc
  = if n <? 10 then (n mod 10) :: acc
    else digits_fuel fuel (n / 10) ((n mod 10) :: acc).
Proof. reflexivity. Qed.

(** What [digits_fuel] computes, given fuel enough for [n]. *)
Lemma digits_fuel_spec fuel : forall n,
  n < 10 ^ N.of_nat (S fuel) ->
  exists ds,
    (forall acc, digits_fuel (S fuel) n acc = ds ++ acc)
    /\ digits_value ds = n
    /\ Forall (fun d => d < 10) ds
    /\ ds <> []
    /\ (0 < n -> 10 ^ N.of_nat (length ds - 1) <= n)
    /\ (0 < n -> exists d ds', ds = d :: ds' /\ 0 < d)
    /\ (n = 0 -> ds = [0]).
Proof.
  assert (forall n, n < 10 -> exists ds,
    (forall fuel' acc, digits_fuel (S fuel') n acc = ds ++ acc)
    /\ digits_value ds = n
    /\ Forall (fun d => d < 10) ds
    /\ ds <> []
    /\ (0 < n -> 10 ^ N.of_nat (length ds - 1) <= n)
    /\ (0 < n -> exists d ds', ds = d :: ds' /\ 0 < d)
    /\ (n = 0 -> ds = [0])) as Hsmall_case.
  { intros n Hsmall. exists [n mod 10].
    rewrite N.mod_small by done.
    split.
    { intros fuel' acc. rewrite digits_fuel_S.
      apply N.ltb_lt in Hsmall. rewrite Hsmall.
      rewrite N.mod_small; [done | by apply N.ltb_lt]. }
    split; [unfold digits_value; simpl; lia|].
    split; [by repeat constructor|]. split; [done|].
    split; [simpl; lia|]. split; [|by intros ->].
    intros Hpos. by exists n, []. }
  induction fuel as [|fuel IH]; intros n Hn.
  - destruct (Hsmall_case n) as (ds & Heq & Hrest); [simpl in Hn; lia|].
    exists ds. split; [apply Heq | exact Hrest].
  - destruct (n <? 10) eqn:Hsmall.
    + apply N.ltb_lt in Hsmall.
      destruct (Hsmall_case n Hsmall) as (ds & Heq & Hrest).
      exists ds. split; [apply Heq | exact Hrest].
    + assert (forall acc, digits_fuel (S (S fuel)) n acc
                = digits_fuel (S fuel) (n / 10) ((n mod 10) :: acc)) as Hstep.
      { intros acc. rewrite (digits_fuel_S (S fuel)). by rewrite Hsmall. }
      apply N.ltb_ge in Hsmall.
      assert (n / 10 < 10 ^ N.of_nat (S fuel)) as Hdiv.
      { apply N.Div0.div_lt_upper_bound.
        by rewrite <- N.pow_succ_r', <- Nat2N.inj_succ. }
      destruct (IH _ Hdiv) as (ds & Heq & Hval & Hall & Hne & Hlow & Hhead & _).
      assert (0 < n / 10) as Hpos'.
      { apply N.div_str_pos. lia. }
      exists (ds ++ [n mod 10]).
      split; [intros acc; by rewrite Hstep, Heq, <- app_assoc|].
      split.
      { rewrite digits_value_app, Hval.
        pose proof (N.div_mod n 10). lia. }
      split.
      { apply Forall_app. split; [done|]. repeat constructor.
        apply N.mod_lt. lia. }
      split; [by destruct ds|].
      split.
      { intros _. rewrite length_app. simpl.
        replace (length ds + 1 - 1)%nat with (S (length ds - 1))%nat
          by (destruct ds; [done | simpl; lia]).
        rewrite Nat2N.inj_succ, N.pow_succ_r'. specialize (Hlow Hpos').
        pose proof (N.Div0.mul_div_le n 10). lia. }
      split; [|lia].
      intros _. destruct (Hhead Hpos') as (d & ds' & -> & Hd).
      by exists d, (ds' ++ [n mod 10]).
Qed.

Lemma decimal_digits_spec n :
  digits_value (decimal_digits n) = n
  /\ Forall (fun d => d < 10) (decimal_digits n)
  /\ decimal_digits n <> []
  /\ (0 < n -> 10 ^ N.of_nat (length (decimal_digits n) - 1) <= n)
  /\ (0 < n -> exists d ds', decimal_digits n = d :: ds' /\ 0 < d)
  /\ (n = 0 -> decimal_digits n = [0]).
Proof.
  unfold decimal_digits.
  assert (n < 10 ^ N.of_nat (S (N.to_nat (N.log2 n)))) as Hn.
  { rewrite Nat2N.inj_succ, N2Nat.id.
    destruct (N.eq_dec n 0) as [->|Hne]; [done|].
    eapply N.lt_le_trans; [apply N.log2_spec; lia|].
    apply N.pow_le_mono_l. lia. }
  destruct (digits_fuel_spec _ _ Hn) as (ds & Heq & Hrest).
  rewrite Heq, app_nil_r. exact Hrest.
Qed.

(** ** Digits as characters *)

Lemma is_digit_digit_char d : d < 10 -> is_digit (digit_char d) = true.
Proof.
  unfold is_digit, digit_char. intros H.
  apply andb_true_iff. split; apply N.leb_le; lia.
Qed.

Lemma digit_char_value d : digit_char d - 48 = d.
Proof. unfold digit_char. lia. Qed.

Lemma span_digits_chars ds rest :
  Forall (fun d => d < 10) ds -> not_digit_head rest ->
  span_digits (map digit_char ds ++ rest) = (ds, rest).
Proof.
  intros Hall Hrest. induction Hall as [|d ds Hd Hall IH]; simpl.
  - destruct rest as [|c rest]; [done|]. simpl in *. by rewrite Hrest.
  - rewrite is_digit_digit_char by done. rewrite IH.
    by rewrite digit_char_value.
Qed.

Lemma span_is_digit_chars ds rest :
  Forall (fun d => d < 10) ds -> not_digit_head rest ->
  span is_digit (map digit_char ds ++ rest) = (map digit_char ds, rest).
Proof.
  intros Hall Hrest. induction Hall as [|d ds Hd Hall IH]; simpl.
  - destruct rest as [|c rest]; [done|]. simpl in *. by rewrite Hrest.
  - rewrite is_digit_digit_char by done. by rewrite IH.
Qed.

Lemma grouped_digits_chars ds : forall prev,
  Forall (fun d => d < 10) ds -> ds <> [] \/ prev = true ->
  grouped_digits prev (map digit_char ds) = Some ds.
Proof.
  induction ds as [|d ds IH]; intros prev Hall Hne.
  - destruct Hne as [?| ->]; done.
  - apply Forall_cons in Hall as [Hd Hall]. simpl.
    rewrite is_digit_digit_char by done.
    rewrite (IH true Hall) by (by right). simpl.
    by rewrite digit_char_value.
Qed.

Lemma skip_c_space_fixed s :
  match s with c :: _ => is_c_space c = false | [] => True end ->
  skip_c_space s = s.
Proof. destruct s as [|c s]; simpl; [done|]. by intros ->. Qed.

Lemma strip_c_space_fixed s :
  Forall (fun c => is_c_space c = false) s -> strip_c_space s = s.
Proof.
  intros Hall. unfold strip_c_space.
  rewrite (skip_c_space_fixed s) by (by destruct Hall).
  rewrite skip_c_space_fixed; [apply rev_involutive|].
  assert (Forall (fun c => is_c_space c = false) (rev s)) as Hrev.
  { apply Forall_forall. intros c Hc. rewrite Forall_forall in Hall.
    apply Hall. apply list_elem_of_In. apply in_rev.
    by apply list_elem_of_In. }
  by destruct Hrev.
Qed.

Lemma number_char_not_space c : is_number_char c = true -> is_c_space c = false.
Proof.
  unfold is_number_char, is_digit, is_c_space. intros H.
  rewrite !orb_true_iff, andb_true_iff, !N.leb_le, !N.eqb_eq in H.
  rewrite orb_false_iff, andb_false_iff, !N.leb_gt, N.eqb_neq. lia.
Qed.

Lemma digit_chars_number ds :
  Forall (fun d => d < 10) ds ->
  Forall (fun c => is_number_char c = true) (map digit_char ds).
Proof.
  intros Hall. apply Forall_map. eapply Forall_impl; [exact Hall|].
  intros d Hd. simpl. unfold is_number_char.
  by rewrite is_digit_digit_char.
Qed.

Lemma number_chars_not_space s :
  Forall (fun c => is_number_char c = true) s ->
  Forall (fun c => is_c_space c = false) s.
Proof.
  intros H. eapply Forall_impl; [exact H|]. apply number_char_not_space.
Qed.

(** ** [int] and text *)

Lemma Z_of_abs_N_nonneg z : (0 <= z)%Z -> Z.of_N (Z.abs_N z) = z.
Proof. intros H. rewrite N2Z.inj_abs_N. lia. Qed.

(** [int(str(z)) == z] *)
Lemma int_of_ascii_str_of_int z : int_of_ascii (str_of_int z) = Some z.
Proof.
  unfold int_of_ascii, str_of_int.
  destruct (decimal_digits_spec (Z.abs_N z))
    as (Hval & Hall & Hne & _ & _ & _).
  pose proof (digit_chars_number _ Hall) as Hnum.
  destruct (z <? 0)%Z eqn:Hneg.
  - rewrite strip_c_space_fixed.
    2:{ apply number_chars_not_space. by constructor. }
    rewrite N.eqb_refl.
    rewrite grouped_digits_chars by (done || by left). simpl.
    rewrite Hval. f_equal. apply Z.ltb_lt in Hneg.
    rewrite N2Z.inj_abs_N. lia.
  - rewrite strip_c_space_fixed by (by apply number_chars_not_space).
    destruct (decimal_digits (Z.abs_N z)) as [|d ds] eqn:Hds; [done|].
    pose proof Hall as Hall0.
    apply Forall_cons in Hall as [Hd Hall'].
    cbn [map].
    assert ((digit_char d =? 45) = false) as -> 
      by (apply N.eqb_neq; unfold digit_char; lia).
    assert ((digit_char d =? 43) = false) as -> 
      by (apply N.eqb_neq; unfold digit_char; lia).
    change (digit_char d :: map digit_char ds) with (map digit_char (d :: ds)).
    rewrite grouped_digits_chars by (done || by left). simpl.
    rewrite Hval. f_equal. apply Z.ltb_ge in Hneg.
    rewrite N2Z.inj_abs_N. lia.
Qed.

(** ** Rounding a ratio to binary64 *)

Section Rounding.

Local Open Scope Z_scope.

Lemma pow2_pos k : 0 < pow2 k.
Proof. unfold pow2. apply Z.pow_pos_nonneg; lia. Qed.

Lemma pow10_pos k : 0 < pow10 k.
Proof. unfold pow10. apply Z.pow_pos_nonneg; lia. Qed.

Lemma pow2_nonneg k : 0 <= k -> pow2 k = 2 ^ k.
Proof. intros H. unfold pow2. by rewrite Z.max_l. Qed.

Lemma pow2_neg k : k <= 0 -> pow2 k = 1.
Proof. intros H. unfold pow2. by rewrite Z.max_r. Qed.

(** [2 ^ (k + B) = pow2 k * 2 ^ B / pow2 (- k)], without the division. *)
Lemma pow2_shift k B :
  0 <= B -> 0 <= k + B -> 2 ^ (k + B) * pow2 (- k) = pow2 k * 2 ^ B.
Proof.
  intros HB HkB. destruct (Z.le_gt_cases 0 k) as [Hk|Hk].
  - rewrite (pow2_nonneg k), (pow2_neg (- k)) by lia.
    rewrite Z.pow_add_r by lia. ring.
  - rewrite (pow2_neg k), (pow2_nonneg (- k)) by lia.
    rewrite <- Z.pow_add_r, Z.mul_1_l by lia. f_equal. lia.
Qed.

Lemma scaled_le_iff d k n B :
  0 <= B -> 0 <= k + B ->
  scaled_le d k n = true <-> Zpos d * 2 ^ (k + B) <= Zpos n * 2 ^ B.
Proof.
  intros HB HkB. unfold scaled_le. fold (pow2 k). fold (pow2 (- k)).
  rewrite Z.leb_le.
  pose proof (pow2_shift k B HB HkB) as Hs.
  pose proof (pow2_pos k). pose proof (pow2_pos (- k)).
  assert (0 < 2 ^ B) by (apply Z.pow_pos_nonneg; lia).
  assert (0 < 2 ^ (k + B)) by (apply Z.pow_pos_nonneg; lia).
  pose proof (f_equal (Z.mul (Zpos d)) Hs) as Hd.
  pose proof (f_equal (Z.mul (Zpos n)) Hs) as Hn.
  split; intros Hle.
  - apply (Z.mul_le_mono_pos_r _ _ (pow2 (- k))); [done|].
    apply (Z.mul_le_mono_pos_r _ _ (2 ^ B)) in Hle; [|done]. lia.
  - apply (Z.mul_le_mono_pos_r _ _ (2 ^ B)); [done|].
    apply (Z.mul_le_mono_pos_r _ _ (pow2 (- k))) in Hle; [|done]. lia.
Qed.

Lemma scaled_le_mono d k k' n :
  k <= k' -> scaled_le d k' n = true -> scaled_le d k n = true.
Proof.
  intros Hk.
  rewrite (scaled_le_iff d k' n (Z.abs k + Z.abs k')) by lia.
  rewrite (scaled_le_iff d k n (Z.abs k + Z.abs k')) by lia.
  intros Hle. eapply Z.le_trans; [|exact Hle].
  apply Z.mul_le_mono_nonneg_l; [lia|].
  apply Z.pow_le_mono_r; lia.
Qed.

Lemma binade_spec n d :
  scaled_le d (binade n d) n = true
  /\ scaled_le d (binade n d + 1) n = false.
Proof.
  pose proof (Z.log2_spec (Zpos n) ltac:(lia)) as [Hn1 Hn2].
  pose proof (Z.log2_spec (Zpos d) ltac:(lia)) as [Hd1 Hd2].
  pose proof (Z.log2_nonneg (Zpos n)) as Ha.
  pose proof (Z.log2_nonneg (Zpos d)) as Hb.
  set (a := Z.log2 (Zpos n)) in *. set (b := Z.log2 (Zpos d)) in *.
  assert (0 < 2 ^ a) by (apply Z.pow_pos_nonneg; lia).
  assert (0 < 2 ^ b) by (apply Z.pow_pos_nonneg; lia).
  assert (scaled_le d (a - b - 1) n = true) as Hlow.
  { apply (scaled_le_iff d (a - b - 1) n (b + 1)); [lia | lia |].
    replace (a - b - 1 + (b + 1)) with a by lia.
    rewrite Z.pow_succ_r in Hd2 by lia. rewrite Z.pow_add_r by lia.
    change (2 ^ 1) with 2. nia. }
  assert (scaled_le d (a - b + 1) n = false) as Hhigh.
  { apply not_true_is_false. intros Hle.
    apply (scaled_le_iff d (a - b + 1) n (b + 1)) in Hle; [|lia|lia].
    replace (a - b + 1 + (b + 1)) with (Z.succ (Z.succ a)) in Hle by lia.
    rewrite !Z.pow_succ_r in Hle by lia.
    rewrite Z.pow_succ_r in Hn2 by lia.
    rewrite Z.pow_add_r in Hle by lia. change (2 ^ 1) with 2 in Hle. nia. }
  unfold binade. fold a b.
  destruct (scaled_le d (a - b) n) eqn:Htest.
  - by split.
  - split; [exact Hlow|]. by replace (a - b - 1 + 1) with (a - b) by lia.
Qed.

Lemma binade_unique n d k :
  scaled_le d k n = true -> scaled_le d (k + 1) n = false -> binade n d = k.
Proof.
  intros Hk Hk1. destruct (binade_spec n d) as [Hb Hb1].
  destruct (Z.lt_trichotomy (binade n d) k) as [Hlt|[Heq|Hgt]]; [|done|].
  - rewrite (scaled_le_mono d (binade n d + 1) k n) in Hb1; [done|lia|done].
  - rewrite (scaled_le_mono d (k + 1) (binade n d) n) in Hk1; [done|lia|done].
Qed.

Lemma binade_lt n d k : scaled_le d k n = false -> binade n d < k.
Proof.
  intros Hk. destruct (binade_spec n d) as [Hb _].
  destruct (Z.lt_ge_cases (binade n d) k) as [|Hge]; [done|].
  by rewrite (scaled_le_mono d k (binade n d) n) in Hk.
Qed.

Lemma round_half_even_near a b m :
  0 < b -> (2 * m - 1) * b < 2 * a -> 2 * a < (2 * m + 1) * b ->
  round_half_even a b = m.
Proof.
  intros Hb Hlo Hhi. unfold round_half_even.
  pose proof (Z.div_mod a b ltac:(lia)) as Hdm.
  pose proof (Z.mod_pos_bound a b Hb) as Hr.
  set (q := a / b) in *. set (r := a mod b) in *.
  assert (q = m - 1 \/ q = m) as [Hq|Hq] by nia.
  - destruct (2 * r <? b) eqn:H1; [apply Z.ltb_lt in H1; nia|].
    destruct (b <? 2 * r) eqn:H2; [lia|]. apply Z.ltb_ge in H1, H2. nia.
  - destruct (2 * r <? b) eqn:H1; [done|]. apply Z.ltb_ge in H1. nia.
Qed.

Lemma round_half_even_ratio a b a' b' :
  0 < b -> 0 < b' -> a * b' = a' * b ->
  round_half_even a b = round_half_even a' b'.
Proof.
  intros Hb Hb' Heq. unfold round_half_even.
  pose proof (Z.div_mod a b ltac:(lia)) as Hdm.
  pose proof (Z.mod_pos_bound a b Hb) as Hr.
  pose proof (Z.div_mod a' b' ltac:(lia)) as Hdm'.
  pose proof (Z.mod_pos_bound a' b' Hb') as Hr'.
  set (q := a / b) in *. set (r := a mod b) in *.
  set (q' := a' / b') in *. set (r' := a' mod b') in *.
  assert (q = q') as <-.
  { subst q q'. rewrite <- (Z.div_mul_cancel_r a b b') by lia.
    rewrite <- (Z.div_mul_cancel_r a' b' b) by lia.
    rewrite Heq. f_equal. ring. }
  assert (r * b' = r' * b) as Hrr by nia.
  assert ((2 * r <? b) = (2 * r' <? b')) as ->.
  { destruct (2 * r <? b) eqn:H1, (2 * r' <? b') eqn:H2; try done;
      rewrite ?Z.ltb_lt, ?Z.ltb_ge in *; nia. }
  assert ((b <? 2 * r) = (b' <? 2 * r')) as ->.
  { destruct (b <? 2 * r) eqn:H1, (b' <? 2 * r') eqn:H2; try done;
      rewrite ?Z.ltb_lt, ?Z.ltb_ge in *; nia. }
  done.
Qed.

Lemma scaled_le_pow2 d k e n :
  0 <= k ->
  scaled_le d (k + e) n = true
  <-> Zpos d * 2 ^ k * pow2 e <= Zpos n * pow2 (- e).
Proof.
  intros Hk.
  rewrite (scaled_le_iff d (k + e) n (Z.max (- e) 0)) by lia.
  fold (pow2 (- e)).
  replace (k + e + Z.max (- e) 0) with (k + Z.max e 0) by lia.
  rewrite Z.pow_add_r by lia. fold (pow2 e).
  by rewrite Z.mul_assoc.
Qed.

Lemma scaled_le_ratio d n d' n' k :
  Zpos n * Zpos d' = Zpos n' * Zpos d ->
  scaled_le d k n = scaled_le d' k n'.
Proof.
  intros Heq. unfold scaled_le. fold (pow2 k) (pow2 (- k)).
  pose proof (pow2_pos k). pose proof (pow2_pos (- k)).
  pose proof (f_equal (fun x => x * pow2 (- k)) Heq) as Heq'. simpl in Heq'.
  destruct (Zpos d * pow2 k <=? Zpos n * pow2 (- k)) eqn:H1,
    (Zpos d' * pow2 k <=? Zpos n' * pow2 (- k)) eqn:H2; try done;
    rewrite ?Z.leb_le, ?Z.leb_gt in *.
  - apply (Z.mul_le_mono_pos_r _ _ (Zpos d')) in H1; [|lia].
    apply (Z.mul_lt_mono_pos_r (Zpos d)) in H2; [|lia]. lia.
  - apply (Z.mul_lt_mono_pos_r (Zpos d')) in H1; [|lia].
    apply (Z.mul_le_mono_pos_r _ _ (Zpos d)) in H2; [|lia]. lia.
Qed.

Lemma binade_ratio d n d' n' :
  Zpos n * Zpos d' = Zpos n' * Zpos d -> binade n d = binade n' d'.
Proof.
  intros Heq. destruct (binade_spec n' d') as [H1 H2].
  apply binade_unique; by rewrite (scaled_le_ratio d n d' n' _ Heq).
Qed.

(** Equal ratios round to the same value. *)
Lemma sf_of_ratio_ratio neg n d n' d' :
  Zpos n * Zpos d' = Zpos n' * Zpos d ->
  sf_of_ratio neg n d = sf_of_ratio neg n' d'.
Proof.
  intros Heq. unfold sf_of_ratio. cbv zeta.
  rewrite (binade_ratio d n d' n' Heq).
  set (e := Z.max (binade n' d' - 52) emin).
  fold (pow2 e) (pow2 (- e)).
  pose proof (pow2_pos e). pose proof (pow2_pos (- e)).
  rewrite (round_half_even_ratio (Zpos n * pow2 (- e)) (Zpos d * pow2 e)
             (Zpos n' * pow2 (- e)) (Zpos d' * pow2 e)); [done|lia|lia|].
  pose proof (f_equal (fun x => x * (pow2 e * pow2 (- e))) Heq) as Heq'.
  simpl in Heq'. lia.
Qed.

(** The sign plays no part in the rounding. *)
Lemma sf_of_ratio_sign neg n d m e :
  sf_of_ratio false n d = S754_finite false m e ->
  sf_of_ratio neg n d = S754_finite neg m e.
Proof.
  unfold sf_of_ratio.
  destruct (round_half_even _ _ =? 2 ^ 53); cbv zeta; cbv beta iota.
  - destruct (2 ^ 52) as [|p|p]; try done.
    destruct (971 <? _); [done|]. by intros [= -> ->].
  - destruct (round_half_even _ _) as [|p|p]; try done.
    destruct (971 <? _); [done|]. by intros [= -> ->].
Qed.

(** A ratio within half a unit in the last place of [m * 2 ^ e] rounds to
    it; just under a power of two, where the spacing halves, within a
    quarter. *)
Lemma sf_of_ratio_near neg n d m e :
  Zpos m < 2 ^ 53 -> emin <= e <= 971 -> (2 ^ 52 <= Zpos m \/ e = emin) ->
  2 * Z.abs (Zpos n * pow2 (- e) - Zpos m * (Zpos d * pow2 e))
    < Zpos d * pow2 e ->
  (Zpos m = 2 ^ 52 -> emin < e ->
   4 * (Zpos m * (Zpos d * pow2 e) - Zpos n * pow2 (- e)) < Zpos d * pow2 e) ->
  sf_of_ratio neg n d = S754_finite neg m e.
Proof.
  intros Hm He Hnorm Hnear Hquarter.
  pose proof (pow2_pos e) as HA. pose proof (pow2_pos (- e)) as HA'.
  set (X := Zpos d * pow2 e) in *. set (Y := Zpos n * pow2 (- e)) in *.
  assert (0 < X) as HX by (unfold X; lia).
  change (2 ^ 53) with 9007199254740992 in Hm.
  change (2 ^ 52) with 4503599627370496 in Hnorm, Hquarter.
  assert (Zpos m * X <= 9007199254740991 * X) as HmX
    by (apply Z.mul_le_mono_nonneg_r; lia).
  assert (forall k, 0 <= k ->
            scaled_le d (k + e) n = true <-> 2 ^ k * X <= Y) as Hscaled.
  { intros k Hk. rewrite scaled_le_pow2 by done. unfold X, Y.
    by rewrite <- Z.mul_assoc, (Z.mul_comm (Zpos d)), <- Z.mul_assoc,
      (Z.mul_comm (pow2 e)). }
  assert (forall e', e' = e ->
            round_half_even (Zpos n * pow2 (- e')) (Zpos d * pow2 e')
            = Zpos m) as Hround.
  { intros e' ->. fold X Y. apply round_half_even_near; lia. }
  destruct (Z.le_gt_cases (4503599627370496 * X) Y) as [Hbig|Hsmall].
  - (* the ratio is at least [2 ^ 52] units *)
    assert (4503599627370496 <= Zpos m) as Hm52.
    { destruct (Z.le_gt_cases 4503599627370496 (Zpos m)) as [|Hlt]; [done|].
      assert (Zpos m * X <= 4503599627370495 * X)
        by (apply Z.mul_le_mono_nonneg_r; lia). lia. }
    assert (binade n d = 52 + e) as Hb.
    { apply binade_unique.
      - apply Hscaled; [done|]. change (2 ^ 52) with 4503599627370496. lia.
      - apply not_true_is_false. replace (52 + e + 1) with (53 + e) by lia.
        rewrite Hscaled by done.
        change (2 ^ 53) with 9007199254740992. lia. }
    unfold sf_of_ratio. cbv zeta. rewrite Hb.
    replace (Z.max (52 + e - 52) emin) with e by lia.
    fold (pow2 e) (pow2 (- e)). rewrite (Hround e eq_refl).
    change (2 ^ 53) with 9007199254740992.
    destruct (Z.eqb_spec (Zpos m) 9007199254740992) as [|_]; [lia|].
    destruct (Z.ltb_spec 971 e); [lia|done].
  - destruct (Z.eq_dec e emin) as [Hemin|Hemin].
    + (* the least exponent *)
      assert (binade n d < 52 + e) as Hb.
      { apply binade_lt, not_true_is_false. rewrite Hscaled by done.
        change (2 ^ 52) with 4503599627370496. lia. }
      unfold sf_of_ratio. cbv zeta.
      replace (Z.max (binade n d - 52) emin) with e by lia.
      fold (pow2 e) (pow2 (- e)). rewrite (Hround e eq_refl).
      change (2 ^ 53) with 9007199254740992.
      destruct (Z.eqb_spec (Zpos m) 9007199254740992) as [|_]; [lia|].
      destruct (Z.ltb_spec 971 e); [lia|done].
    + (* just under a power of two *)
      assert (Zpos m = 4503599627370496) as Hm52.
      { destruct Hnorm as [Hnorm|]; [|done].
        destruct (Z.eq_dec (Zpos m) 4503599627370496) as [|Hne]; [done|].
        assert (4503599627370497 * X <= Zpos m * X)
          by (apply Z.mul_le_mono_nonneg_r; lia). lia. }
      specialize (Hquarter Hm52 ltac:(lia)). rewrite Hm52 in *.
      assert (binade n d = 51 + e) as Hb.
      { apply binade_unique.
        - apply Hscaled; [done|]. change (2 ^ 51) with 2251799813685248. lia.
        - apply not_true_is_false. replace (51 + e + 1) with (52 + e) by lia.
          rewrite Hscaled by done.
          change (2 ^ 52) with 4503599627370496. lia. }
      unfold sf_of_ratio. cbv zeta. rewrite Hb.
      replace (Z.max (51 + e - 52) emin) with (e - 1) by lia.
      fold (pow2 (e - 1)) (pow2 (- (e - 1))).
      assert (round_half_even (Zpos n * pow2 (- (e - 1)))
                (Zpos d * pow2 (e - 1)) = 9007199254740992) as ->.
      { pose proof (pow2_pos (e - 1)). pose proof (pow2_pos (- (e - 1))).
        apply round_half_even_near; [lia| |];
          destruct (Z.le_gt_cases 1 e) as [Hpos|Hneg].
        - unfold X, Y in *.
          rewrite (pow2_neg (- e)), (pow2_nonneg e) in * by lia.
          rewrite (pow2_neg (- (e - 1))), (pow2_nonneg (e - 1)) by lia.
          replace e with (Z.succ (e - 1)) in Hquarter, Hsmall by lia.
          rewrite Z.pow_succ_r in Hquarter, Hsmall by lia. lia.
        - unfold X, Y in *.
          rewrite (pow2_nonneg (- e)), (pow2_neg e) in * by lia.
          rewrite (pow2_nonneg (- (e - 1))), (pow2_neg (e - 1)) by lia.
          replace (- (e - 1)) with (Z.succ (- e)) by lia.
          rewrite Z.pow_succ_r by lia. lia.
        - unfold X, Y in *.
          rewrite (pow2_neg (- e)), (pow2_nonneg e) in * by lia.
          rewrite (pow2_neg (- (e - 1))), (pow2_nonneg (e - 1)) by lia.
          replace e with (Z.succ (e - 1)) in Hquarter, Hsmall by lia.
          rewrite Z.pow_succ_r in Hquarter, Hsmall by lia. lia.
        - unfold X, Y in *.
          rewrite (pow2_nonneg (- e)), (pow2_neg e) in * by lia.
          rewrite (pow2_nonneg (- (e - 1))), (pow2_neg (e - 1)) by lia.
          replace (- (e - 1)) with (Z.succ (- e)) by lia.
          rewrite Z.pow_succ_r by lia. lia. }
      change (2 ^ 53) with 9007199254740992.
      change (9007199254740992 =? 9007199254740992) with true.
      cbv iota. change (2 ^ 52) with 4503599627370496.
      replace (e - 1 + 1) with e by lia.
      destruct (Z.ltb_spec 971 e); [lia|].
      by injection Hm52 as ->.
Qed.

End Rounding.

(** ** The shape of a binary64 value *)

Section Binary64.

Local Open Scope Z_scope.

Lemma digits2_pos_spec m :
  2 ^ (Zpos (digits2_pos m) - 1) <= Zpos m < 2 ^ Zpos (digits2_pos m).
Proof.
  induction m as [p IH|p IH|]; simpl digits2_pos.
  - rewrite Pos2Z.inj_succ.
    replace (Z.succ (Zpos (digits2_pos p)) - 1)
      with (Z.succ (Zpos (digits2_pos p) - 1)) by lia.
    rewrite !Z.pow_succ_r by lia. lia.
  - rewrite Pos2Z.inj_succ.
    replace (Z.succ (Zpos (digits2_pos p)) - 1)
      with (Z.succ (Zpos (digits2_pos p) - 1)) by lia.
    rewrite !Z.pow_succ_r by lia. lia.
  - done.
Qed.

(** The mantissa and the exponent of a finite binary64 value: 53 bits, or
    fewer at the least exponent. *)
Lemma valid_finite s m e :
  valid_binary (S754_finite s m e) = true ->
  Zpos m < 2 ^ 53 /\ emin <= e <= 971 /\ (2 ^ 52 <= Zpos m \/ e = emin).
Proof.
  unfold SpecFloat.valid_binary, bounded, canonical_mantissa, fexp.
  change (SpecFloat.emin prec emax) with (-1074).
  change prec with 53. change (emax - 53) with 971. unfold emin.
  rewrite andb_true_iff, Z.eqb_eq, Z.leb_le.
  pose proof (digits2_pos_spec m) as [Hlo Hhi].
  set (k := Zpos (digits2_pos m)) in *.
  intros [Hcanon He].
  assert (Z.max (k + e - 53) (-1074) = e) as Hmax by exact Hcanon.
  assert (k <= 53) as Hk by lia.
  split; [|split; [lia|]].
  - eapply Z.lt_le_trans; [exact Hhi|]. apply Z.pow_le_mono_r; lia.
  - destruct (Z.eq_dec e (-1074)) as [|Hne]; [by right|left].
    replace k with 53 in Hlo by lia. exact Hlo.
Qed.

Lemma Prim2SF_finite f s m e :
  Prim2SF f = S754_finite s m e ->
  Zpos m < 2 ^ 53 /\ emin <= e <= 971 /\ (2 ^ 52 <= Zpos m \/ e = emin).
Proof.
  intros Hf. apply (valid_finite s). rewrite <- Hf. apply Prim2SF_valid.
Qed.

End Binary64.

(** ** Decimals and the binary64 values they denote *)

Section Decimals.

Local Open Scope Z_scope.

Lemma pow10_nonneg k : 0 <= k -> pow10 k = 10 ^ k.
Proof. intros H. unfold pow10. by rewrite Z.max_l. Qed.

Lemma pow10_neg k : k <= 0 -> pow10 k = 1.
Proof. intros H. unfold pow10. by rewrite Z.max_r. Qed.

(** [sf_of_decimal] as one rounding of a ratio. *)
Lemma sf_of_decimal_ratio neg p j :
  sf_of_decimal neg (Npos p) j
  = sf_of_ratio neg (Z.to_pos (Zpos p * pow10 j)) (Z.to_pos (pow10 (- j))).
Proof.
  pose proof (pow10_pos j). pose proof (pow10_pos (- j)).
  destruct j as [|e|e]; unfold sf_of_decimal;
    apply sf_of_ratio_ratio; rewrite !Z2Pos.id by lia.
  - rewrite (pow10_neg 0), (pow10_neg (- 0)) by lia. lia.
  - rewrite (pow10_nonneg (Zpos e)), (pow10_neg (- Zpos e)) by lia.
    rewrite Pos2Z.inj_mul, Pos2Z.inj_pow. lia.
  - rewrite (pow10_neg (Zneg e)), (pow10_nonneg (- Zneg e)) by lia.
    rewrite Pos2Z.inj_pow. change (- Zneg e) with (Zpos e). lia.
Qed.

(** Two decimals of the same value denote the same binary64 value. *)
Lemma sf_of_decimal_eq neg M E M' E' :
  Z.of_N M * pow10 E * pow10 (- E') = Z.of_N M' * pow10 E' * pow10 (- E) ->
  sf_of_decimal neg M E = sf_of_decimal neg M' E'.
Proof.
  intros Heq.
  pose proof (pow10_pos E). pose proof (pow10_pos (- E)).
  pose proof (pow10_pos E'). pose proof (pow10_pos (- E')).
  destruct M as [|p], M' as [|p']; [done| | |].
  - exfalso. simpl in Heq.
    assert (0 < Zpos p' * pow10 E' * pow10 (- E)); [|lia].
    apply Z.mul_pos_pos; [apply Z.mul_pos_pos|]; lia.
  - exfalso. simpl in Heq.
    assert (0 < Zpos p * pow10 E * pow10 (- E')); [|lia].
    apply Z.mul_pos_pos; [apply Z.mul_pos_pos|]; lia.
  - rewrite !sf_of_decimal_ratio. apply sf_of_ratio_ratio.
    assert (0 < Zpos p * pow10 E) by (apply Z.mul_pos_pos; lia).
    assert (0 < Zpos p' * pow10 E') by (apply Z.mul_pos_pos; lia).
    rewrite !Z2Pos.id by lia. exact Heq.
Qed.

Lemma pow10_shift E z :
  0 <= z -> 10 ^ z * pow10 E * pow10 (- (E + z)) = pow10 (E + z) * pow10 (- E).
Proof.
  intros Hz.
  destruct (Z.le_gt_cases 0 E) as [HE|HE].
  - rewrite (pow10_nonneg E), (pow10_neg (- (E + z))),
      (pow10_nonneg (E + z)), (pow10_neg (- E)) by lia.
    rewrite Z.pow_add_r by lia. ring.
  - destruct (Z.le_gt_cases 0 (E + z)) as [HEz|HEz].
    + rewrite (pow10_neg E), (pow10_neg (- (E + z))),
        (pow10_nonneg (E + z)), (pow10_nonneg (- E)) by lia.
      rewrite <- Z.pow_add_r by lia. rewrite !Z.mul_1_r. f_equal. lia.
    + rewrite (pow10_neg E), (pow10_nonneg (- (E + z))),
        (pow10_neg (E + z)), (pow10_nonneg (- E)) by lia.
      rewrite Z.mul_1_r, Z.mul_1_l. rewrite <- Z.pow_add_r by lia.
      f_equal. lia.
Qed.

(** Zeros at the end of the digits move into the exponent. *)
Lemma sf_of_decimal_scale neg M M' E z :
  0 <= z -> Z.of_N M' = Z.of_N M * 10 ^ z ->
  sf_of_decimal neg M' E = sf_of_decimal neg M (E + z).
Proof.
  intros Hz HM. apply sf_of_decimal_eq. rewrite HM.
  pose proof (pow10_shift E z Hz) as Hs.
  pose proof (f_equal (Z.mul (Z.of_N M)) Hs). lia.
Qed.

Lemma sf_of_decimal_sign neg c j m e :
  sf_of_decimal false c j = S754_finite false m e ->
  sf_of_decimal neg c j = S754_finite neg m e.
Proof.
  destruct c as [|p]; [done|].
  rewrite !sf_of_decimal_ratio. apply sf_of_ratio_sign.
Qed.

(** A decimal [c * 10 ^ j] within half a unit in the last place of
    [m * 2 ^ e] reads as that value. *)
Lemma sf_of_decimal_near neg c j m e :
  Zpos m < 2 ^ 53 -> emin <= e <= 971 -> (2 ^ 52 <= Zpos m \/ e = emin) ->
  0 < c ->
  2 * Z.abs (c * (pow2 (- e) * pow10 j)
             - Zpos m * (pow2 e * pow10 (- j)))
    < pow2 e * pow10 (- j) ->
  (Zpos m = 2 ^ 52 -> emin < e ->
   4 * (Zpos m * (pow2 e * pow10 (- j)) - c * (pow2 (- e) * pow10 j))
     < pow2 e * pow10 (- j)) ->
  sf_of_decimal neg (Z.to_N c) j = S754_finite neg m e.
Proof.
  intros Hm He Hnorm Hc Hnear Hquarter.
  destruct c as [|p|p]; try lia. change (Z.to_N (Zpos p)) with (Npos p).
  rewrite sf_of_decimal_ratio.
  pose proof (pow10_pos j). pose proof (pow10_pos (- j)).
  assert (0 < Zpos p * pow10 j) by (apply Z.mul_pos_pos; lia).
  apply sf_of_ratio_near; try done; rewrite !Z2Pos.id by lia.
  - replace (Zpos p * pow10 j * pow2 (- e))
      with (Zpos p * (pow2 (- e) * pow10 j)) by ring.
    replace (pow10 (- j) * pow2 e) with (pow2 e * pow10 (- j)) by ring.
    exact Hnear.
  - intros H52 Hemin.
    replace (Zpos p * pow10 j * pow2 (- e))
      with (Zpos p * (pow2 (- e) * pow10 j)) by ring.
    replace (pow10 (- j) * pow2 e) with (pow2 e * pow10 (- j)) by ring.
    by apply Hquarter.
Qed.

End Decimals.

(** ** The shortest digits of a binary64 value *)

Section Shortest.

Local Open Scope Z_scope.

Lemma sf_same_eq a b : sf_same a b = true -> a = b.
Proof.
  destruct a as [| | |s1 m1 e1], b as [| | |s2 m2 e2]; try done. simpl.
  rewrite !andb_true_iff, Pos.eqb_eq, Z.eqb_eq.
  intros [[Hs ->] ->]. by apply eqb_prop in Hs as ->.
Qed.

Lemma sf_same_refl s m e :
  sf_same (S754_finite s m e) (S754_finite s m e) = true.
Proof.
  simpl. by rewrite eqb_reflx, Pos.eqb_refl, Z.eqb_refl.
Qed.

(** Every candidate reads back as the float it was made for. *)
Lemma candidate_sound m e k n c j :
  candidate m e k n = Some (c, j) ->
  sf_of_decimal false c j = S754_finite false m e.
Proof.
  unfold candidate. cbv zeta.
  set (j0 := k + 1 - n).
  set (lo := Z.to_N _). set (r := _ mod _). set (den := _ * _).
  destruct (sf_same (sf_of_decimal false lo j0) _) eqn:Hlo;
    destruct (negb (r =? 0)
              && sf_same (sf_of_decimal false (lo + 1) j0) _) eqn:Hhi;
    cbn [andb]; [| | |done].
  - apply andb_true_iff in Hhi as [_ Hhi].
    apply sf_same_eq in Hlo, Hhi.
    repeat case_match; by intros [= <- <-].
  - apply sf_same_eq in Hlo. by intros [= <- <-].
  - apply andb_true_iff in Hhi as [_ Hhi].
    apply sf_same_eq in Hhi. by intros [= <- <-].
Qed.

Lemma shortest_from_sound fuel m e k : forall n c j,
  shortest_from fuel m e k n = Some (c, j) ->
  sf_of_decimal false c j = S754_finite false m e.
Proof.
  induction fuel as [|fuel IH]; intros n c j; simpl; [done|].
  destruct (candidate m e k n) as [[c' j']|] eqn:Hc.
  - intros [= -> ->]. by eapply candidate_sound.
  - apply IH.
Qed.

Lemma shortest_from_some fuel m e k : forall n i,
  (i < fuel)%nat ->
  is_Some (candidate m e k (n + Z.of_nat i)) ->
  is_Some (shortest_from fuel m e k n).
Proof.
  induction fuel as [|fuel IH]; intros n i Hi Hsome; [lia|]. simpl.
  destruct (candidate m e k n) as [c|] eqn:Hc; [done|].
  destruct i as [|i].
  - rewrite Z.add_0_r, Hc in Hsome. by destruct Hsome.
  - apply (IH (n + 1) i); [lia|].
    by replace (n + 1 + Z.of_nat i) with (n + Z.of_nat (S i)) by lia.
Qed.

(** Seventeen digits: the decimals are closer to one another than the
    binary64 values are, so the one nearest to the float reads back as
    it. *)
Lemma candidate_17 m e k :
  Zpos m < 2 ^ 53 -> emin <= e <= 971 -> (2 ^ 52 <= Zpos m \/ e = emin) ->
  pow2 (- e) * pow10 (k - 16) * 10 ^ 16
    <= Zpos m * pow2 e * pow10 (- (k - 16)) ->
  is_Some (candidate m e k 17).
Proof.
  intros Hm He Hnorm Hk.
  unfold candidate. cbv zeta.
  replace (k + 1 - 17) with (k - 16) by lia.
  set (j := k - 16) in *.
  fold (pow2 e) (pow2 (- e)) (pow10 j) (pow10 (- j)).
  set (num := Zpos m * pow2 e * pow10 (- j)) in *.
  set (den := pow2 (- e) * pow10 j) in *.
  set (X := pow2 e * pow10 (- j)).
  pose proof (pow2_pos e). pose proof (pow2_pos (- e)).
  pose proof (pow10_pos j). pose proof (pow10_pos (- j)).
  assert (0 < den) as Hden by (apply Z.mul_pos_pos; lia).
  assert (0 < X) as HX by (apply Z.mul_pos_pos; lia).
  assert (num = Zpos m * X) as Hnum by (unfold num, X; ring).
  change (2 ^ 53) with 9007199254740992 in Hm.
  change (2 ^ 52) with 4503599627370496 in Hnorm.
  change (10 ^ 16) with 10000000000000000 in Hk.
  assert (Zpos m * X <= 9007199254740991 * X) as HmX
    by (apply Z.mul_le_mono_nonneg_r; lia).
  pose proof (Z.div_mod num den ltac:(lia)) as Hdm.
  pose proof (Z.mod_pos_bound num den Hden) as Hr.
  set (q := num / den) in *. set (r := num mod den) in *.
  assert (10000000000000000 <= q) as Hq.
  { apply Z.div_le_lower_bound; lia. }
  assert ((Z.to_N q + 1)%N = Z.to_N (q + 1)) as -> by lia.
  set (target := S754_finite false m e).
  assert (2 * r < X -> (Zpos m = 4503599627370496 -> emin < e -> 4 * r < X) ->
          sf_same (sf_of_decimal false (Z.to_N q) j) target = true) as Hlo.
  { intros Hhalf Hquarter.
    rewrite (sf_of_decimal_near false q j m e); try done.
    - apply sf_same_refl.
    - lia.
    - fold den X. lia.
    - fold den X. intros Hm52 Hemin. specialize (Hquarter Hm52 Hemin). lia. }
  assert (2 * (den - r) < X ->
          sf_same (sf_of_decimal false (Z.to_N (q + 1)) j) target = true)
    as Hhi.
  { intros Hhalf.
    rewrite (sf_of_decimal_near false (q + 1) j m e); try done.
    - apply sf_same_refl.
    - lia.
    - fold den X. lia.
    - fold den X. intros _ _. lia. }
  assert (sf_same (sf_of_decimal false (Z.to_N q) j) target
          || negb (r =? 0)
             && sf_same (sf_of_decimal false (Z.to_N (q + 1)) j) target
          = true) as Hsome.
  { destruct (Z.eqb_spec r 0) as [Hr0|Hr0].
    - rewrite Hlo; [done|lia|lia].
    - destruct (Z.eq_dec (Zpos m) 4503599627370496) as [H52|H52].
      + rewrite Hhi; [by rewrite orb_true_r|]. rewrite H52 in *. lia.
      + destruct (Z.le_gt_cases (2 * r) den).
        * rewrite Hlo; [done|lia|lia].
        * rewrite Hhi; [by rewrite orb_true_r|lia]. }
  destruct (sf_same (sf_of_decimal false (Z.to_N q) j) target);
    destruct (negb (r =? 0)
              && sf_same (sf_of_decimal false (Z.to_N (q + 1)) j) target);
    cbn [andb]; [repeat case_match; done|done|done|done].
Qed.

Lemma digits_value_lt ds :
  Forall (fun d => (d < 10)%N) ds ->
  (digits_value ds < 10 ^ N.of_nat (length ds))%N.
Proof.
  induction ds as [|d ds IH] using rev_ind; intros Hall; [done|].
  apply Forall_app in Hall as [Hds Hd]. apply Forall_inv in Hd.
  specialize (IH Hds). rewrite digits_value_app, length_app. simpl length.
  replace (N.of_nat (length ds + 1)) with (N.succ (N.of_nat (length ds)))
    by lia.
  rewrite N.pow_succ_r'. lia.
Qed.

(** The decimal exponent [shortest_digits] starts from is not above that
    of the leading digit of [m * 2 ^ e]: seventeen digits from there make
    a number of at least [10 ^ 16]. *)
Lemma leading_exponent m e :
  emin <= e ->
  let scaled := Zpos m * 2 ^ Z.max e 0 * 10 ^ 400 / 2 ^ Z.max (- e) 0 in
  let k := Z.of_nat (length (decimal_digits (Z.to_N scaled))) - 401 in
  pow2 (- e) * pow10 (k - 16) * 10 ^ 16
    <= Zpos m * pow2 e * pow10 (- (k - 16)).
Proof.
  intros He. cbv zeta. fold (pow2 e) (pow2 (- e)).
  pose proof (pow2_pos e) as HA. pose proof (pow2_pos (- e)) as HA'.
  assert (pow2 (- e) <= 2 ^ 1074) as Hsmall.
  { unfold pow2. apply Z.pow_le_mono_r; unfold emin in He; lia. }
  set (A := pow2 e) in *. set (A' := pow2 (- e)) in *.
  set (T := 10 ^ 400).
  assert (0 < T) as HT by done.
  assert (1 <= Zpos m * A) as HmA by nia.
  set (scaled := Zpos m * A * T / A').
  assert (scaled * A' <= Zpos m * A * T) as Hfloor.
  { rewrite Z.mul_comm. apply Z.mul_div_le. lia. }
  assert (10 ^ 76 <= scaled) as Hbig.
  { apply Z.div_le_lower_bound; [lia|].
    assert (10 ^ 76 * 2 ^ 1074 <= T) as Hconst by (by vm_compute).
    assert (A' * 10 ^ 76 <= 2 ^ 1074 * 10 ^ 76)
      by (apply Z.mul_le_mono_nonneg_r; [done|lia]).
    assert (T * 1 <= T * (Zpos m * A))
      by (apply Z.mul_le_mono_nonneg_l; lia).
    lia. }
  assert (0 < scaled) as Hpos by (assert (0 < 10 ^ 76) by done; lia).
  destruct (decimal_digits_spec (Z.to_N scaled))
    as (Hval & Hall & _ & Hlow & _).
  specialize (Hlow ltac:(lia)).
  pose proof (digits_value_lt _ Hall) as Hhigh. rewrite Hval in Hhigh.
  set (L := length (decimal_digits (Z.to_N scaled))) in *.
  apply N2Z.inj_le in Hlow. apply N2Z.inj_lt in Hhigh.
  rewrite N2Z.inj_pow, Z2N.id in Hlow, Hhigh by lia.
  rewrite nat_N_Z in Hlow, Hhigh. change (Z.of_N 10) with 10 in Hlow, Hhigh.
  assert (76 < Z.of_nat L) as HL.
  { destruct (Z.lt_ge_cases 76 (Z.of_nat L)) as [|Hle]; [done|].
    assert (10 ^ Z.of_nat L <= 10 ^ 76) by (apply Z.pow_le_mono_r; lia).
    lia. }
  rewrite Nat2Z.inj_sub in Hlow by lia. change (Z.of_nat 1) with 1 in Hlow.
  set (Lz := Z.of_nat L) in *.
  assert (10 ^ (Lz - 1) * A' <= Zpos m * A * T) as Hmain.
  { assert (10 ^ (Lz - 1) * A' <= scaled * A')
      by (apply Z.mul_le_mono_nonneg_r; lia). lia. }
  destruct (Z.le_gt_cases 0 (Lz - 401 - 16)) as [Hj|Hj].
  - rewrite (pow10_nonneg (Lz - 401 - 16)),
      (pow10_neg (- (Lz - 401 - 16))) by lia.
    replace (Lz - 1) with (Lz - 401 - 16 + 16 + 400) in Hmain by lia.
    rewrite !Z.pow_add_r in Hmain by lia. fold T in Hmain.
    apply (Z.mul_le_mono_pos_r _ _ T); [done|]. lia.
  - rewrite (pow10_neg (Lz - 401 - 16)),
      (pow10_nonneg (- (Lz - 401 - 16))) by lia.
    set (u := 10 ^ (400 + (Lz - 401 - 16))).
    assert (0 < u) as Hu by (apply Z.pow_pos_nonneg; lia).
    assert (T = 10 ^ (- (Lz - 401 - 16)) * u) as HTu.
    { unfold T, u. rewrite <- Z.pow_add_r by lia. f_equal. lia. }
    assert (10 ^ (Lz - 1) = 10 ^ 16 * u) as HLu.
    { unfold u. rewrite <- Z.pow_add_r by lia. f_equal. lia. }
    rewrite HLu, HTu in Hmain.
    apply (Z.mul_le_mono_pos_r _ _ u); [done|]. lia.
Qed.

(** [shortest_digits] finds digits, and they read back as the float. *)
Lemma shortest_digits_spec m e :
  Zpos m < 2 ^ 53 -> emin <= e <= 971 -> (2 ^ 52 <= Zpos m \/ e = emin) ->
  exists c j,
    (0 < c)%N
    /\ sf_of_decimal false c j = S754_finite false m e
    /\ shortest_digits m e
       = (drop_trailing_zeros (decimal_digits c),
          j + Z.of_nat (length (decimal_digits c))).
Proof.
  intros Hm He Hnorm. unfold shortest_digits. cbv zeta.
  set (k := Z.of_nat _ - 401).
  destruct (shortest_from 17 m e k 1) as [[c j]|] eqn:Hs.
  - exists c, j. pose proof (shortest_from_sound _ _ _ _ _ _ _ Hs) as Hback.
    split; [|done]. destruct c; [done|lia].
  - exfalso.
    assert (is_Some (shortest_from 17 m e k 1)) as [x Hx]; [|congruence].
    apply (shortest_from_some 17 m e k 1 16); [lia|].
    change (1 + Z.of_nat 16) with 17.
    apply candidate_17; try done. apply leading_exponent. lia.
Qed.

End Shortest.

(** ** Decimal literals as text *)

Section Literals.

Lemma digit_char_bounds d : d < 10 -> 48 <= digit_char d <= 57.
Proof. unfold digit_char. lia. Qed.

Lemma render_fraction_cons (fp : list N) :
  fp <> [] -> render_fraction fp = 46 :: map digit_char fp.
Proof. by destruct fp. Qed.

Lemma map_digit_char_repeat n : map digit_char (repeat 0 n) = repeat 48 n.
Proof. induction n as [|n IH]; simpl; [done|]. by rewrite IH. Qed.

(** [format_short] writes the literal [literal_of]. *)
Lemma format_short_render ds decpt :
  ds <> [] -> format_short ds decpt = render (literal_of ds decpt).
Proof.
  intros Hne. unfold format_short, literal_of, render.
  destruct ((decpt <=? -4)%Z || (16 <? decpt)%Z) eqn:Hsci.
  - by destruct ds as [|d [|d' ds]].
  - destruct (decpt <=? 0)%Z eqn:Hsmall; cbn [int_digits frac_digits exponent].
    + rewrite render_fraction_cons by (destruct (repeat _ _); by destruct ds).
      rewrite map_app, map_digit_char_repeat. unfold render_exponent.
      rewrite !app_nil_r. reflexivity.
    + destruct (Z.of_nat (length (map digit_char ds)) <=? decpt)%Z eqn:Hlong;
        rewrite length_map in Hlong; rewrite Hlong;
        cbn [int_digits frac_digits exponent]; unfold render_exponent.
      * rewrite map_app, map_digit_char_repeat, length_map, <- app_assoc.
        reflexivity.
      * rewrite render_fraction_cons.
        -- by rewrite firstn_map, skipn_map, app_nil_r.
        -- apply Z.leb_gt in Hlong. apply Z.leb_gt in Hsmall.
           intros Hdrop. apply (f_equal length) in Hdrop.
           rewrite length_drop in Hdrop. simpl in Hdrop. lia.
Qed.

(** The exponent [format_exponent] writes: [e], a sign, and the digits of
    the absolute value, at least two of them. *)
Lemma format_exponent_chars x :
  exists ds,
    format_exponent x
    = 101 :: (if (x <? 0)%Z then 45 else 43) :: map digit_char ds
    /\ ds <> []
    /\ Forall (fun d => d < 10) ds
    /\ digits_value ds = Z.abs_N x.
Proof.
  unfold format_exponent.
  destruct (decimal_digits_spec (Z.abs_N x)) as (Hval & Hall & Hne & _).
  destruct (length (map digit_char (decimal_digits (Z.abs_N x))) <? 2)%nat.
  - exists (0 :: decimal_digits (Z.abs_N x)). split; [done|].
    split; [done|]. split; [by constructor|].
    rewrite digits_value_cons, Hval. lia.
  - by exists (decimal_digits (Z.abs_N x)).
Qed.

Lemma span_digits_all ds :
  Forall (fun d => d < 10) ds -> span_digits (map digit_char ds) = (ds, []).
Proof.
  intros Hall. rewrite <- (app_nil_r (map digit_char ds)).
  by apply span_digits_chars.
Qed.

Lemma take_exponent_format x : take_exponent (format_exponent x) = (x, []).
Proof.
  destruct (format_exponent_chars x) as (ds & -> & Hne & Hall & Hval).
  unfold take_exponent. change ((101 =? 101) || (101 =? 69)) with true.
  cbv iota.
  assert (take_sign ((if (x <? 0)%Z then 45 else 43) :: map digit_char ds)
          = ((x <? 0)%Z, map digit_char ds)) as ->
    by (by destruct (x <? 0)%Z).
  rewrite span_digits_all by done.
  destruct ds as [|d ds]; [done|]. rewrite Hval.
  destruct (x <? 0)%Z eqn:Hneg; f_equal; rewrite N2Z.inj_abs_N; lia.
Qed.

Lemma render_exponent_head x : not_digit_head (render_exponent x).
Proof.
  destruct x as [x|]; [|done]. reflexivity.
Qed.

Lemma take_exponent_render x :
  take_exponent (render_exponent x) = (default 0%Z x, []).
Proof. destruct x as [x|]; [apply take_exponent_format|done]. Qed.

(** [float] reads a literal as the decimal it denotes. *)
Lemma sf_of_decimal_text_render neg l :
  well_formed l ->
  sf_of_decimal_text neg (render l)
  = Some (sf_of_decimal neg (literal_digits l) (literal_exponent l)).
Proof.
  intros (Hip & Hfp & Hshape).
  assert (int_digits l <> []) as Hne
    by (destruct Hshape as [->|(d & ds & -> & _)]; done).
  destruct l as [ip fp x]. unfold render, literal_digits, literal_exponent.
  cbn [int_digits frac_digits exponent] in *.
  pose proof (render_exponent_head x) as Htail.
  pose proof (take_exponent_render x) as Hexp.
  set (tail := render_exponent x) in *.
  unfold sf_of_decimal_text.
  destruct fp as [|f fp].
  - cbn [render_fraction app]. rewrite span_digits_chars by done.
    assert (match tail with
            | c :: r => if c =? 46 then span_digits r else ([], tail)
            | [] => ([], tail)
            end = ([], tail)) as ->.
    { unfold tail. by destruct x as [x0|]. }
    rewrite app_nil_r. destruct ip as [|d ip]; [done|].
    by rewrite Hexp.
  - rewrite render_fraction_cons by done.
    rewrite span_digits_chars; [|done|done].
    rewrite <- app_comm_cons.
    change ((46 =? 46)) with true. cbv iota.
    rewrite span_digits_chars by done.
    destruct ip as [|d ip]; [done|]. cbn [app].
    by rewrite Hexp.
Qed.

Lemma digits_value_zeros n : digits_value (repeat 0 n) = 0.
Proof.
  induction n as [|n IH]; [done|]. cbn [repeat].
  rewrite digits_value_cons, IH. lia.
Qed.

Lemma Forall_digits_zeros n : Forall (fun d => d < 10) (repeat 0 n).
Proof. induction n; by constructor. Qed.

(** The literal of [format_short] is well formed. *)
Lemma literal_of_well_formed d ds decpt :
  0 < d -> Forall (fun d => d < 10) (d :: ds) ->
  well_formed (literal_of (d :: ds) decpt).
Proof.
  intros Hd Hall. unfold literal_of, well_formed.
  destruct ((decpt <=? -4)%Z || (16 <? decpt)%Z).
  { cbn [int_digits frac_digits take drop].
    apply Forall_cons in Hall as [Hd10 Hds].
    split; [by repeat constructor|]. split; [done|]. right. by exists d, []. }
  destruct (decpt <=? 0)%Z eqn:Hsmall.
  { cbn [int_digits frac_digits].
    split; [by repeat constructor|].
    split; [|by left]. apply Forall_app. split; [apply Forall_digits_zeros|done]. }
  apply Z.leb_gt in Hsmall.
  destruct (Z.of_nat (length (d :: ds)) <=? decpt)%Z;
    cbn [int_digits frac_digits].
  - split; [|split; [by repeat constructor|]].
    + apply Forall_app. split; [done|apply Forall_digits_zeros].
    + right. by eexists d, _.
  - destruct (Z.to_nat decpt) as [|n] eqn:Hn; [lia|].
    cbn [take drop]. apply Forall_cons in Hall as [Hd10 Hds].
    split; [|split].
    + constructor; [done|]. by apply Forall_take.
    + by apply Forall_drop.
    + right. by eexists d, _.
Qed.

(** The literal of [format_short] denotes the digits [ds] with the point
    at [decpt]. *)
Lemma literal_of_value neg ds decpt :
  ds <> [] ->
  sf_of_decimal neg (literal_digits (literal_of ds decpt))
    (literal_exponent (literal_of ds decpt))
  = sf_of_decimal neg (digits_value ds) (decpt - Z.of_nat (length ds)).
Proof.
  intros Hne. unfold literal_of, literal_digits, literal_exponent.
  destruct ((decpt <=? -4)%Z || (16 <? decpt)%Z).
  { cbn [int_digits frac_digits exponent default]. rewrite take_drop.
    f_equal. rewrite length_drop. destruct ds; [done|]. simpl length.
    unfold id. lia. }
  destruct (decpt <=? 0)%Z eqn:Hsmall.
  { cbn [int_digits frac_digits exponent default]. apply Z.leb_le in Hsmall.
    f_equal.
    - cbn [app]. rewrite digits_value_cons, digits_value_app_gen,
        digits_value_zeros. lia.
    - rewrite length_app, repeat_length. lia. }
  apply Z.leb_gt in Hsmall.
  destruct (Z.of_nat (length ds) <=? decpt)%Z eqn:Hlong;
    cbn [int_digits frac_digits exponent default].
  - apply Z.leb_le in Hlong.
    set (k := (Z.to_nat decpt - length ds)%nat).
    replace (decpt - Z.of_nat (length ds))%Z
      with (0 - Z.of_nat (length [0]) + Z.of_nat (S k))%Z
      by (unfold k; simpl length; lia).
    apply sf_of_decimal_scale; [lia|].
    rewrite !digits_value_app_gen, digits_value_zeros.
    rewrite N2Z.inj_add, !N2Z.inj_mul, !N2Z.inj_pow, N2Z.inj_add, N2Z.inj_mul,
      N2Z.inj_pow.
    rewrite repeat_length. simpl length.
    rewrite !nat_N_Z. change (Z.of_N 10) with 10%Z.
    change (Z.of_N (digits_value [0])) with 0%Z. change (Z.of_N 0) with 0%Z.
    rewrite (Nat2Z.inj_succ k), Z.pow_succ_r by lia.
    change (10 ^ Z.of_nat 1)%Z with 10%Z. clearbody k. lia.
  - rewrite take_drop. f_equal. rewrite length_drop.
    apply Z.leb_gt in Hlong. lia.
Qed.

Lemma drop_trailing_zeros_spec ds :
  exists z, ds = drop_trailing_zeros ds ++ repeat 0 z.
Proof.
  induction ds as [|d ds [z IH]]; [by exists 0%nat|]. simpl.
  destruct (drop_trailing_zeros ds) as [|r rs] eqn:Hr.
  - simpl in IH. destruct (N.eqb_spec d 0) as [->|Hd].
    + exists (S z). by rewrite IH.
    + exists z. by rewrite IH.
  - exists z. by rewrite IH at 1.
Qed.

Lemma drop_trailing_zeros_head d ds :
  0 < d -> exists ds', drop_trailing_zeros (d :: ds) = d :: ds'.
Proof.
  intros Hd. simpl. destruct (drop_trailing_zeros ds) as [|r rs]; [|eauto].
  destruct (N.eqb_spec d 0); [lia|eauto].
Qed.

Lemma is_number_char_digit d : d < 10 -> is_number_char (digit_char d) = true.
Proof. intros H. unfold is_number_char. by rewrite is_digit_digit_char. Qed.

Lemma render_number_chars l :
  well_formed l -> Forall (fun c => is_number_char c = true) (render l).
Proof.
  intros (Hip & Hfp & _). unfold render.
  apply Forall_app. split; [by apply digit_chars_number|].
  apply Forall_app. split.
  - unfold render_fraction. destruct (frac_digits l) as [|f fp]; [done|].
    constructor; [done|]. by apply digit_chars_number.
  - unfold render_exponent. destruct (exponent l) as [x|]; [|done].
    destruct (format_exponent_chars x) as (ds & -> & _ & Hds & _).
    constructor; [done|]. constructor; [by destruct (x <? 0)%Z|].
    by apply digit_chars_number.
Qed.

Lemma number_char_not_underscore c :
  is_number_char c = true -> c <> 95.
Proof.
  unfold is_number_char, is_digit. intros H.
  rewrite !orb_true_iff, andb_true_iff, !N.leb_le, !N.eqb_eq in H. lia.
Qed.

Lemma drop_underscores_plain s : forall prev,
  prev <> 95 -> Forall (fun c => is_number_char c = true) s ->
  drop_underscores prev s = Some s.
Proof.
  induction s as [|c s IH]; intros prev Hprev Hall; simpl.
  - by destruct (N.eqb_spec prev 95).
  - apply Forall_cons in Hall as [Hc Hall].
    pose proof (number_char_not_underscore c Hc) as Hc95.
    destruct (N.eqb_spec c 95); [done|].
    destruct (N.eqb_spec prev 95); [done|]. simpl.
    by rewrite (IH c Hc95 Hall).
Qed.

Lemma render_head l :
  well_formed l ->
  exists d rest, d < 10 /\ render l = digit_char d :: rest.
Proof.
  intros (Hip & _ & Hshape). unfold render.
  destruct (int_digits l) as [|d ds].
  - destruct Hshape as [|(? & ? & ? & _)]; done.
  - apply Forall_cons in Hip as [Hd _]. by eexists d, _.
Qed.

(** A text that starts with a digit is not one of the names [float]
    knows. *)
Lemma digit_head_no_name d rest :
  d < 10 ->
  bool_decide (map to_lower (digit_char d :: rest) = lit "inf")
  || bool_decide (map to_lower (digit_char d :: rest) = lit "infinity")
  = false
  /\ bool_decide (map to_lower (digit_char d :: rest) = lit "nan") = false.
Proof.
  intros Hd.
  assert (forall c s, c <> digit_char d ->
            bool_decide (map to_lower (digit_char d :: rest) = c :: s) = false)
    as Hne.
  { intros c s Hc. apply bool_decide_eq_false_2. intros [= Heq _].
    apply Hc. rewrite <- Heq. unfold to_lower, digit_char.
    destruct (_ && _) eqn:Hup; [|done].
    rewrite andb_true_iff, !N.leb_le in Hup. lia. }
  change (lit "inf") with [105; 110; 102].
  change (lit "infinity") with [105; 110; 102; 105; 110; 105; 116; 121].
  change (lit "nan") with [110; 97; 110].
  rewrite !Hne by (unfold digit_char; lia). done.
Qed.

(** The text of a literal, with its sign, is read by [float] as the
    decimal it denotes. *)
Lemma float_of_ascii_render (neg : bool) l :
  well_formed l ->
  float_of_ascii ((if neg then [45] else []) ++ render l)
  = Some (SF2Prim (sf_of_decimal neg (literal_digits l)
                     (literal_exponent l))).
Proof.
  intros Hwf. pose proof (render_number_chars l Hwf) as Hchars.
  destruct (render_head l Hwf) as (d & rest & Hd & Hhead).
  assert (Forall (fun c => is_number_char c = true)
            ((if neg then [45] else []) ++ render l)) as Hall.
  { apply Forall_app. split; [|done]. destruct neg; by repeat constructor. }
  unfold float_of_ascii.
  rewrite strip_c_space_fixed by (by apply number_chars_not_space).
  rewrite drop_underscores_plain by done. simpl.
  assert (take_sign ((if neg then [45] else []) ++ render l)
          = (neg, render l)) as ->.
  { destruct neg; [done|]. rewrite Hhead. simpl. unfold take_sign.
    destruct (N.eqb_spec (digit_char d) 45); [unfold digit_char in *; lia|].
    destruct (N.eqb_spec (digit_char d) 43); [unfold digit_char in *; lia|].
    done. }
  destruct (digit_head_no_name d rest Hd) as [Hinf Hnan].
  rewrite Hhead, Hinf, Hnan, <- Hhead.
  by rewrite sf_of_decimal_text_render.
Qed.

(** The text [float_repr] writes for a finite value that is not zero:
    a literal that denotes a decimal which rounds to the value. *)
Lemma float_repr_finite f s m e :
  Prim2SF f = S754_finite s m e ->
  exists l,
    float_repr f = (if s then [45] else []) ++ render l
    /\ well_formed l
    /\ sf_of_decimal s (literal_digits l) (literal_exponent l)
       = S754_finite s m e.
Proof.
  intros Hf. destruct (Prim2SF_finite f s m e Hf) as (Hm & He & Hnorm).
  destruct (shortest_digits_spec m e Hm He Hnorm) as (c & j & Hc & Hback & Hs).
  destruct (decimal_digits_spec c) as (Hval & Hall & _ & _ & Hhead & _).
  destruct (Hhead Hc) as (d & ds & Hds & Hd).
  destruct (drop_trailing_zeros_spec (decimal_digits c)) as [z Hz].
  destruct (drop_trailing_zeros_head d ds Hd) as [ds' Hds'].
  rewrite Hds in Hz, Hs. rewrite Hds' in Hz, Hs.
  assert (Forall (fun d => d < 10) (d :: ds')) as Hall'.
  { rewrite Hds, Hz in Hall. by apply Forall_app in Hall as [? _]. }
  exists (literal_of (d :: ds') (j + Z.of_nat (length (d :: ds)))).
  split; [|split].
  - unfold float_repr. rewrite Hf, Hs. by rewrite format_short_render.
  - by apply literal_of_well_formed.
  - rewrite literal_of_value by done.
    apply (sf_of_decimal_sign s) in Hback. rewrite <- Hback.
    symmetry.
    replace (j + Z.of_nat (length (d :: ds)) - Z.of_nat (length (d :: ds')))%Z
      with (j + Z.of_nat z)%Z.
    2:{ rewrite Hz, length_app, repeat_length. lia. }
    apply sf_of_decimal_scale; [lia|].
    rewrite <- Hval at 1. rewrite Hds, Hz.
    rewrite digits_value_app_gen, digits_value_zeros, repeat_length.
    rewrite N.add_0_r, N2Z.inj_mul, N2Z.inj_pow, nat_N_Z. done.
Qed.

(** [float(repr(f))] is [f], for every float. *)
Lemma float_of_ascii_float_repr f : float_of_ascii (float_repr f) = Some f.
Proof.
  pose proof (SF2Prim_Prim2SF f) as Hback.
  destruct (Prim2SF f) as [s|s| |s m e] eqn:Hf.
  - unfold float_repr. rewrite Hf. rewrite <- Hback. by destruct s.
  - unfold float_repr. rewrite Hf. rewrite <- Hback. by destruct s.
  - unfold float_repr. rewrite Hf. by rewrite <- Hback.
  - destruct (float_repr_finite f s m e Hf) as (l & -> & Hwf & Hval).
    rewrite float_of_ascii_render by done. by rewrite Hval, Hback.
Qed.

Lemma literal_of_is_float ds decpt :
  ds <> [] -> is_float_literal (literal_of ds decpt).
Proof.
  intros Hne. unfold literal_of, is_float_literal.
  destruct ((decpt <=? -4)%Z || (16 <? decpt)%Z); [by right|].
  destruct (decpt <=? 0)%Z eqn:Hsmall.
  { left. cbn [frac_digits]. destruct (repeat _ _); by destruct ds. }
  destruct (Z.of_nat (length ds) <=? decpt)%Z eqn:Hlong; [by left|].
  left. cbn [frac_digits]. apply Z.leb_gt in Hlong, Hsmall.
  intros Hdrop. apply (f_equal length) in Hdrop.
  rewrite length_drop in Hdrop. simpl in Hdrop. lia.
Qed.

(** The text of a finite float: a sign and a well-formed literal with a
    point or an exponent. *)
Lemma float_repr_shape f :
  (exists s m e, Prim2SF f = S754_finite s m e)
  \/ (exists s, Prim2SF f = S754_zero s) ->
  exists neg l,
    float_repr f = sign_text neg ++ render l
    /\ well_formed l /\ is_float_literal l.
Proof.
  intros [(s & m & e & Hf)|[s Hf]].
  - destruct (Prim2SF_finite f s m e Hf) as (Hm & He & Hnorm).
    destruct (shortest_digits_spec m e Hm He Hnorm)
      as (c & j & Hc & Hback & Hs).
    destruct (decimal_digits_spec c) as (Hval & Hall & _ & _ & Hhead & _).
    destruct (Hhead Hc) as (d & ds & Hds & Hd).
    destruct (drop_trailing_zeros_spec (decimal_digits c)) as [z Hz].
    destruct (drop_trailing_zeros_head d ds Hd) as [ds' Hds'].
    rewrite Hds in Hz, Hs. rewrite Hds' in Hz, Hs.
    assert (Forall (fun d => d < 10) (d :: ds')) as Hall'.
    { rewrite Hds, Hz in Hall. by apply Forall_app in Hall as [? _]. }
    exists s, (literal_of (d :: ds') (j + Z.of_nat (length (d :: ds)))).
    split; [|split].
    + unfold float_repr. rewrite Hf, Hs. by rewrite format_short_render.
    + by apply literal_of_well_formed.
    + by apply literal_of_is_float.
  - exists s, (mkLiteral [0] [0] None). split; [|split].
    + unfold float_repr. rewrite Hf. by destruct s.
    + split; [by repeat constructor|]. split; [by repeat constructor|].
      by left.
    + by left.
Qed.

End Literals.

(** * JSON: what [json.dump] writes, [json.load] reads back *)

#[global] Arguments hex_char : simpl never.
#[global] Arguments encode_char : simpl never.
#[global] Arguments scan_string : simpl never.
#[global] Arguments is_high_surrogate : simpl never.
#[global] Arguments is_low_surrogate : simpl never.
#[global] Arguments join_surrogates : simpl never.
#[global] Arguments hex4 : simpl never.
#[global] Arguments escape_u : simpl never.

(** ** Strings *)

Section Strings.

Lemma hex_value_hex_char d : d < 16 -> hex_value (hex_char d) = Some d.
Proof.
  intros Hd.
  assert (d = 0 \/ d = 1 \/ d = 2 \/ d = 3 \/ d = 4 \/ d = 5 \/ d = 6 \/ d = 7
          \/ d = 8 \/ d = 9 \/ d = 10 \/ d = 11 \/ d = 12 \/ d = 13 \/ d = 14
          \/ d = 15) as Hcases by lia.
  repeat (destruct Hcases as [->|Hcases]; [reflexivity|]).
  by subst.
Qed.

Lemma hex_digits c :
  c < 65536 ->
  ((c / 4096 mod 16 * 16 + c / 256 mod 16) * 16 + c / 16 mod 16) * 16
  + c mod 16 = c.
Proof.
  intros H.
  pose proof (N.div_mod c 16 ltac:(lia)).
  pose proof (N.mod_lt c 16 ltac:(lia)).
  pose proof (N.div_mod (c / 16) 16 ltac:(lia)).
  pose proof (N.mod_lt (c / 16) 16 ltac:(lia)).
  pose proof (N.div_mod (c / 16 / 16) 16 ltac:(lia)).
  pose proof (N.mod_lt (c / 16 / 16) 16 ltac:(lia)).
  rewrite !N.Div0.div_div in *.
  change (16 * 16) with 256 in *. change (256 * 16) with 4096 in *.
  assert (c / 4096 < 16) by (apply N.Div0.div_lt_upper_bound; lia).
  rewrite (N.mod_small (c / 4096) 16) by lia. lia.
Qed.

(** The four hexadecimal digits of an escape give the character back. *)
Lemma hex4_escape c :
  c < 65536 ->
  hex4 (hex_char (c / 4096 mod 16)) (hex_char (c / 256 mod 16))
    (hex_char (c / 16 mod 16)) (hex_char (c mod 16)) = Some c.
Proof.
  intros Hc. unfold hex4.
  rewrite !hex_value_hex_char by (apply N.mod_lt; lia). simpl.
  by rewrite hex_digits.
Qed.

Lemma scan_string_cons c s1 :
  scan_string (c :: s1)
  = if c =? 34 then Some ([], s1)
    else if c <=? 31 then None
    else if c =? 92 then
      match s1 with
      | [] => None
      | esc :: s2 =>
          if esc =? 117 then
            match s2 with
            | h1 :: h2 :: h3 :: h4 :: s3 =>
                u ← hex4 h1 h2 h3 h4;
                match s3 with
                | b :: u' :: g1 :: g2 :: g3 :: g4 :: (_ :: _) as s4 =>
                    if is_high_surrogate u && (b =? 92) && (u' =? 117)
                    then
                      u2 ← hex4 g1 g2 g3 g4;
                      if is_low_surrogate u2 then
                        '(r, rest) ← scan_string s4;
                        Some (join_surrogates u u2 :: r, rest)
                      else
                        '(r, rest) ← scan_string s3; Some (u :: r, rest)
                    else
                      '(r, rest) ← scan_string s3; Some (u :: r, rest)
                | _ => '(r, rest) ← scan_string s3; Some (u :: r, rest)
                end
            | _ => None
            end
          else
            ch ← simple_escape esc;
            '(r, rest) ← scan_string s2; Some (ch :: r, rest)
      end
    else '(r, rest) ← scan_string s1; Some (c :: r, rest).
Proof. reflexivity. Qed.

(** After an escape that is no high surrogate, the scan goes on with the
    next character. *)
Lemma after_plain_escape u s3 :
  is_high_surrogate u = false ->
  after_escape u s3 = '(r, rest) ← scan_string s3; Some (u :: r, rest).
Proof.
  intros Hu. unfold after_escape.
  destruct s3 as [|b [|u' [|g1 [|g2 [|g3 [|g4 [|x s4]]]]]]]; try done.
  by rewrite Hu.
Qed.

(** So it does when what follows is no escape [\u]. *)
Lemma after_escape_head u b t :
  b <> 92 ->
  after_escape u (b :: t)
  = '(r, rest) ← scan_string (b :: t); Some (u :: r, rest).
Proof.
  intros Hb. unfold after_escape.
  destruct t as [|u' [|g1 [|g2 [|g3 [|g4 [|x s4]]]]]]; try done.
  destruct (N.eqb_spec b 92); [done|]. by rewrite andb_false_r.
Qed.

Lemma after_escape_second u x t :
  x <> 117 ->
  after_escape u (92 :: x :: t)
  = '(r, rest) ← scan_string (92 :: x :: t); Some (u :: r, rest).
Proof.
  intros Hx. unfold after_escape.
  destruct t as [|g1 [|g2 [|g3 [|g4 [|y s4]]]]]; try done.
  destruct (N.eqb_spec x 117); [done|]. by rewrite andb_false_r.
Qed.

(** And when the escape that follows is no low surrogate. *)
Lemma after_escape_escape u u2 tail :
  u2 < 65536 -> is_low_surrogate u2 = false ->
  after_escape u (escape_u u2 ++ tail)
  = '(r, rest) ← scan_string (escape_u u2 ++ tail); Some (u :: r, rest).
Proof.
  intros Hu2 Hlow. unfold after_escape, escape_u at 1. cbn [app].
  destruct tail as [|y tail]; [done|].
  destruct (is_high_surrogate u && (92 =? 92) && (117 =? 117)); [|done].
  rewrite hex4_escape by done. simpl. by rewrite Hlow.
Qed.

Lemma lor_shiftl_add a b n : b < 2 ^ n -> N.lor (N.shiftl a n) b = a * 2 ^ n + b.
Proof.
  intros Hb. rewrite <- N.shiftl_mul_pow2.
  assert (N.land (N.shiftl a n) b = 0) as Hland.
  { apply N.bits_inj. intros i. rewrite N.land_spec, N.bits_0.
    destruct (N.lt_ge_cases i n) as [Hlt|Hge].
    - by rewrite N.shiftl_spec_low.
    - destruct (N.eq_dec b 0) as [->|Hb0];
        [by rewrite N.bits_0, andb_false_r|].
      rewrite (N.bits_above_log2 b i); [apply andb_false_r|].
      apply N.log2_lt_pow2; [lia|].
      eapply N.lt_le_trans; [exact Hb|]. apply N.pow_le_mono_r; lia. }
  by rewrite N.add_nocarry_lxor, N.lxor_lor.
Qed.

(** The two halves of a character beyond the basic plane. *)
Lemma surrogates c :
  65536 <= c <= 0x10FFFF ->
  let v := c - 0x10000 in
  let hi := N.lor 0xD800 (N.land (N.shiftr v 10) 0x3FF) in
  let lo := N.lor 0xDC00 (N.land v 0x3FF) in
  hi < 65536 /\ lo < 65536
  /\ is_high_surrogate hi = true /\ is_low_surrogate hi = false
  /\ is_low_surrogate lo = true
  /\ join_surrogates hi lo = c.
Proof.
  intros Hc v hi lo.
  assert (v < 1048576) as Hv by (unfold v; lia).
  assert (v / 1024 < 1024) as Hq by (apply N.Div0.div_lt_upper_bound; lia).
  pose proof (N.mod_lt v 1024 ltac:(lia)) as Hr.
  pose proof (N.div_mod v 1024 ltac:(lia)) as Hdm.
  assert (hi = 0xD800 + v / 1024) as Hhi.
  { unfold hi. change 0x3FF with (N.ones 10). rewrite N.land_ones.
    rewrite N.shiftr_div_pow2. change (2 ^ 10) with 1024.
    rewrite N.mod_small by done.
    change 0xD800 with (N.shiftl 54 10) at 1.
    rewrite lor_shiftl_add by (change (2 ^ 10) with 1024; lia).
    change (2 ^ 10) with 1024. lia. }
  assert (lo = 0xDC00 + v mod 1024) as Hlo.
  { unfold lo. change 0x3FF with (N.ones 10). rewrite N.land_ones.
    change (2 ^ 10) with 1024.
    change 0xDC00 with (N.shiftl 55 10) at 1.
    rewrite lor_shiftl_add by (change (2 ^ 10) with 1024; lia).
    change (2 ^ 10) with 1024. lia. }
  unfold is_high_surrogate, is_low_surrogate, join_surrogates.
  rewrite Hhi, Hlo.
  assert (c = 65536 + v) as Hcv by (unfold v; lia).
  set (q := v / 1024) in *. set (r := v mod 1024) in *.
  clearbody q r. clear Hhi Hlo. clearbody v. clear hi lo.
  replace (0xD800 + q - 0xD800) with q by lia.
  replace (0xDC00 + r - 0xDC00) with r by lia.
  rewrite lor_shiftl_add by (change (2 ^ 10) with 1024; lia).
  change (2 ^ 10) with 1024.
  repeat split; try lia.
  - apply andb_true_iff. split; apply N.leb_le; lia.
  - apply andb_false_iff. left. apply N.leb_gt. lia.
  - apply andb_true_iff. split; apply N.leb_le; lia.
Qed.

(** The ways [encode_char] writes a character. *)
Lemma encode_char_cases c :
  (encode_char c = [c] /\ c <> 34 /\ c <> 92 /\ 32 <= c)
  \/ (exists x, encode_char c = [92; x] /\ x <> 117
              /\ simple_escape x = Some c)
  \/ (c < 65536 /\ encode_char c = escape_u c)
  \/ (65536 <= c
      /\ encode_char c
         = escape_u (N.lor 0xD800 (N.land (N.shiftr (c - 0x10000) 10) 0x3FF))
           ++ escape_u (N.lor 0xDC00 (N.land (c - 0x10000) 0x3FF))).
Proof.
  unfold encode_char.
  destruct (N.eqb_spec c 34) as [->|H34]; [right; left; by exists 34|].
  destruct (N.eqb_spec c 92) as [->|H92]; [right; left; by exists 92|].
  destruct (N.eqb_spec c 10) as [->|H10]; [right; left; by exists 110|].
  destruct (N.eqb_spec c 13) as [->|H13]; [right; left; by exists 114|].
  destruct (N.eqb_spec c 9) as [->|H9]; [right; left; by exists 116|].
  destruct (N.eqb_spec c 8) as [->|H8]; [right; left; by exists 98|].
  destruct (N.eqb_spec c 12) as [->|H12]; [right; left; by exists 102|].
  destruct ((32 <=? c) && (c <=? 126)) eqn:Hprint.
  { left. apply andb_true_iff in Hprint as [H32 _]. apply N.leb_le in H32.
    done. }
  destruct (N.ltb_spec c 0x10000) as [Hlt|Hge].
  - right; right; left. done.
  - right; right; right. done.
Qed.

Lemma scan_string_escape_u u tail :
  u < 65536 -> scan_string (escape_u u ++ tail) = after_escape u tail.
Proof.
  intros Hu. unfold escape_u. cbn [app]. rewrite scan_string_cons.
  change (92 =? 34) with false. change (92 <=? 31) with false.
  change (92 =? 92) with true. change (117 =? 117) with true. cbv iota.
  by rewrite hex4_escape.
Qed.

(** A character beyond the basic plane is read back from its pair of
    escapes. *)
Lemma scan_string_pair c x tail :
  65536 <= c <= 0x10FFFF ->
  scan_string (encode_char c ++ x :: tail)
  = '(r, rest) ← scan_string (x :: tail); Some (c :: r, rest).
Proof.
  intros Hc.
  destruct (encode_char_cases c)
    as [(_ & _ & _ & _)|[(y & Hy & _ & Hs)|[(Hlt & _)|(_ & ->)]]].
  - unfold encode_char.
    repeat match goal with
    | |- context [?a =? ?b] => destruct (N.eqb_spec a b); [lia|]
    end.
    destruct ((32 <=? c) && (c <=? 126)) eqn:Hp.
    { apply andb_true_iff in Hp as [_ Hp]. apply N.leb_le in Hp. lia. }
    destruct (N.ltb_spec c 0x10000); [lia|].
    destruct (surrogates c Hc) as (Hhi & Hlo & Hhigh & _ & Hlow & Hjoin).
    rewrite <- app_assoc. rewrite scan_string_escape_u by done.
    unfold after_escape. unfold escape_u at 1. cbn [app].
    rewrite Hhigh. change (92 =? 92) with true. change (117 =? 117) with true.
    cbn [andb]. rewrite hex4_escape by done. simpl.
    by rewrite Hlow, Hjoin.
  - exfalso. unfold simple_escape in Hs.
    repeat match type of Hs with
    | context [?a =? ?b] => destruct (N.eqb_spec a b); [injection Hs; lia|]
    end. done.
  - lia.
  - destruct (surrogates c Hc) as (Hhi & Hlo & Hhigh & _ & Hlow & Hjoin).
    rewrite <- app_assoc. rewrite scan_string_escape_u by done.
    unfold after_escape. unfold escape_u at 1. cbn [app].
    rewrite Hhigh. change (92 =? 92) with true. change (117 =? 117) with true.
    cbn [andb]. rewrite hex4_escape by done. simpl.
    by rewrite Hlow, Hjoin.
Qed.

Lemma encode_chars_cons c s :
  encode_chars (c :: s) = encode_char c ++ encode_chars s.
Proof. reflexivity. Qed.

Lemma simple_escape_bound x c : simple_escape x = Some c -> c < 128.
Proof.
  unfold simple_escape.
  repeat match goal with
  | |- context [?a =? ?b] => destruct (N.eqb_spec a b); [intros [= <-]; lia|]
  end. done.
Qed.

(** After the escape of a high surrogate that no low surrogate follows
    in the string, the scan goes on with the next character. *)
Lemma after_high_escape u s rest :
  match s with c :: _ => is_low_surrogate c = false | [] => True end ->
  Forall (fun c => c <= 0x10FFFF) s ->
  after_escape u (encode_chars s ++ 34 :: rest)
  = '(r, rest') ← scan_string (encode_chars s ++ 34 :: rest);
    Some (u :: r, rest').
Proof.
  intros Hlow Hmax. destruct s as [|c s].
  { by apply after_escape_head. }
  apply Forall_cons in Hmax as [Hc _].
  rewrite encode_chars_cons, <- app_assoc.
  destruct (encode_char_cases c)
    as [(-> & _ & H92 & _)|[(x & -> & Hx & _)|[(Hlt & ->)|(Hge & ->)]]].
  - by apply after_escape_head.
  - by apply after_escape_second.
  - by apply after_escape_escape.
  - destruct (surrogates c ltac:(lia)) as (Hhi & _ & _ & Hnot & _).
    rewrite <- app_assoc. by apply after_escape_escape.
Qed.

Lemma is_text_cons c s :
  is_text (c :: s) = true ->
  c <= 0x10FFFF
  /\ (is_high_surrogate c = true ->
      match s with c' :: _ => is_low_surrogate c' = false | [] => True end)
  /\ is_text s = true.
Proof.
  simpl. rewrite !andb_true_iff, negb_true_iff, N.leb_le.
  intros [[Hc Hpair] Hs]. split; [done|]. split; [|done].
  intros Hhigh. rewrite Hhigh in Hpair. simpl in Hpair. by destruct s.
Qed.

Lemma is_text_max s : is_text s = true -> Forall (fun c => c <= 0x10FFFF) s.
Proof.
  induction s as [|c s IH]; [done|].
  intros (Hc & _ & Hs)%is_text_cons. constructor; [done|by apply IH].
Qed.

(** A string is read back from what [json.dump] writes for it. *)
Lemma scan_string_encoded s : forall rest,
  is_text s = true ->
  scan_string (encode_chars s ++ 34 :: rest) = Some (s, rest).
Proof.
  induction s as [|c s IH]; intros rest Htext.
  { change (scan_string (34 :: rest) = Some ([], rest)).
    by rewrite scan_string_cons. }
  apply is_text_cons in Htext as (Hc & Hpair & Hs).
  specialize (IH rest Hs).
  rewrite encode_chars_cons, <- app_assoc.
  destruct (encode_char_cases c)
    as [(-> & H34 & H92 & H32)|[(x & -> & Hx & Hesc)|[(Hlt & ->)|(Hge & ->)]]].
  - cbn [app]. rewrite scan_string_cons.
    destruct (N.eqb_spec c 34); [done|].
    destruct (N.leb_spec c 31); [lia|].
    destruct (N.eqb_spec c 92); [done|].
    by rewrite IH.
  - cbn [app]. rewrite scan_string_cons.
    change (92 =? 34) with false. change (92 <=? 31) with false.
    change (92 =? 92) with true. cbv iota.
    destruct (N.eqb_spec x 117); [done|].
    rewrite Hesc. simpl. by rewrite IH.
  - rewrite scan_string_escape_u by done.
    destruct (is_high_surrogate c) eqn:Hhigh.
    + rewrite after_high_escape; [by rewrite IH| by apply Hpair |].
      by apply is_text_max.
    + rewrite after_plain_escape by done. by rewrite IH.
  - pose proof (encode_char_cases c) as Hcases.
    assert (encode_char c
            = escape_u (N.lor 0xD800 (N.land (N.shiftr (c - 0x10000) 10) 0x3FF))
              ++ escape_u (N.lor 0xDC00 (N.land (c - 0x10000) 0x3FF))) as <-.
    { destruct Hcases
        as [(_ & _ & _ & _)|[(y & _ & _ & Hy)|[(Hlt & _)|(_ & ->)]]];
        [| |lia|done].
      - unfold encode_char.
        repeat match goal with
        | |- context [?a =? ?b] => destruct (N.eqb_spec a b); [lia|]
        end.
        destruct ((32 <=? c) && (c <=? 126)) eqn:Hp.
        { apply andb_true_iff in Hp as [_ Hp]. apply N.leb_le in Hp. lia. }
        by destruct (N.ltb_spec c 0x10000); [lia|].
      - apply simple_escape_bound in Hy. lia. }
    destruct (encode_chars s) as [|y t] eqn:Htail; cbn [app] in *.
    + rewrite scan_string_pair by lia. by rewrite IH.
    + rewrite scan_string_pair by lia. by rewrite IH.
Qed.

End Strings.

(** ** Numbers *)

Section Numbers.

(** [match_number] as its three parts one after the other. *)
Lemma match_number_parts sign_is_minus c r1 :
  is_digit c = true ->
  match_number (sign_text sign_is_minus ++ c :: r1)
  = let '(int_part, r2) := match_int_part c r1 in
    let '(frac, r3) := match_fraction r2 in
    let '(exp, r4) := match_exponent r3 in
    Some (negb (bool_decide (frac = []) && bool_decide (exp = [])),
          sign_text sign_is_minus ++ int_part ++ frac ++ exp, r4).
Proof.
  intros Hc. unfold match_number.
  destruct sign_is_minus; cbn [sign_text app].
  - change (45 =? 45) with true. cbv iota. by rewrite Hc.
  - destruct (N.eqb_spec c 45) as [->|_]; [done|]. by rewrite Hc.
Qed.

Lemma ends_number_head rest : ends_number rest -> not_digit_head rest.
Proof.
  destruct rest as [|c rest]; [done|]. simpl. intros [Hc _].
  unfold is_number_char in Hc. rewrite !orb_false_iff in Hc. tauto.
Qed.

Lemma render_exponent_chars x :
  render_exponent x = []
  \/ exists g ds,
       render_exponent x = 101 :: g :: map digit_char ds
       /\ (g =? 45) || (g =? 43) = true
       /\ ds <> [] /\ Forall (fun d => d < 10) ds.
Proof.
  destruct x as [x|]; [right|by left]. simpl.
  destruct (format_exponent_chars x) as (ds & -> & Hne & Hall & _).
  eexists _, ds. split; [reflexivity|]. split; [by destruct (x <? 0)%Z|done].
Qed.

Lemma match_exponent_render x rest :
  ends_number rest ->
  match_exponent (render_exponent x ++ rest) = (render_exponent x, rest).
Proof.
  intros Hrest. pose proof (ends_number_head rest Hrest) as Hhead.
  destruct (render_exponent_chars x) as [->|(g & ds & -> & Hg & Hne & Hall)].
  - cbn [app]. destruct rest as [|c rest]; [done|]. simpl in Hrest.
    destruct Hrest as [Hc H69]. unfold is_number_char in Hc.
    rewrite !orb_false_iff in Hc. destruct Hc as [_ H101].
    unfold match_exponent. rewrite H101.
    by destruct (N.eqb_spec c 69).
  - cbn [app]. unfold match_exponent.
    change ((101 =? 101) || (101 =? 69)) with true. cbv iota. rewrite Hg.
    rewrite span_is_digit_chars by done.
    destruct ds as [|d ds]; [done|]. reflexivity.
Qed.

Lemma match_fraction_render fp tail :
  Forall (fun d => d < 10) fp ->
  not_digit_head tail ->
  match tail with c :: _ => c <> 46 | [] => True end ->
  match_fraction (render_fraction fp ++ tail) = (render_fraction fp, tail).
Proof.
  intros Hall Hhead Hpoint. destruct fp as [|f fp].
  - cbn [render_fraction app]. unfold match_fraction.
    destruct tail as [|p [|d r]]; try done.
    by destruct (N.eqb_spec p 46).
  - rewrite render_fraction_cons by done. cbn [map app].
    apply Forall_cons in Hall as [Hf Hall]. unfold match_fraction.
    change (46 =? 46) with true. rewrite is_digit_digit_char by done.
    cbn [andb]. by rewrite span_is_digit_chars.
Qed.

Lemma match_int_part_render d ds tail :
  Forall (fun d => d < 10) (d :: ds) ->
  ((d = 0 /\ ds = []) \/ 0 < d) ->
  not_digit_head tail ->
  match_int_part (digit_char d) (map digit_char ds ++ tail)
  = (map digit_char (d :: ds), tail).
Proof.
  intros Hall Hshape Hhead. apply Forall_cons in Hall as [Hd Hall].
  unfold match_int_part.
  destruct Hshape as [[-> ->]|Hpos]; [done|].
  destruct (N.eqb_spec (digit_char d) 48) as [H48|_];
    [unfold digit_char in H48; lia|].
  by rewrite span_is_digit_chars.
Qed.

Lemma render_exponent_no_point x rest :
  ends_number rest ->
  match render_exponent x ++ rest with c :: _ => c <> 46 | [] => True end.
Proof.
  intros Hrest.
  destruct (render_exponent_chars x) as [->|(g & ds & -> & _)]; [|done].
  destruct rest as [|c rest]; [done|]. simpl in *. destruct Hrest as [Hc _].
  unfold is_number_char in Hc. rewrite !orb_false_iff in Hc.
  destruct Hc as [[_ H46] _]. by apply N.eqb_neq.
Qed.

Lemma not_digit_head_app s t :
  s <> [] -> not_digit_head s -> not_digit_head (s ++ t).
Proof. by destruct s. Qed.

(** The number scanner reads a well-formed literal to its end, and tells
    whether it has a point or an exponent. *)
Lemma match_number_render neg l rest :
  well_formed l -> ends_number rest ->
  match_number (sign_text neg ++ render l ++ rest)
  = Some (negb (bool_decide (render_fraction (frac_digits l) = [])
                && bool_decide (render_exponent (exponent l) = [])),
          sign_text neg ++ render l, rest).
Proof.
  intros (Hip & Hfp & Hshape) Hrest.
  destruct l as [ip fp x]. unfold render.
  cbn [int_digits frac_digits exponent] in *.
  assert (exists d ds, ip = d :: ds /\ ((d = 0 /\ ds = []) \/ 0 < d))
    as (d & ds & -> & Hd).
  { destruct Hshape as [->|(d & ds & -> & Hd)].
    - exists 0, []. split; [done|]. by left.
    - exists d, ds. split; [done|]. by right. }
  pose proof (ends_number_head rest Hrest) as Hhead.
  assert (not_digit_head (render_exponent x ++ rest)) as Hexp_head.
  { destruct (render_exponent_chars x) as [->|(g & ds' & -> & _)]; done. }
  assert (not_digit_head
            (render_fraction fp ++ render_exponent x ++ rest)) as Hfrac_head.
  { destruct fp as [|f fp]; [done|]. by rewrite render_fraction_cons. }
  rewrite <- !app_assoc. cbn [map app].
  rewrite match_number_parts
    by (apply is_digit_digit_char; by apply Forall_cons in Hip as [? _]).
  rewrite match_int_part_render by done.
  rewrite match_fraction_render;
    [|done|done|by apply render_exponent_no_point].
  rewrite match_exponent_render by done.
  reflexivity.
Qed.

End Numbers.

(** ** Values *)

Section Values.

Lemma scan_once_quote fuel r :
  scan_once (S fuel) (34 :: r)
  = '(str, r') ← scan_string r; Some (JStr str, r').
Proof. reflexivity. Qed.

Lemma scan_once_brace fuel r :
  scan_once (S fuel) (123 :: r)
  = match skip_ws r with
    | c' :: r' =>
        if c' =? 125 then Some (JDict [], r')
        else if c' =? 34 then
          '(kxs, r'') ← scan_pairs fuel (length (123 :: r)) r';
          Some (JDict (dict_of_pairs kxs), r'')
        else None
    | [] => None
    end.
Proof. reflexivity. Qed.

Lemma scan_once_other fuel c r :
  (c =? 34) = false -> (c =? 123) = false -> (c =? 91) = false ->
  scan_once (S fuel) (c :: r)
  = match strip_prefix (lit "null") (c :: r) with
    | Some r' => Some (JNull, r')
    | None =>
    match strip_prefix (lit "true") (c :: r) with
    | Some r' => Some (JBool true, r')
    | None =>
    match strip_prefix (lit "false") (c :: r) with
    | Some r' => Some (JBool false, r')
    | None =>
    match strip_prefix (lit "-Infinity") (c :: r) with
    | Some r' => Some (JFloat neg_infinity, r')
    | None =>
    match match_number (c :: r) with
    | Some (true, text, r') =>
        f ← float_of_ascii text; Some (JFloat f, r')
    | Some (false, text, r') =>
        z ← int_of_ascii text; Some (JInt z, r')
    | None =>
    match strip_prefix (lit "NaN") (c :: r) with
    | Some r' => Some (JFloat nan, r')
    | None =>
    match strip_prefix (lit "Infinity") (c :: r) with
    | Some r' => Some (JFloat infinity, r')
    | None => None
    end end end end end end end.
Proof.
  intros H34 H123 H91. cbn [scan_once]. rewrite H34, H123, H91. reflexivity.
Qed.

(** A string value is read back. *)
Lemma scan_once_string fuel s rest :
  is_text s = true ->
  scan_once (S fuel) (encode_string s ++ rest) = Some (JStr s, rest).
Proof.
  intros Htext. unfold encode_string. rewrite <- !app_assoc. cbn [app].
  rewrite scan_once_quote. fold (encode_chars s).
  by rewrite scan_string_encoded.
Qed.

Lemma strip_prefix_head a p c r :
  a <> c -> strip_prefix (a :: p) (c :: r) = None.
Proof. intros H. simpl. by destruct (N.eqb_spec a c). Qed.

Lemma strip_prefix_second a b p d r :
  b <> d -> strip_prefix (a :: b :: p) (a :: d :: r) = None.
Proof.
  intros H. simpl. rewrite N.eqb_refl. by destruct (N.eqb_spec b d).
Qed.

(** A number is none of the words the scanner knows. *)
Lemma number_no_keyword neg d t :
  d < 10 ->
  let s := sign_text neg ++ digit_char d :: t in
  strip_prefix (lit "null") s = None
  /\ strip_prefix (lit "true") s = None
  /\ strip_prefix (lit "false") s = None
  /\ strip_prefix (lit "-Infinity") s = None.
Proof.
  intros Hd s. subst s.
  change (lit "null") with [110; 117; 108; 108].
  change (lit "true") with [116; 114; 117; 101].
  change (lit "false") with [102; 97; 108; 115; 101].
  change (lit "-Infinity") with [45; 73; 110; 102; 105; 110; 105; 116; 121].
  pose proof (digit_char_bounds d Hd) as Hb.
  destruct neg; cbn [sign_text app].
  - repeat split; try (by apply strip_prefix_head).
    apply strip_prefix_second. lia.
  - repeat split; apply strip_prefix_head; lia.
Qed.

Lemma number_head neg d t :
  d < 10 ->
  exists c r,
    sign_text neg ++ digit_char d :: t = c :: r
    /\ (c =? 34) = false /\ (c =? 123) = false /\ (c =? 91) = false
    /\ is_json_ws c = false.
Proof.
  intros Hd. pose proof (digit_char_bounds d Hd) as Hb.
  destruct neg; cbn [sign_text app].
  - by eexists _, _.
  - eexists _, _. split; [reflexivity|]. unfold is_json_ws.
    repeat match goal with
    | |- context [?a =? ?b] => destruct (N.eqb_spec a b); [lia|]
    end. done.
Qed.

(** What the scanner does with the text of a literal. *)
Lemma scan_once_literal fuel neg l rest :
  well_formed l -> ends_number rest ->
  scan_once (S fuel) (sign_text neg ++ render l ++ rest)
  = (if negb (bool_decide (render_fraction (frac_digits l) = [])
              && bool_decide (render_exponent (exponent l) = []))
     then f ← float_of_ascii (sign_text neg ++ render l);
          Some (JFloat f, rest)
     else z ← int_of_ascii (sign_text neg ++ render l);
          Some (JInt z, rest))
  /\ skip_ws (sign_text neg ++ render l ++ rest)
     = sign_text neg ++ render l ++ rest.
Proof.
  intros Hwf Hrest.
  pose proof (match_number_render neg l rest Hwf Hrest) as Hnum.
  destruct (render_head l Hwf) as (d & t & Hd & Hhead).
  rewrite Hhead in *. cbn [app] in *.
  destruct (number_no_keyword neg d (t ++ rest) Hd) as (H1 & H2 & H3 & H4).
  destruct (number_head neg d (t ++ rest) Hd)
    as (c & r & Hcr & H34 & H123 & H91 & Hws).
  rewrite Hcr in *. split.
  - rewrite scan_once_other by done. rewrite H1, H2, H3, H4, Hnum.
    by destruct (negb _).
  - simpl. by rewrite Hws.
Qed.

Lemma ends_value_number rest : ends_value rest -> ends_number rest.
Proof. by intros (c & s & -> & [->| ->]). Qed.

(** An [int] is read back. *)
Lemma scan_once_int fuel z rest :
  ends_value rest ->
  scan_once (S fuel) (str_of_int z ++ rest) = Some (JInt z, rest)
  /\ skip_ws (str_of_int z ++ rest) = str_of_int z ++ rest.
Proof.
  intros Hrest%ends_value_number.
  destruct (decimal_digits_spec (Z.abs_N z))
    as (_ & Hall & _ & _ & Hhead & Hzero).
  set (l := mkLiteral (decimal_digits (Z.abs_N z)) [] None).
  assert (well_formed l) as Hwf.
  { split; [done|]. split; [done|]. cbn [int_digits l].
    destruct (N.eq_dec (Z.abs_N z) 0) as [H0|H0].
    - left. by apply Hzero.
    - right. apply Hhead. lia. }
  assert (str_of_int z = sign_text (z <? 0)%Z ++ render l) as Htext.
  { unfold str_of_int, render, l. cbn [int_digits frac_digits exponent].
    cbn [render_fraction render_exponent]. rewrite !app_nil_r.
    by destruct (z <? 0)%Z. }
  destruct (scan_once_literal fuel (z <? 0)%Z l rest Hwf Hrest)
    as [Hscan Hws].
  rewrite Htext, <- !app_assoc. split; [|done].
  rewrite Hscan. cbn [l frac_digits exponent render_fraction render_exponent].
  simpl negb. cbv iota. rewrite <- Htext.
  by rewrite int_of_ascii_str_of_int.
Qed.

(** A [float] is read back. *)
Lemma scan_once_float fuel f rest :
  ends_value rest ->
  scan_once (S fuel) (encode_float f ++ rest) = Some (JFloat f, rest)
  /\ skip_ws (encode_float f ++ rest) = encode_float f ++ rest.
Proof.
  intros Hrest%ends_value_number.
  pose proof (SF2Prim_Prim2SF f) as Hback.
  assert ((exists s m e, Prim2SF f = S754_finite s m e)
          \/ (exists s, Prim2SF f = S754_zero s) ->
          scan_once (S fuel) (float_repr f ++ rest) = Some (JFloat f, rest)
          /\ skip_ws (float_repr f ++ rest) = float_repr f ++ rest)
    as Hfinite.
  { intros Hshape.
    destruct (float_repr_shape f Hshape) as (neg & l & Htext & Hwf & Hfl).
    destruct (scan_once_literal fuel neg l rest Hwf Hrest) as [Hscan Hws].
    rewrite Htext, <- !app_assoc. split; [|done].
    rewrite Hscan.
    assert (negb (bool_decide (render_fraction (frac_digits l) = [])
                  && bool_decide (render_exponent (exponent l) = []))
            = true) as ->.
    { apply negb_true_iff, andb_false_iff. destruct Hfl as [Hfp|Hx].
      - left. apply bool_decide_eq_false_2.
        by rewrite render_fraction_cons.
      - right. apply bool_decide_eq_false_2.
        destruct (exponent l) as [x|]; [|done]. simpl.
        by destruct (format_exponent_chars x) as (ds & -> & _). }
    rewrite <- Htext. by rewrite float_of_ascii_float_repr. }
  unfold encode_float.
  destruct (Prim2SF f) as [s|s| |s m e] eqn:Hf.
  - apply Hfinite. right. by exists s.
  - rewrite <- Hback. destruct s; split; reflexivity.
  - rewrite <- Hback. split; reflexivity.
  - apply Hfinite. left. by exists s, m, e.
Qed.

End Values.

(** ** Objects *)

#[global] Arguments newline_indent : simpl never.
#[global] Arguments encode_string : simpl never.
#[global] Arguments encode_float : simpl never.
#[global] Arguments skip_ws : simpl never.

Section Objects.

Lemma skip_ws_cons c s :
  skip_ws (c :: s) = if is_json_ws c then skip_ws s else c :: s.
Proof. reflexivity. Qed.

Lemma skip_ws_stop c s : is_json_ws c = false -> skip_ws (c :: s) = c :: s.
Proof. intros H. by rewrite skip_ws_cons, H. Qed.

Lemma skip_ws_spaces n s : skip_ws (repeat 32 n ++ s) = skip_ws s.
Proof. induction n as [|n IH]; [done|]. cbn [repeat app]. by rewrite skip_ws_cons. Qed.

Lemma skip_ws_newline_indent indent level s :
  skip_ws (newline_indent indent level ++ s) = skip_ws s.
Proof.
  unfold newline_indent. cbn [app]. rewrite skip_ws_cons.
  change (is_json_ws 10) with true. cbv iota. apply skip_ws_spaces.
Qed.

Lemma scan_pairs_S fuel n s :
  scan_pairs fuel (S n) s
  = '(k, r) ← scan_string s;
    match skip_ws r with
    | c :: r1 =>
        if c =? 58 then
          '(x, r2) ← scan_once fuel (skip_ws r1);
          match skip_ws r2 with
          | c' :: r3 =>
              if c' =? 125 then Some ([(k, x)], r3)
              else if c' =? 44 then
                match skip_ws r3 with
                | q :: r4 =>
                    if q =? 34 then
                      '(kxs, r5) ← scan_pairs fuel n r4;
                      Some ((k, x) :: kxs, r5)
                    else None
                | [] => None
                end
              else None
          | [] => None
          end
        else None
    | [] => None
    end.
Proof. reflexivity. Qed.

Lemma encode_string_chars k : encode_string k = 34 :: encode_chars k ++ [34].
Proof. reflexivity. Qed.

(** The text of an object with at least one member. *)
Lemma encode_dict indent level k x xs :
  encode indent level (JDict ((k, x) :: xs))
  = [123] ++ newline_indent indent (S level)
    ++ member_text indent (S level) (k, x)
    ++ more_members indent (S level) xs
    ++ newline_indent indent level ++ [125].
Proof.
  cbn [encode]. unfold member_text. cbn [fst snd].
  rewrite <- !app_assoc. do 5 f_equal.
  f_equal. induction xs as [|[k' y] xs IH]; [done|].
  cbn [more_members]. unfold member_text. cbn [fst snd].
  rewrite <- !app_assoc. by rewrite IH.
Qed.

Lemma length_more_members indent level kxs :
  (length kxs <= length (more_members indent level kxs))%nat.
Proof.
  induction kxs as [|kx kxs IH]; [done|]. cbn [more_members length].
  rewrite !length_app. simpl length. lia.
Qed.

(** The loop over the pairs reads the members of an object back, when
    their keys are text and their values are read back. *)
Lemma scan_pairs_members fuel indent level closing rest xs : forall k x n,
  (length xs < n)%nat ->
  Forall (fun kx : pystr * json =>
            is_text kx.1 = true /\ reads_back fuel indent level kx.2)
    ((k, x) :: xs) ->
  scan_pairs fuel n
    (encode_chars k ++ 34 :: 58 :: 32 :: encode indent level x
     ++ more_members indent level xs
     ++ newline_indent indent closing ++ 125 :: rest)
  = Some ((k, x) :: xs, rest).
Proof.
  induction xs as [|[k' x'] xs IH]; intros k x n Hn Hall;
    (destruct n as [|n]; [simpl in Hn; lia|]);
    apply Forall_cons in Hall as [[Hk Hx] Hall]; cbn [fst snd] in *;
    rewrite scan_pairs_S, scan_string_encoded by done;
    cbn [mbind option_bind app]; rewrite skip_ws_stop by done;
    change (58 =? 58) with true; cbv iota;
    rewrite skip_ws_cons; change (is_json_ws 32) with true; cbv iota.
  - cbn [more_members app].
    destruct (Hx (newline_indent indent closing ++ 125 :: rest))
      as [Hscan Hws]; [by eexists _, _; split; [reflexivity|right]|].
    rewrite Hws, Hscan. cbn [mbind option_bind].
    rewrite skip_ws_newline_indent, skip_ws_stop by done.
    by change (125 =? 125) with true.
  - cbn [more_members]. rewrite <- !app_assoc. cbn [app].
    set (tail := newline_indent indent level ++ _).
    destruct (Hx (44 :: tail))
      as [Hscan Hws]; [by eexists _, _; split; [reflexivity|left]|].
    rewrite Hws, Hscan. cbn [mbind option_bind].
    rewrite skip_ws_stop by done.
    change (44 =? 125) with false. change (44 =? 44) with true. cbv iota.
    unfold tail, member_text. cbn [fst snd].
    rewrite skip_ws_newline_indent, encode_string_chars.
    rewrite <- !app_assoc. cbn [app]. rewrite skip_ws_stop by done.
    change (34 =? 34) with true. cbv iota.
    rewrite <- (app_assoc (encode_chars k') [34]). cbn [app].
    erewrite (IH k' x' n); [done|simpl in Hn; lia|done].
Qed.

Lemma dict_of_pairs_from {V} (l : list (pystr * V)) : forall acc,
  NoDup (keys (acc ++ l)) ->
  fold_left (fun d kv => dict_set kv.1 kv.2 d) l acc = acc ++ l.
Proof.
  induction l as [|[k v] l IH]; intros acc Hnd; simpl.
  - by rewrite app_nil_r.
  - rewrite dict_set_keys_absent.
    + rewrite IH; rewrite <- app_assoc; done.
    + apply dict_get_keys. unfold keys in Hnd. rewrite map_app in Hnd.
      apply NoDup_app in Hnd as (_ & Hdisj & _).
      intros Hin. apply (Hdisj k Hin). simpl. apply elem_of_cons. by left.
Qed.

(** [dict(pairs)] keeps pairs whose keys are pairwise distinct. *)
Lemma dict_of_pairs_NoDup {V} (l : list (pystr * V)) :
  NoDup (keys l) -> dict_of_pairs l = l.
Proof. intros Hnd. unfold dict_of_pairs. by rewrite dict_of_pairs_from. Qed.

(** An object with members is read back, when its keys are pairwise
    distinct text and its values are read back one level deeper. *)
Lemma scan_once_dict fuel indent level k x xs rest :
  NoDup (keys ((k, x) :: xs)) ->
  Forall (fun kx : pystr * json =>
            is_text kx.1 = true /\ reads_back fuel indent (S level) kx.2)
    ((k, x) :: xs) ->
  scan_once (S fuel) (encode indent level (JDict ((k, x) :: xs)) ++ rest)
  = Some (JDict ((k, x) :: xs), rest)
  /\ skip_ws (encode indent level (JDict ((k, x) :: xs)) ++ rest)
     = encode indent level (JDict ((k, x) :: xs)) ++ rest.
Proof.
  intros Hnd Hall. rewrite encode_dict. rewrite <- !app_assoc. cbn [app].
  split; [|by rewrite skip_ws_stop].
  rewrite scan_once_brace. rewrite skip_ws_newline_indent.
  unfold member_text at 1. cbn [fst snd]. rewrite encode_string_chars.
  rewrite <- !app_assoc. cbn [app]. rewrite skip_ws_stop by done.
  change (34 =? 125) with false. change (34 =? 34) with true. cbv iota.
  rewrite <- (app_assoc (encode_chars k) [34]). cbn [app].
  rewrite (scan_pairs_members fuel indent (S level) level rest xs k x);
    [|
     |done].
  - cbn [mbind option_bind]. by rewrite dict_of_pairs_NoDup.
  - pose proof (length_more_members indent (S level) xs) as Hlen.
    cbn [length]. rewrite !length_app. lia.
Qed.

End Objects.

(** ** The catalog *)

Section Catalog.

Lemma reads_back_string fuel indent level s :
  is_text s = true -> reads_back (S fuel) indent level (JStr s).
Proof.
  intros Htext rest _. cbn [encode]. split.
  - by apply scan_once_string.
  - rewrite encode_string_chars. cbn [app]. by apply skip_ws_stop.
Qed.

Lemma reads_back_int fuel indent level z :
  reads_back (S fuel) indent level (JInt z).
Proof. intros rest Hrest. cbn [encode]. by apply scan_once_int. Qed.

Lemma reads_back_float fuel indent level f :
  reads_back (S fuel) indent level (JFloat f).
Proof. intros rest Hrest. cbn [encode]. by apply scan_once_float. Qed.

(** A product is read back from its object. *)
Lemma reads_back_product fuel indent level p :
  is_text (name p) = true ->
  reads_back (S (S fuel)) indent level (json_of_product p).
Proof.
  intros Hname rest _. unfold json_of_product. apply scan_once_dict.
  - repeat (apply NoDup_cons; split;
            [rewrite ?not_elem_of_cons; repeat split;
             first [discriminate | apply not_elem_of_nil]|]).
    apply NoDup_nil_2.
  - apply Forall_cons. split; [split; [done|by apply reads_back_string]|].
    apply Forall_cons. split; [split; [done|apply reads_back_int]|].
    apply Forall_cons. split; [split; [done|apply reads_back_float]|].
    apply Forall_nil_2.
Qed.

Lemma product_of_json_of_product p :
  product_of_json (json_of_product p) = Some p.
Proof. by destruct p. Qed.

Lemma inventory_of_json_of_inventory inv :
  inventory_of_json (json_of_inventory inv) = Some inv.
Proof.
  unfold inventory_of_json, json_of_inventory.
  induction inv as [|[k p] inv IH]; [done|].
  cbn [map mapM fst snd]. rewrite product_of_json_of_product.
  cbn [mbind option_bind]. by rewrite IH.
Qed.

Lemma keys_json_of_inventory inv :
  keys (map (fun kp : pystr * product => (kp.1, json_of_product kp.2)) inv)
  = keys inv.
Proof. unfold keys. rewrite map_map. by apply map_ext. Qed.

(** [json.loads(json.dumps(catalog, indent=4))] is the catalog. *)
Lemma json_loads_saved_text inv :
  storable inv ->
  json_loads (saved_text inv) = Some (json_of_inventory inv).
Proof.
  intros [Hnd Hall]. unfold saved_text, json_dumps, json_of_inventory.
  destruct inv as [|[k p] inv]; [reflexivity|].
  cbn [map fst snd].
  set (members := map _ inv).
  set (text := encode 4 0 (JDict ((k, json_of_product p) :: members))).
  assert (exists r, text = 123 :: 10 :: r) as [r Htext].
  { unfold text. rewrite encode_dict. by eexists. }
  assert (exists fuel, S (length text) = S (S (S fuel))) as [fuel Hfuel].
  { rewrite Htext. by eexists. }
  destruct (scan_once_dict (S (S fuel)) 4 0 k (json_of_product p) members [])
    as [Hscan Hws].
  - change ((k, json_of_product p) :: members)
      with (map (fun kp : pystr * product => (kp.1, json_of_product kp.2))
              ((k, p) :: inv)).
    by rewrite keys_json_of_inventory.
  - change ((k, json_of_product p) :: members)
      with (map (fun kp : pystr * product => (kp.1, json_of_product kp.2))
              ((k, p) :: inv)).
    apply List.Forall_map. eapply Forall_impl; [exact Hall|].
    intros [k' p'] (Hk & Hname & _). cbn [fst snd] in *.
    split; [done|]. by apply reads_back_product.
  - fold text in Hscan, Hws. rewrite app_nil_r in Hscan, Hws.
    unfold json_loads. rewrite Hfuel, Hws, Hscan.
    rewrite Htext at 1. reflexivity.
Qed.

End Catalog.

(** X13: a catalog saved with [save_inventory] is loaded by
    [load_inventory] as it was: the same IDs in the same order, with the
    same names, quantities and prices.  This holds for every catalog that
    can be stored: IDs that are pairwise distinct, IDs and names that are
    text, prices that are not NaN, and quantities of at most 4300
    digits; negative numbers, infinite prices, empty names and characters
    of any script are all read back. *)
Theorem save_then_load_gives_the_catalog (inv : dict product) (w : world) :
  storable inv ->
  let w' := (save_inventory inv w).2 in
  load_inventory w' = (Ok inv, w').
Proof.
  intros Hinv w'. unfold load_inventory. unfold_run.
  assert (files w' !! "inventory.json" = Some (saved_text inv)) as ->.
  { unfold w', save_inventory, modify. simpl. apply lookup_insert_eq. }
  rewrite json_loads_saved_text by done. cbv beta iota.
  by rewrite inventory_of_json_of_inventory.
Qed.

(** * From one session to the next *)

Section Persistence.

Variable unicode_decimal : N -> option N.

(** ** Text *)

Lemma is_text_app s t :
  is_text (s ++ t) = true -> is_text s = true /\ is_text t = true.
Proof.
  induction s as [|c s IH]; [done|]. cbn [app].
  intros (Hc & Hpair & Hrest)%is_text_cons.
  destruct (IH Hrest) as [Hs Ht]. split; [|done].
  cbn [is_text]. rewrite Hs, andb_true_r.
  apply andb_true_iff. split; [by apply N.leb_le|].
  apply negb_true_iff.
  destruct (is_high_surrogate c) eqn:Hhigh; [|done].
  specialize (Hpair eq_refl). by destruct s.
Qed.

(** Stripped text is text. *)
Lemma is_text_strip s : is_text s = true -> is_text (strip s) = true.
Proof.
  intros Hs. unfold strip.
  destruct (lstrip_suffix s) as [sp Hsp].
  destruct (rstrip_prefix (lstrip s)) as [sp' Hsp'].
  rewrite Hsp in Hs. apply is_text_app in Hs as [_ Hs].
  rewrite Hsp' in Hs. by apply is_text_app in Hs as [Hs _].
Qed.

(** ** Numbers as the program prints them *)






(** ** What is saved is what is loaded *)

Lemma synced_load self w :
  synced (self, w) -> storable (inventory self) ->
  load_inventory w = (Ok (inventory self), w).
Proof.
  unfold synced. simpl. intros Hfile Hinv.
  unfold load_inventory. unfold_run. rewrite Hfile.
  rewrite json_loads_saved_text by done. cbv beta iota.
  by rewrite inventory_of_json_of_inventory.
Qed.

Lemma storable_dict_set k p inv :
  storable inv ->
  is_text k = true -> is_text (name p) = true ->
  (Z.abs (quantity p) < 10 ^ 4300)%Z ->
  (price p =? price p)%float = true ->
  storable (dict_set k p inv).
Proof.
  intros [Hnd Hall] Hk Hname Hq Hp. split.
  - by apply NoDup_keys_dict_set.
  - by apply Forall_dict_set.
Qed.

(** X14: a product entered with [add_product] is there at the next
    start: when the catalog of the object can be stored, the ID and the
    name typed are text, and the quantity and the price are accepted (the
    quantity of at most 4300 digits, the price not a NaN), then
    [load_inventory], run on the world [add_product] leaves, returns the
    catalog of the object, in which the stripped ID has the stripped
    name, the quantity and the price entered. *)
Theorem added_product_is_loaded_again (self : user) (w : world)
    (raw raw_name raw_quantity raw_price : pystr) (rest : list pystr)
    (q : Z) (p : float) :
  storable (inventory self) ->
  stdin w = raw :: raw_name :: raw_quantity :: raw_price :: rest ->
  is_text raw = true -> is_text raw_name = true ->
  strip raw <> [] ->
  dict_get (strip raw) (inventory self) = None ->
  py_int unicode_decimal raw_quantity = Some q ->
  py_float unicode_decimal raw_price = Some p ->
  (0 <= q < 10 ^ 4300)%Z ->
  (p <? 0)%float = false -> (p =? p)%float = true ->
  let s' := (Admin.add_product unicode_decimal (self, w)).2 in
  load_inventory s'.2 = (Ok (inventory s'.1), s'.2)
  /\ dict_get (strip raw) (inventory s'.1)
     = Some (mkProduct (strip raw_name) q p).
Proof.
  intros Hinv Hin Hraw Hname Hne Hget Hq Hp Hbound Hneg Hnan.
  rewrite (add_product_done unicode_decimal self w _ _ _ _ _ q p
             Hin Hne Hget Hq Hp ltac:(lia) Hneg).
  cbv zeta. cbn [snd fst]. split.
  - apply (synced_load (set_inventory _ self)).
    + unfold synced. simpl. apply lookup_insert_eq.
    + simpl. apply storable_dict_set; try done.
      * by apply is_text_strip.
      * simpl. by apply is_text_strip.
      * simpl. lia.
  - simpl. rewrite dict_get_set. by destruct (decide (strip raw = strip raw)).
Qed.

(** ** Through a session *)

Lemma written_in_step_session : session_relation written_in_step.
Proof.
  split.
  - intros s. exists []. rewrite app_nil_r. split; [done|]. by left.
  - intros s1 s2 s3 (evs & Ht & H12) (evs' & Ht' & H23).
    exists (evs ++ evs'). split; [by rewrite Ht', Ht, app_assoc|].
    destruct H23 as [(Hw' & Hi' & Hf')|Hs3]; [|by right].
    destruct H12 as [(Hw & Hi & Hf)|Hs2].
    + left. rewrite catalog_writes_app, Hw, Hw'.
      repeat split; congruence.
    + right. unfold synced in *. congruence.
  - intros s evs Hevs. exists evs. split; [done|]. left.
    by destruct (prints_log_lines evs Hevs) as [_ ->].
  - intros prompt [self w]. unfold call, input. simpl.
    destruct (stdin w); simpl; exists [EvInput prompt];
      (split; [done|]); by left.
Qed.

Lemma add_product_written_in_step :
  respects written_in_step (Admin.add_product unicode_decimal).
Proof.
  apply respects_add_product. intros self w r self' w' Hrun.
  inversion Hrun; subst;
    (eexists; split; [reflexivity|]);
    try (by left).
  right. unfold synced. simpl. apply lookup_insert_eq.
Qed.

Lemma delete_product_written_in_step :
  respects written_in_step Admin.delete_product.
Proof.
  apply respects_delete_product. intros self w r self' w' Hrun.
  inversion Hrun; subst;
    (eexists; split; [reflexivity|]);
    try (by left).
  right. unfold synced. simpl. apply lookup_insert_eq.
Qed.

Lemma update_stock_written_in_step logged self w r self' w' :
  update_stock_run unicode_decimal logged self w r self' w' ->
  written_in_step (self, w) (self', w').
Proof.
  intros Hrun. inversion Hrun; subst;
    try (eexists; split; [reflexivity|]; by left).
  destruct logged; (eexists; split; [reflexivity|]); right;
    unfold synced; simpl.
  - rewrite lookup_insert_ne by done. apply lookup_insert_eq.
  - apply lookup_insert_eq.
Qed.

(** X16: when a session of the administrator or of the staff has written
    the catalog at least once, and the catalog the object ends with can
    be stored, then [load_inventory], as the next start of the program
    runs it, returns exactly that catalog: the changes of a session are
    all there at the next one, and none is lost or altered on the way
    through [inventory.json]. *)
Theorem session_changes_are_loaded_again (admin : bool) (rounds : nat)
    (self : user) (w : world) :
  let s' :=
    ((if admin then admin_loop unicode_decimal rounds
      else staff_loop unicode_decimal rounds) (self, w)).2 in
  catalog_writes (since w s'.2) <> [] ->
  storable (inventory s'.1) ->
  load_inventory s'.2 = (Ok (inventory s'.1), s'.2).
Proof.
  intros s' Hwritten Hinv.
  assert (written_in_step (self, w) s') as (evs & Ht & Hstep).
  { unfold s'. destruct admin.
    - apply (respects_admin_loop unicode_decimal written_in_step
               written_in_step_session add_product_written_in_step
               (respects_admin_update_stock unicode_decimal _
                  (update_stock_written_in_step false))
               delete_product_written_in_step).
    - apply (respects_staff_loop unicode_decimal written_in_step
               written_in_step_session
               (respects_staff_update_stock unicode_decimal _
                  (update_stock_written_in_step true))). }
  simpl in Ht. rewrite (since_app _ _ _ Ht) in Hwritten.
  destruct Hstep as [(Hnone & _)|Hsynced]; [done|].
  destruct s' as [self' w']. by apply synced_load.
Qed.

End Persistence.
(** ** The claims at sample inputs *)

Lemma add_product_failure_witness :
  add_product_fails ascii_only [] [lit "   "]
  /\ exists w',
       Admin.add_product ascii_only
         (sample_admin [], sample_world [lit "   "] ∅)
       = (Ok tt, (sample_admin [], w'))
       /\ files w' = ∅
       /\ Forall (fun e => is_file_write e = false)
            (since (sample_world [lit "   "] ∅) w')
       /\ check_mark ++ lit " Product Added Successfully!"
          ∉ printed (since (sample_world [lit "   "] ∅) w').
Proof.
  split.
  - by apply fails_empty_id.
  - apply (add_product_failure_changes_nothing ascii_only (sample_admin [])
             (sample_world [lit "   "] ∅)).
    by apply fails_empty_id.
Defined.

Lemma update_stock_sets_the_quantity_witness :
  let self := sample_staff [(lit "P1", pen)] in
  let w := sample_world [lit " P1 "; lit "3"] ∅ in
  exists self' w',
    Staff.update_stock ascii_only (self, w) = (Ok tt, (self', w'))
    /\ keys (inventory self') = [lit "P1"]
    /\ (forall k,
          dict_get k (inventory self')
          = if decide (k = strip (lit " P1 "))
            then Some (mkProduct (lit "Pen") 3 2.5%float)
            else dict_get k (inventory self))
    /\ files w' !! "inventory.json" = Some (saved_text (inventory self'))
    /\ EvWrite "inventory.json" (saved_text (inventory self')) ∈ since w w'.
Proof.
  exact (proj1 (update_stock_sets_the_quantity ascii_only true
                  (sample_staff [(lit "P1", pen)])
                  (sample_world [lit " P1 "; lit "3"] ∅)
                  (lit " P1 ") [lit "3"] eq_refl)
           pen (lit "3") [] 3%Z eq_refl eq_refl eq_refl
           ltac:(discriminate)).
Defined.


Lemma delete_product_removes_the_entry_witness :
  let self := sample_admin [(lit "P1", pen)] in
  let w := sample_world [lit " P1"] ∅ in
  exists self' w' before after,
    Admin.delete_product (self, w) = (Ok tt, (self', w'))
    /\ inventory self = before ++ (strip (lit " P1"), pen) :: after
    /\ inventory self' = before ++ after
    /\ (forall k,
          dict_get k (inventory self')
          = if decide (k = strip (lit " P1")) then None
            else dict_get k (inventory self))
    /\ files w' !! "inventory.json" = Some (saved_text (inventory self'))
    /\ EvWrite "inventory.json" (saved_text (inventory self')) ∈ since w w'.
Proof.
  refine (proj1 (delete_product_removes_the_entry
                   (sample_admin [(lit "P1", pen)])
                   (sample_world [lit " P1"] ∅) (lit " P1") [] _ eq_refl)
            pen eq_refl).
  apply NoDup_cons. split; [apply not_elem_of_nil | apply NoDup_nil_2].
Defined.

Lemma sample_catalog_kept : kept_invariant [(lit "P1", pen)].
Proof.
  split.
  - apply NoDup_cons. split; [apply not_elem_of_nil | apply NoDup_nil_2].
  - apply Forall_cons. split; [|apply Forall_nil_2].
    split; [discriminate|]. split; [discriminate | reflexivity].
Defined.





Lemma load_inventory_without_file_witness :
  load_inventory (sample_world [] ∅) = (Ok [], sample_world [] ∅).
Proof.
  exact (load_inventory_without_file (sample_world [] ∅) (lookup_empty _)).
Defined.

Lemma product_id_is_stripped_witness :
  let self := sample_admin [] in
  let w := sample_world [] ∅ in
  exists self' w',
    (Admin.add_product ascii_only;; Admin.add_product ascii_only)
      (self,
       set_stdin [lit "P1"; lit "Pen"; lit "10"; lit "2.5"; lit " P1 "] w)
    = (Ok tt, (self', w'))
    /\ inventory self'
       = dict_set (strip (lit "P1")) (mkProduct (strip (lit "Pen")) 10 2.5)
           (inventory self)
    /\ printed (since w w')
       = [check_mark ++ lit " Product Added Successfully!";
          warning_sign ++ lit " Product ID already exists!"].
Proof.
  exact (proj2 (proj2 (product_id_is_stripped ascii_only (sample_admin [])
                         (sample_world [] ∅) (lit "P1")
                         [lit "Pen"; lit "10"; lit "2.5"; lit " P1 "]))
           (lit "Pen") (lit "10") (lit "2.5") (lit " P1 ") [] 10%Z 2.5%float
           eq_refl ltac:(discriminate) eq_refl eq_refl eq_refl
           ltac:(discriminate) eq_refl eq_refl).
Defined.

(** ** The sessions at sample inputs *)

Lemma main_ends_witness :
  (main ascii_only 4
     (sample_world [lit "1"; lit "admin"; lit "1234"; lit "6"] ∅)).1
  <> Ok false.
Proof.
  apply (main_ends ascii_only 4
           (sample_world [lit "1"; lit "admin"; lit "1234"; lit "6"] ∅)).
  simpl. lia.
Defined.

Lemma wrong_credentials_witness :
  let w := sample_world [lit "1"; lit "admin"; lit "12345"; lit "2"] ∅ in
  exists w',
    main ascii_only 1 w = (Ok true, w')
    /\ printed (since w w')
       = [lit "Who are you?"; lit "1. Admin"; lit "2. Staff";
          lit "Authentication Failed!"]
    /\ Forall (fun e => is_file_write e = false) (since w w')
    /\ files w' = files w
    /\ stdin w' = [lit "2"].
Proof.
  apply (wrong_credentials_open_no_menu ascii_only 1
           (sample_world [lit "1"; lit "admin"; lit "12345"; lit "2"] ∅)
           [] (lit "1") (lit "admin") (lit "12345") [lit "2"]
           (load_inventory_fresh _) eq_refl).
  - intros (_ & _ & H). discriminate H.
  - intros (H & _). discriminate H.
Defined.

Lemma damaged_catalog_witness :
  let w := sample_world [lit "1"] (<["inventory.json" := []]> ∅) in
  load_inventory w = (Raise ValueError, w)
  /\ main ascii_only 1 w = (Raise ValueError, w).
Proof.
  exact (damaged_catalog_stops_main ascii_only 1
           (sample_world [lit "1"] (<["inventory.json" := []]> ∅)) []
           (lookup_insert_eq _ _ _) eq_refl).
Defined.

Lemma add_then_delete_witness :
  let self := sample_admin [(lit "P1", pen)] in
  let w :=
    sample_world [lit "P2"; lit "Ink"; lit "3"; lit "7.5"; lit " P2 "] ∅ in
  exists self' w',
    (Admin.add_product ascii_only;; Admin.delete_product) (self, w)
    = (Ok tt, (self', w'))
    /\ inventory self' = inventory self
    /\ files w' !! "inventory.json" = Some (saved_text (inventory self))
    /\ stdin w' = [].
Proof.
  exact (add_then_delete_restores_the_catalog ascii_only
           (sample_admin [(lit "P1", pen)])
           (sample_world [lit "P2"; lit "Ink"; lit "3"; lit "7.5"; lit " P2 "]
              ∅)
           (lit "P2") (lit "Ink") (lit "3") (lit "7.5") (lit " P2 ") []
           3%Z 7.5%float
           eq_refl ltac:(discriminate) eq_refl eq_refl eq_refl
           ltac:(discriminate) eq_refl eq_refl).
Defined.

Lemma update_stock_twice_witness :
  let self := sample_staff [(lit "P1", pen)] in
  let w := sample_world [lit "P1"; lit "3"; lit " P1"; lit "8"] ∅ in
  exists self' w',
    (Staff.update_stock ascii_only;; Staff.update_stock ascii_only) (self, w)
    = (Ok tt, (self', w'))
    /\ inventory self'
       = dict_set (strip (lit "P1")) (set_quantity 8 pen) (inventory self)
    /\ files w' !! "inventory.json" = Some (saved_text (inventory self'))
    /\ stdin w' = [].
Proof.
  exact (update_stock_twice_keeps_the_last ascii_only true
           (sample_staff [(lit "P1", pen)])
           (sample_world [lit "P1"; lit "3"; lit " P1"; lit "8"] ∅)
           (lit "P1") (lit "3") (lit " P1") (lit "8") [] pen 3%Z 8%Z
           eq_refl eq_refl eq_refl eq_refl eq_refl
           ltac:(discriminate) ltac:(discriminate)).
Defined.


Lemma sessions_keep_the_invariant_witness :
  let self := sample_admin [(lit "P1", pen)] in
  let w := sample_world [lit "4"; lit "P1"; lit "6"] ∅ in
  kept_invariant (inventory (admin_loop ascii_only 3 (self, w)).2.1)
  /\ kept_invariant (inventory (staff_loop ascii_only 3 (self, w)).2.1).
Proof.
  exact (sessions_keep_the_invariant ascii_only 3
           (sample_admin [(lit "P1", pen)])
           (sample_world [lit "4"; lit "P1"; lit "6"] ∅)
           sample_catalog_kept).
Defined.

(** ** The stored catalog at sample inputs *)

Lemma sample_catalog_storable : storable [(lit "P1", pen)].
Proof.
  split.
  - apply NoDup_cons. split; [apply not_elem_of_nil | apply NoDup_nil_2].
  - apply Forall_cons. split; [|apply Forall_nil_2].
    split; [reflexivity|]. split; [reflexivity|].
    split; [by vm_compute | reflexivity].
Defined.

Lemma save_then_load_witness :
  let inv := [(lit "P1", pen)] in
  let w' := (save_inventory inv (sample_world [] ∅)).2 in
  load_inventory w' = (Ok inv, w').
Proof.
  exact (save_then_load_gives_the_catalog [(lit "P1", pen)]
           (sample_world [] ∅) sample_catalog_storable).
Defined.

Lemma added_product_is_loaded_again_witness :
  let self := sample_admin [(lit "P1", pen)] in
  let w := sample_world [lit " P2 "; lit "Ink"; lit "3"; lit "7.5"] ∅ in
  let s' := (Admin.add_product ascii_only (self, w)).2 in
  load_inventory s'.2 = (Ok (inventory s'.1), s'.2)
  /\ dict_get (strip (lit " P2 ")) (inventory s'.1)
     = Some (mkProduct (strip (lit "Ink")) 3 7.5%float).
Proof.
  refine (added_product_is_loaded_again ascii_only
            (sample_admin [(lit "P1", pen)])
            (sample_world [lit " P2 "; lit "Ink"; lit "3"; lit "7.5"] ∅)
            (lit " P2 ") (lit "Ink") (lit "3") (lit "7.5") [] 3%Z 7.5%float
            sample_catalog_storable eq_refl eq_refl eq_refl _ eq_refl
            eq_refl eq_refl _ eq_refl eq_refl).
  - discriminate.
  - split; [lia | reflexivity].
Defined.

Lemma staff_session_catalog :
  inventory
    (staff_loop ascii_only 2
       (sample_staff [(lit "P1", pen)],
        sample_world [lit "2"; lit "P1"; lit "3"; lit "3"] ∅)).2.1
  = [(lit "P1", set_quantity 3 pen)].
Proof. by vm_compute. Defined.

Lemma session_changes_are_loaded_again_witness :
  let s' :=
    (staff_loop ascii_only 2
       (sample_staff [(lit "P1", pen)],
        sample_world [lit "2"; lit "P1"; lit "3"; lit "3"] ∅)).2 in
  load_inventory s'.2 = (Ok (inventory s'.1), s'.2).
Proof.
  refine (session_changes_are_loaded_again ascii_only false 2
            (sample_staff [(lit "P1", pen)])
            (sample_world [lit "2"; lit "P1"; lit "3"; lit "3"] ∅) _ _).
  - by vm_compute.
  - cbv zeta. rewrite staff_session_catalog. split.
    + apply NoDup_cons. split; [apply not_elem_of_nil | apply NoDup_nil_2].
    + apply Forall_cons. split; [|apply Forall_nil_2].
      split; [reflexivity|]. split; [reflexivity|].
      split; [by vm_compute | reflexivity].
Defined.
